(** * ogiTarot: the seeded spread, the admin-claims sync and the
      interpretation endpoint

    A shallow embedding of the parts of the repository that its
    specification makes promises about:

    - [src/src/App.tsx] (the [TarotSpreadPick] component file):
      [buildTarotDeck78], [xmur3], [mulberry32], [makeSeededRng],
      [shuffleSeeded], [isReversed], [pick], [newSeed], [canInterpret],
      the client side of [interpret] and the full-reset button handler;
    - [src/functions/index.js]: [getAdminEmailList], [isAdminEmail],
      [syncAdminClaims] and the [interpret] HTTP endpoint.

    Conventions of the embedding.

    - A JavaScript string is the list of its UTF-16 code units
      ([js_string = list Z]); [charCodeAt] is list lookup and [length] is
      the length of the list.
    - 32-bit integer operators are written on [Z] with the conversions
      [ToInt32] / [ToUint32] of the language made explicit.
    - A number is a rational, [NaN] or an infinity.  Every value
      [mulberry32] produces is [u / 2^32] with [0 <= u < 2^32], which a
      double holds exactly, and so is its product with an index below
      [2^21]; on such values rational arithmetic and double arithmetic
      coincide.
    - Arrays live in a store ([heap]) and are reached through locations,
      so that in-place updates and aliasing are visible. *)

From Stdlib Require Import ZArith QArith Qround Lia.
From Stdlib Require Import Ascii String.
From stdpp Require Import base tactics option list gmap fin_maps pretty.

Local Open Scope Z_scope.

(** ** JavaScript strings *)

Module JS.

Definition js_string : Type := list Z.

(** Code units of a literal.  A literal of this file is UTF-8 text; the
    language holds it in UTF-16. *)
Definition code_units (cp : Z) : js_string :=
  if cp <? 65536 then [cp]
  else [55296 + (cp - 65536) / 1024; 56320 + (cp - 65536) mod 1024].

Fixpoint utf16 (s : string) (cp : Z) (pending : nat) : js_string :=
  match s with
  | EmptyString => []
  | String c s' =>
      let b := Z.of_N (N_of_ascii c) in
      match pending with
      | O =>
          if b <? 128 then b :: utf16 s' 0 0
          else if b <? 224 then utf16 s' (Z.land b 31) 1
          else if b <? 240 then utf16 s' (Z.land b 15) 2
          else utf16 s' (Z.land b 7) 3
      | S k =>
          let cp := cp * 64 + Z.land b 63 in
          match k with
          | O => code_units cp ++ utf16 s' 0 0
          | S _ => utf16 s' cp k
          end
      end
  end.

Definition str (s : string) : js_string := utf16 s 0 0.

Definition js_length (s : js_string) : Z := Z.of_nat (length s).

(** A string is truthy when it is not empty. *)
Definition truthy (s : js_string) : bool :=
  match s with [] => false | _ :: _ => true end.

(** [`${n}`] for a non-negative integer [n]. *)
Definition num_to_string (n : nat) : js_string := str (pretty n).

Definition newline : js_string := [10].

(** The code units the language counts as white space or as a line
    terminator: the ones [trim] removes. *)
Definition is_space (c : Z) : bool :=
  bool_decide (c ∈ [9; 10; 11; 12; 13; 32; 160; 5760; 8232; 8233; 8239;
                    8287; 12288; 65279])
  || ((8192 <=? c) && (c <=? 8202)).

Fixpoint trimStart (s : js_string) : js_string :=
  match s with
  | [] => []
  | c :: s' => if is_space c then trimStart s' else s
  end.

Definition trimEnd (s : js_string) : js_string :=
  reverse (trimStart (reverse s)).

(** [s.trim()] *)
Definition trim (s : js_string) : js_string := trimEnd (trimStart s).

(** A string that does not start with white space. *)
Definition starts_clean (s : js_string) : Prop :=
  match s with
  | [] => True
  | c :: _ => is_space c = false
  end.

(** [s.split(sep)] for a separator of one code unit. *)
Fixpoint split (sep : Z) (s : js_string) : list js_string :=
  match s with
  | [] => [[]]
  | c :: s' =>
      if decide (c = sep) then [] :: split sep s'
      else match split sep s' with
           | [] => [[c]]
           | w :: ws => (c :: w) :: ws
           end
  end.

(** [s.startsWith(p)] *)
Fixpoint startsWith (s p : js_string) {struct p} : bool :=
  match p, s with
  | [], _ => true
  | _ :: _, [] => false
  | x :: p', c :: s' => bool_decide (c = x) && startsWith s' p'
  end.

(** [s.includes(p)] *)
Fixpoint includes (s p : js_string) : bool :=
  startsWith s p ||
  match s with
  | [] => false
  | _ :: s' => includes s' p
  end.

(** [l.join(sep)] *)
Fixpoint join (sep : js_string) (l : list js_string) : js_string :=
  match l with
  | [] => []
  | [x] => x
  | x :: l' => x ++ sep ++ join sep l'
  end.

(** A value that was thrown: an [Error] with its message, or anything
    else, with what [String(e)] makes of it. *)
Inductive thrown :=
| ErrorObj (message : js_string)
| NonError (text : js_string).

(** [e instanceof Error ? e.message : "Unknown error"] *)
Definition message_or_unknown (e : thrown) : js_string :=
  match e with
  | ErrorObj m => m
  | NonError _ => str "Unknown error"
  end.

(** *** 32-bit integer operators *)

Definition ToUint32 (x : Z) : Z := x mod 2 ^ 32.

Definition ToInt32 (x : Z) : Z :=
  let u := x mod 2 ^ 32 in
  if u <? 2 ^ 31 then u else u - 2 ^ 32.

(** [a ^ b] *)
Definition bxor (a b : Z) : Z := Z.lxor (ToInt32 a) (ToInt32 b).

(** [a | b] *)
Definition bor (a b : Z) : Z := Z.lor (ToInt32 a) (ToInt32 b).

(** [a << n] *)
Definition shl (a n : Z) : Z := ToInt32 (Z.shiftl (ToInt32 a) (Z.land n 31)).

(** [a >>> n] *)
Definition ushr (a n : Z) : Z := Z.shiftr (ToUint32 a) (Z.land n 31).

(** [Math.imul(a, b)] *)
Definition imul (a b : Z) : Z := ToInt32 (ToInt32 a * ToInt32 b).

(** *** Numbers and property keys

    A number is a rational (every finite double is one), [NaN] or an
    infinity.  Arithmetic on rationals is exact; it agrees with double
    arithmetic wherever the double result is exact, as it is for the
    values the seeded generator produces. *)
Inductive number :=
| Num (q : Q)
| NaN
| Infinity
| NegInfinity.

(** [a < b] *)
Definition js_lt (a b : number) : bool :=
  match a, b with
  | Num x, Num y => match (x ?= y)%Q with Lt => true | _ => false end
  | Num _, Infinity => true
  | NegInfinity, Num _ => true
  | NegInfinity, Infinity => true
  | _, _ => false
  end.

(** [r * n] for an integer [n]: the product as a rational.  It is the
    number the code computes wherever the product has at most 53
    significant bits, as for a multiple of [2^-32] below 1 times an
    integer up to [2^21]. *)
Definition times (r : number) (n : Z) : number :=
  match r with
  | Num q => Num (q * inject_Z n)
  | NaN => NaN
  | Infinity =>
      if 0 <? n then Infinity else if n <? 0 then NegInfinity else NaN
  | NegInfinity =>
      if 0 <? n then NegInfinity else if n <? 0 then Infinity else NaN
  end.

(** The keys of the properties of an array that the code can name: the
    integers (among them the array indices) and the names [NaN],
    [Infinity] and [-Infinity]. *)
Inductive key :=
| Index (k : Z)
| KNaN
| KInfinity
| KNegInfinity.

(** [Math.floor(x)] used as a property key. *)
Definition floor_key (x : number) : key :=
  match x with
  | Num q => Index (Qfloor q)
  | NaN => KNaN
  | Infinity => KInfinity
  | NegInfinity => KNegInfinity
  end.

End JS.

Import JS.

Global Instance key_eq_dec : EqDecision key.
Proof. solve_decision. Defined.

Global Instance key_countable : Countable key.
Proof.
  refine (inj_countable'
            (fun k => match k with
                      | Index z => inl z
                      | KNaN => inr 0%nat
                      | KInfinity => inr 1%nat
                      | KNegInfinity => inr 2%nat
                      end)
            (fun x => match x with
                      | inl z => Index z
                      | inr 0%nat => KNaN
                      | inr 1%nat => KInfinity
                      | inr _ => KNegInfinity
                      end) _).
  by intros [].
Defined.

Global Instance Index_inj : Inj (=) (=) Index.
Proof. by intros x y [=]. Qed.

(** ** The deck ([buildTarotDeck78]) *)

Inductive Suit := Wands | Cups | Swords | Pentacles.
Inductive Arcana := Major | Minor.

Definition suit_name (s : Suit) : js_string :=
  match s with
  | Wands => str "Wands"
  | Cups => str "Cups"
  | Swords => str "Swords"
  | Pentacles => str "Pentacles"
  end.

Record TarotCard := mkCard {
  id : js_string;
  arcana : Arcana;
  name : js_string;
  suit : option Suit;
  rank : option js_string
}.

Global Instance Suit_eq_dec : EqDecision Suit.
Proof. solve_decision. Defined.
Global Instance Arcana_eq_dec : EqDecision Arcana.
Proof. solve_decision. Defined.
Global Instance TarotCard_eq_dec : EqDecision TarotCard.
Proof. solve_decision. Defined.

Definition majorNames : list js_string :=
  map str
    [ "The Fool"; "The Magician"; "The High Priestess"; "The Empress";
      "The Emperor"; "The Hierophant"; "The Lovers"; "The Chariot";
      "Strength"; "The Hermit"; "Wheel of Fortune"; "Justice";
      "The Hanged Man"; "Death"; "Temperance"; "The Devil"; "The Tower";
      "The Star"; "The Moon"; "The Sun"; "Judgement"; "The World" ]%string.

Definition majors : list TarotCard :=
  imap (fun i nm =>
          {| id := str "M-" ++ num_to_string i;
             arcana := Major;
             name := nm;
             suit := None;
             rank := None |}) majorNames.

Definition suits : list Suit := [Wands; Cups; Swords; Pentacles].

Definition minorRanks : list js_string :=
  map str
    [ "Ace"; "2"; "3"; "4"; "5"; "6"; "7"; "8"; "9"; "10";
      "Page"; "Knight"; "Queen"; "King" ]%string.

Definition minors : list TarotCard :=
  flat_map (fun s =>
    map (fun r =>
           {| id := str "m-" ++ suit_name s ++ str "-" ++ r;
              arcana := Minor;
              name := r ++ str " of " ++ suit_name s;
              suit := Some s;
              rank := Some r |}) minorRanks) suits.

Definition buildTarotDeck78 : list TarotCard := majors ++ minors.

(** ** The seeded generator ([xmur3], [mulberry32], [makeSeededRng]) *)

(** [xmur3(str)] folds the string into the 32-bit state [h] that the
    closure it returns keeps. *)
Definition xmur3 (s : js_string) : Z :=
  fold_left
    (fun h c =>
       let h := imul (bxor h c) 3432918353 in
       bor (shl h 13) (ushr h 19))
    s (bxor 1779033703 (js_length s)).

(** One call of the closure [xmur3] returns: the number returned, and the
    new state. *)
Definition xmur3_next (h : Z) : Z * Z :=
  let h := imul (bxor h (ushr h 16)) 2246822507 in
  let h := imul (bxor h (ushr h 13)) 3266489909 in
  let h := bxor h (ushr h 16) in
  (ushr h 0, h).

(** One call of the closure [mulberry32(seed)] returns; the state is the
    captured variable [seed], a number that grows by [0x6d2b79f5] on each
    call (it stays far below [2^53] for millions of calls). *)
Definition mulberry32 (seed : Z) : number * Z :=
  let seed := seed + 0x6d2b79f5 in
  let t := seed in
  let t := imul (bxor t (ushr t 15)) (bor t 1) in
  let t := bxor t (t + imul (bxor t (ushr t 7)) (bor t 61)) in
  (Num (ushr (bxor t (ushr t 14)) 0 # 4294967296), seed).

(** [makeSeededRng(seedStr)]: the initial state of the generator. *)
Definition makeSeededRng (seedStr : js_string) : Z :=
  let seedFn := xmur3 seedStr in
  let seed := fst (xmur3_next seedFn) in
  seed.

(** ** Arrays in the store

    An array object is its properties and its [length].  A property
    holds [Some x] or the value [undefined] ([None]); a key with no
    property is a hole and reads as [undefined] too. *)

Definition loc : Type := positive.

Record js_array (T : Type) := JsArray {
  props : gmap key (option T);
  len : Z
}.
Arguments JsArray {T} _ _.
Arguments props {T} _.
Arguments len {T} _.

(** The store: the array object each location holds. *)
Abbreviation heap T := (gmap loc (js_array T)).

Section Arrays.
Context {T : Type}.

(** [a[k]] *)
Definition aget (a : js_array T) (k : key) : option T :=
  match props a !! k with
  | Some v => v
  | None => None
  end.

(** [a[k] = v]: an array index ([0 <= k < 2^32 - 1]) at or beyond the
    length extends the array; any other key is an ordinary property. *)
Definition aset (a : js_array T) (k : key) (v : option T) : js_array T :=
  {| props := <[k := v]> (props a);
     len := match k with
            | Index z =>
                if decide (0 <= z < 2 ^ 32 - 1 /\ len a <= z)
                then z + 1 else len a
            | _ => len a
            end |}.

(** The elements an iteration over the array yields. *)
Definition items (a : js_array T) : list (option T) :=
  (fun z => aget a (Index z)) <$> seqZ 0 (len a).

(** An array literal / a freshly built array with the given elements. *)
Definition array_of (l : list (option T)) : js_array T :=
  {| props := kmap Index (map_seqZ 0 l : gmap Z (option T));
     len := Z.of_nat (length l) |}.

(** [[...a]] *)
Definition spread (a : js_array T) : js_array T := array_of (items a).

(** [dense A l]: the array [A] has exactly the elements of [l] at the
    indices below its length. *)
Definition dense (A : js_array T) (l : list (option T)) : Prop :=
  len A = Z.of_nat (length l) /\
  forall (i : nat) x, l !! i = Some x -> aget A (Index (Z.of_nat i)) = x.

(** [a[k]] through a reference. *)
Definition load (h : heap T) (a : loc) (k : key) : option T :=
  match h !! a with
  | Some A => aget A k
  | None => None
  end.

(** [a[k] = v] through a reference. *)
Definition store (h : heap T) (a : loc) (k : key) (v : option T) : heap T :=
  alter (fun A => aset A k v) a h.

(** Allocation of a new array object. *)
Definition alloc (h : heap T) (A : js_array T) : heap T * loc :=
  let l := fresh (dom h) in (<[l := A]> h, l).

End Arrays.

(** ** [shuffleSeeded]

    The generator is a closure with private state: a state type [R] and a
    function performing one call. *)

Section Shuffle.
Context {T R : Type} (rng : R -> number * R).

(** One iteration of the loop body at index [i]:
    [const j = Math.floor(rng() * (i + 1)); [a[i], a[j]] = [a[j], a[i]];] *)
Definition swap_step (a : loc) (i : Z) (st : heap T * R) : heap T * R :=
  let '(h, s) := st in
  let '(r, s) := rng s in
  let j := floor_key (times r (i + 1)) in
  let aj := load h a j in
  let ai := load h a (Index i) in
  let h := store h a (Index i) aj in
  let h := store h a j ai in
  (h, s).

(** [for (let i = ...; i > 0; i--)] from a starting index. *)
Fixpoint shuffle_loop (a : loc) (i : nat) (st : heap T * R) : heap T * R :=
  match i with
  | O => st
  | S i' => shuffle_loop a i' (swap_step a (Z.of_nat i) st)
  end.

(** The same iteration and loop on the array object itself, for
    stating what they do to the one array they write to. *)
Definition swap_array (i : Z) (st : js_array T * R) : js_array T * R :=
  let '(A, s) := st in
  let '(r, s) := rng s in
  let j := floor_key (times r (i + 1)) in
  let aj := aget A j in
  let ai := aget A (Index i) in
  (aset (aset A (Index i) aj) j ai, s).

Fixpoint loop_array (i : nat) (st : js_array T * R) : js_array T * R :=
  match i with
  | O => st
  | S i' => loop_array i' (swap_array (Z.of_nat i) st)
  end.

(** [shuffleSeeded(arr, rng)]: the store after the call, the reference
    returned and the state the generator is left in.  [None] only for a
    reference that is not in the store. *)
Definition shuffleSeeded (h : heap T) (arr : loc) (s : R)
  : option (heap T * loc * R) :=
  match h !! arr with
  | None => None
  | Some A =>
      let '(h, a) := alloc h (spread A) in
      let n := match h !! a with Some A' => len A' | None => 0 end in
      let '(h, s) := shuffle_loop a (Z.to_nat (n - 1)) (h, s) in
      Some (h, a, s)
  end.

End Shuffle.

(** The array object [buildTarotDeck78()] returns. *)
Definition baseDeckArray : js_array TarotCard :=
  array_of (Some <$> buildTarotDeck78).

(** A seed of the shape [randomSeedString] produces, and the store a
    component started with it leaves after its first shuffle; both serve
    as concrete inputs. *)
Definition sample_seed : js_string := str "a3f19c02-5b7e4d10-09c8e6aa-71d2f3b4".

Definition sample_store : heap TarotCard :=
  match shuffleSeeded mulberry32 {[ 1%positive := baseDeckArray ]} 1%positive
          (makeSeededRng sample_seed) with
  | Some (h, _, _) => h
  | None => ∅
  end.

(** A generator that leaves [[0, 1)]: it answers 5/2, [NaN], -1/2,
    [Infinity], and so on; another concrete input. *)
Definition wild_rng (n : Z) : number * Z :=
  (match n mod 4 with
   | 0 => Num (5 # 2)
   | 1 => NaN
   | 2 => Num (- 1 # 2)
   | _ => Infinity
   end, n + 1).

(** ** The spread component ([TarotSpreadPick])

    The component's state is its [useState] cells together with the store
    that holds the arrays its [useMemo] cells refer to: [baseDeck] is
    built once, [deck] is rebuilt by [shuffleSeeded] whenever [seed]
    changes.  Beside the cells the state keeps the values the last
    render read from them: the functions of the component ([pick],
    [interpret]) are closures over those values, while the setters act
    on the cells.  The animation flag and the input ref only drive the
    display and are left out. *)

Record PickedCard := mkPicked {
  card : TarotCard;
  reversed : bool
}.

Definition drawCount : nat := 5.

(** [const isReversed = (cardId) => makeSeededRng(`${seed}::rev::${cardId}`)() < 0.5] *)
Definition isReversed (seed cardId : js_string) : bool :=
  let r := fst (mulberry32 (makeSeededRng (seed ++ str "::rev::" ++ cardId))) in
  js_lt r (Num (1 # 2)).

(** [new Map(deck.map((c) => [c.id, c]))]: a later entry replaces an
    earlier one with the same key; reading [c.id] of [undefined] throws
    ([None]). *)
Definition deckMap (d : list (option TarotCard))
  : option (gmap js_string TarotCard) :=
  foldl (fun om oc =>
           match om, oc with
           | Some m, Some c => Some (<[id c := c]> m)
           | _, _ => None
           end) (Some ∅) d.

Module Spread.

(** The values of the cells as a render read them. *)
Record view := mkView {
  seen_deck : loc;
  seen_seed : js_string;
  seen_pickedIds : list js_string;
  seen_topic : js_string;
  seen_isInterpreting : bool;
  seen_resultText : option js_string;
  seen_errorText : option js_string;
  seen_isResultOpen : bool;
  seen_isDeckVisible : bool;
  seen_showInitialCards : bool
}.

Record state := mkState {
  store : heap TarotCard;
  baseDeck : loc;
  deck : loc;
  seed : js_string;
  pickedIds : list js_string;
  topic : js_string;
  isInterpreting : bool;
  resultText : option js_string;
  errorText : option js_string;
  isResultOpen : bool;
  isDeckVisible : bool;
  showInitialCards : bool;
  rendered : view
}.

(** The state setters. *)
Definition setTopic (v : js_string) (st : state) : state :=
  mkState (store st) (baseDeck st) (deck st) (seed st) (pickedIds st) v
    (isInterpreting st) (resultText st) (errorText st) (isResultOpen st)
    (isDeckVisible st) (showInitialCards st) (rendered st).
Definition setIsInterpreting (v : bool) (st : state) : state :=
  mkState (store st) (baseDeck st) (deck st) (seed st) (pickedIds st)
    (topic st) v (resultText st) (errorText st) (isResultOpen st)
    (isDeckVisible st) (showInitialCards st) (rendered st).
Definition setResultText (v : option js_string) (st : state) : state :=
  mkState (store st) (baseDeck st) (deck st) (seed st) (pickedIds st)
    (topic st) (isInterpreting st) v (errorText st) (isResultOpen st)
    (isDeckVisible st) (showInitialCards st) (rendered st).
Definition setErrorText (v : option js_string) (st : state) : state :=
  mkState (store st) (baseDeck st) (deck st) (seed st) (pickedIds st)
    (topic st) (isInterpreting st) (resultText st) v (isResultOpen st)
    (isDeckVisible st) (showInitialCards st) (rendered st).
Definition setIsResultOpen (v : bool) (st : state) : state :=
  mkState (store st) (baseDeck st) (deck st) (seed st) (pickedIds st)
    (topic st) (isInterpreting st) (resultText st) (errorText st) v
    (isDeckVisible st) (showInitialCards st) (rendered st).
Definition setIsDeckVisible (v : bool) (st : state) : state :=
  mkState (store st) (baseDeck st) (deck st) (seed st) (pickedIds st)
    (topic st) (isInterpreting st) (resultText st) (errorText st)
    (isResultOpen st) v (showInitialCards st) (rendered st).
Definition setShowInitialCards (v : bool) (st : state) : state :=
  mkState (store st) (baseDeck st) (deck st) (seed st) (pickedIds st)
    (topic st) (isInterpreting st) (resultText st) (errorText st)
    (isResultOpen st) (isDeckVisible st) v (rendered st).

(** [setPickedIds((prev) => f(prev))] *)
Definition setPickedIds (f : list js_string -> list js_string) (st : state)
  : state :=
  mkState (store st) (baseDeck st) (deck st) (seed st) (f (pickedIds st))
    (topic st) (isInterpreting st) (resultText st) (errorText st)
    (isResultOpen st) (isDeckVisible st) (showInitialCards st) (rendered st).

(** [useMemo(() => shuffleSeeded(baseDeck, rng), [baseDeck, rng])] with
    [rng = useMemo(() => makeSeededRng(seed), [seed])]: the store and the
    reference of the deck for a seed.  The base deck is always in the
    store, so the second case is never taken. *)
Definition memoDeck (h : heap TarotCard) (b : loc) (s : js_string)
  : heap TarotCard * loc :=
  match shuffleSeeded mulberry32 h b (makeSeededRng s) with
  | Some (h', a, _) => (h', a)
  | None => (h, b)
  end.

(** [setSeed(s)]: a changed seed re-runs the two memo cells on the next
    render; an unchanged one leaves them alone. *)
Definition setSeed (s : js_string) (st : state) : state :=
  if decide (s = seed st) then st
  else
    let '(h, d) := memoDeck (store st) (baseDeck st) s in
    mkState h (baseDeck st) d s (pickedIds st) (topic st)
      (isInterpreting st) (resultText st) (errorText st) (isResultOpen st)
      (isDeckVisible st) (showInitialCards st) (rendered st).

(** The values a render reads from the cells. *)
Definition snapshot (st : state) : view :=
  mkView (deck st) (seed st) (pickedIds st) (topic st) (isInterpreting st)
    (resultText st) (errorText st) (isResultOpen st) (isDeckVisible st)
    (showInitialCards st).

(** A render: the closures and the elements of the component are made
    anew from the cells. *)
Definition render (st : state) : state :=
  mkState (store st) (baseDeck st) (deck st) (seed st) (pickedIds st)
    (topic st) (isInterpreting st) (resultText st) (errorText st)
    (isResultOpen st) (isDeckVisible st) (showInitialCards st) (snapshot st).

(** The component as the last render saw it: what the closures made by
    that render read. *)
Definition seen (st : state) : state :=
  let v := rendered st in
  mkState (store st) (baseDeck st) (seen_deck v) (seen_seed v)
    (seen_pickedIds v) (seen_topic v) (seen_isInterpreting v)
    (seen_resultText v) (seen_errorText v) (seen_isResultOpen v)
    (seen_isDeckVisible v) (seen_showInitialCards v) v.

(** The first render; [s0] is what [randomSeedString()] returned. *)
Definition mount (s0 : js_string) : state :=
  let '(h, b) := alloc ∅ baseDeckArray in
  let '(h, d) := memoDeck h b s0 in
  mkState h b d s0 [] [] false None None false false true
    (mkView d s0 [] [] false None None false false true).

(** The cards of [deck], in order. *)
Definition deckCards (st : state) : list (option TarotCard) :=
  match store st !! deck st with
  | Some A => items A
  | None => []
  end.

Definition pickedSet (st : state) : gset js_string :=
  list_to_set (pickedIds st).

(** [pickedIds.map((id) => map.get(id)).filter(Boolean).map(...)] *)
Definition pickedCards (st : state) : option (list PickedCard) :=
  match deckMap (deckCards st) with
  | Some m =>
      Some (omap (fun i =>
                    match m !! i with
                    | Some c => Some (mkPicked c (isReversed (seed st) (id c)))
                    | None => None
                    end) (pickedIds st))
  | None => None
  end.

Definition canPickMore (st : state) : bool :=
  bool_decide (length (pickedIds st) < drawCount)%nat.

(** [pick(cardId)]: the two tests read [pickedSet] and [canPickMore] of
    the render that made the closure; the update is applied to the list
    as the earlier updates left it. *)
Definition pick (cardId : js_string) (st : state) : state :=
  if decide (cardId ∈ pickedSet (seen st)) then st
  else if negb (canPickMore (seen st)) then st
  else setPickedIds (fun prev => prev ++ [cardId]) st.

(** [newSeed()], with [s] what [randomSeedString()] returned. *)
Definition newSeed (s : js_string) (st : state) : state :=
  setShowInitialCards false
    (setErrorText None
       (setResultText None
          (setIsResultOpen false
             (setIsDeckVisible true
                (setPickedIds (fun _ => []) (setSeed s st)))))).

Definition canInterpret (st : state) : bool :=
  (0 <? js_length (trim (topic st))) &&
  match pickedCards st with
  | Some l => bool_decide (length l = drawCount)
  | None => false
  end.

(** *** Events and handlers of the component *)

(** What the result panel shows ([errorText ? ... : resultText ? ... :
    placeholder]), when it is open. *)
Inductive display :=
| Hidden
| ShowError (e : js_string)
| ShowResult (t : js_string)
| Placeholder.

Definition shown (st : state) : display :=
  if isResultOpen st then
    match errorText st with
    | Some (c :: e) => ShowError (c :: e)
    | _ =>
        match resultText st with
        | Some (c :: t) => ShowResult (c :: t)
        | _ => Placeholder
        end
    end
  else Hidden.

Record request := mkRequest {
  req_prompt : js_string;
  req_provider : js_string
}.

(** The parsed body of a response of the endpoint. *)
Record api_data := mkData {
  data_text : option js_string;
  data_error : option js_string
}.

(** What [await fetch(...)] gives the client: a rejection, or a response
    with its status, its body as text ([None] when reading it fails) and
    its body parsed as JSON. *)
Inductive fetch_outcome :=
| FetchRejected (e : thrown)
| FetchResponse (status : Z) (bodyText : option js_string)
    (json : thrown + api_data).

Definition provider : js_string := str "gemini".

Definition cardLines (l : list PickedCard) : js_string :=
  join newline
    (imap (fun idx p =>
             num_to_string (idx + 1) ++ str ". " ++ name (card p) ++
             (if reversed p then str " (역위)" else str " (정위)")) l).

Definition prompt (topic lines : js_string) : js_string :=
  str "당신은 전문 타로 리더입니다." ++ newline ++ newline ++
  str "주제: " ++ trim topic ++ newline ++
  str "스프레드: " ++ num_to_string drawCount ++ str "장" ++ newline ++
  str "카드 목록:" ++ newline ++ lines ++ newline ++ newline ++
  str "요청 사항:" ++ newline ++
  str "- 3~5개의 소제목으로 나눠 설명" ++ newline ++
  str "- 핵심 조언을 마지막에 3가지 bullet로 제시" ++ newline ++
  str "- 과장되거나 단정적인 표현은 피하고, 현실적인 톤 유지" ++ newline ++
  str "- 한국어로 답변".

(** [interpret()] up to its [await fetch]: the state it leaves and the
    request it sends, if it sends one.  [topic], [canInterpret] and
    [pickedCards] are those of the render that made the closure. *)
Definition interpretBegin (st : state) : state * option request :=
  let v := seen st in
  if js_length (trim (topic v)) =? 0 then (st, None)
  else if negb (canInterpret v) then (st, None)
  else
    match pickedCards v with
    | Some l =>
        (setResultText None
           (setErrorText None
              (setIsInterpreting true (setIsResultOpen false st))),
         Some (mkRequest (prompt (topic v) (cardLines l)) provider))
    | None => (st, None)
    end.

(** The [catch] and [finally] blocks. *)
Definition interpretFail (message : js_string) (st : state) : state :=
  setIsInterpreting false
    (setIsResultOpen true (setErrorText (Some message) st)).

(** [interpret()] from the answer of [fetch] on.  Once the text is
    recorded, the reading is written to the history of the signed-in
    user, still inside the [try] block: [history] is what that write
    ([collection], [addDoc]) throws before it returns, if it throws;
    it is [None] when nobody is signed in or the write is under way. *)
Definition interpretEnd (r : fetch_outcome) (history : option thrown)
    (st : state) : state :=
  match r with
  | FetchRejected e => interpretFail (message_or_unknown e) st
  | FetchResponse status bodyText json =>
      if negb ((200 <=? status) && (status <=? 299)) then
        interpretFail
          (str "AI 요청 실패: " ++ num_to_string (Z.to_nat status) ++
           str " " ++ default [] bodyText) st
      else
        match json with
        | inl e => interpretFail (message_or_unknown e) st
        | inr data =>
            let text := default [] (data_text data) in
            if negb (truthy text) then
              interpretFail
                (default (str "응답 텍스트를 찾을 수 없습니다.")
                   (data_error data)) st
            else
              let st := setIsResultOpen true (setResultText (Some (trim text)) st) in
              match history with
              | Some e => interpretFail (message_or_unknown e) st
              | None => setIsInterpreting false st
              end
        end
  end.

(** The button of the result page that starts over.  Its handler is a
    sequence of calls; each call names its callee and the identifiers
    its argument mentions, and carries the argument's value. *)
Inductive arg :=
| ABool (b : bool)
| AText (s : js_string)
| AList (l : list js_string)
| ANum (n : Z)
| ASet.

Record call := mkCall {
  callee : string;
  mentions : list string;
  argument : arg
}.

Inductive outcome :=
| Completed
| ReferenceError (ident : string).

(** The setters [useState] binds in the component, by name. *)
Definition setters : list (string * (arg -> state -> state)) :=
  [ ("setTopic",
      fun a => match a with AText s => setTopic s | _ => fun st => st end);
    ("setIsInterpreting",
      fun a => match a with ABool b => setIsInterpreting b | _ => fun st => st end);
    ("setResultText",
      fun a => match a with AText s => setResultText (Some s) | _ => fun st => st end);
    ("setErrorText",
      fun a => match a with AText s => setErrorText (Some s) | _ => fun st => st end);
    ("setIsResultOpen",
      fun a => match a with ABool b => setIsResultOpen b | _ => fun st => st end);
    ("setIsDeckVisible",
      fun a => match a with ABool b => setIsDeckVisible b | _ => fun st => st end);
    ("setShowInitialCards",
      fun a => match a with ABool b => setShowInitialCards b | _ => fun st => st end);
    ("setSeed",
      fun a => match a with AText s => setSeed s | _ => fun st => st end);
    ("setPickedIds",
      fun a => match a with AList l => setPickedIds (fun _ => l) | _ => fun st => st end)
  ]%string.

(** Every identifier bound where the handler is written: the
    component's constants and functions, the declarations and imports
    of its module, and the globals. *)
Definition scope : list string :=
  [ "topic"; "setTopic"; "provider"; "isInterpreting"; "setIsInterpreting";
    "resultText"; "setResultText"; "errorText"; "setErrorText";
    "isResultOpen"; "setIsResultOpen"; "isDeckVisible"; "setIsDeckVisible";
    "isDeckAnimating"; "setIsDeckAnimating"; "topicInputRef";
    "showInitialCards"; "setShowInitialCards"; "baseDeck"; "drawCount";
    "seed"; "setSeed"; "rng"; "deck"; "pickedIds"; "setPickedIds";
    "pickedSet"; "isReversed"; "pickedCards"; "canPickMore"; "pick";
    "newSeed"; "canInterpret"; "escapeHtml"; "handlePrint"; "interpret";
    "React"; "useEffect"; "useMemo"; "useRef"; "useState"; "ReactMarkdown";
    "addDoc"; "collection"; "serverTimestamp"; "auth"; "db";
    "buildTarotDeck78"; "xmur3"; "mulberry32"; "makeSeededRng";
    "randomSeedString"; "shuffleSeeded"; "uiBtn"; "getCardImageUrl";
    "splitMarkdownSections"; "Slot"; "GridCard"; "TarotSpreadPick";
    "Set"; "Map"; "Math"; "Array"; "Date"; "Error"; "JSON"; "crypto";
    "window"; "fetch"; "requestAnimationFrame"; "cancelAnimationFrame"
  ]%string.

(** A call resolves its callee, then evaluates its argument, then runs
    the callee; an identifier that is not bound throws. *)
Fixpoint run (body : list call) (st : state) : state * outcome :=
  match body with
  | [] => (st, Completed)
  | c :: rest =>
      match List.find (fun x => negb (bool_decide (x ∈ scope)))
                      (callee c :: mentions c) with
      | Some x => (st, ReferenceError x)
      | None =>
          match List.find (fun b => String.eqb (fst b) (callee c)) setters with
          | Some (_, f) => run rest (f (argument c) st)
          | None => run rest st
          end
      end
  end.

(** The body of the handler, with [s] what [randomSeedString()] returns. *)
Definition fullResetBody (s : js_string) : list call :=
  [ mkCall "setIsResultOpen" [] (ABool false);
    mkCall "setPickedIds" [] (AList []);
    mkCall "setPickedSet" ["Set"] ASet;
    mkCall "setPickedCards" [] (AList []);
    mkCall "setResultText" [] (AText []);
    mkCall "setErrorText" [] (AText []);
    mkCall "setTopic" [] (AText []);
    mkCall "setShowInitialCards" [] (ABool true);
    mkCall "setIsDeckVisible" [] (ABool false);
    mkCall "setIsInterpreting" [] (ABool false);
    mkCall "setCanInterpret" [] (ABool false);
    mkCall "setDrawCount" [] (ANum 5);
    mkCall "setSeed" ["randomSeedString"] (AText s)
  ]%string.

Definition fullReset (s : js_string) (st : state) : state * outcome :=
  run (fullResetBody s) st.

(** What can happen to a mounted component: a handler runs for a user
    event or for the completion of a request, or the component is
    rendered again.  The updates of a handler are applied to the cells
    in the order of the calls; the closures of the next handler are
    those of the last render, and more than one handler can run before
    the component is rendered again (when their events are dispatched
    in one task, the updates are batched).  A handler that throws keeps
    the updates it queued before throwing. *)
Inductive event :=
| TypeTopic (v : js_string)
| Pick (cardId : js_string)
| NewSeed (s : js_string)
| CloseResult
| FullReset (s : js_string)
| InterpretClick
| InterpretAnswer (r : fetch_outcome) (history : option thrown)
| Render.

Definition step (e : event) (st : state) : state :=
  match e with
  | TypeTopic v => setTopic v st
  | Pick cardId => pick cardId st
  | NewSeed s => newSeed s st
  | CloseResult => setIsResultOpen false st
  | FullReset s => fst (fullReset s st)
  | InterpretClick => fst (interpretBegin st)
  | InterpretAnswer r history => interpretEnd r history st
  | Render => render st
  end.

Inductive reachable : state -> Prop :=
| reachable_mount s0 : reachable (mount s0)
| reachable_step e st : reachable st -> reachable (step e st).

End Spread.

(** An event and the render that follows it. *)
Definition act (e : Spread.event) (st : Spread.state) : Spread.state :=
  Spread.render (Spread.step e st).

(** A component in which a deck was shuffled and shown; a concrete
    input. *)
Definition sample_dealt : Spread.state :=
  act (Spread.NewSeed sample_seed) (Spread.mount (str "seed")).

(** One in which a card was then picked. *)
Definition sample_picking : Spread.state :=
  act (Spread.Pick (str "M-7")) sample_dealt.

(** One with five cards picked, one click after the other, and a topic
    typed. *)
Definition sample_reading : Spread.state :=
  act (Spread.TypeTopic (str " Should I change jobs? "))
    (act (Spread.Pick (str "m-Cups-Queen"))
       (act (Spread.Pick (str "M-13"))
          (act (Spread.Pick (str "m-Wands-10"))
             (act (Spread.Pick (str "M-0")) sample_picking)))).



(** ** The HTTP functions ([functions/index.js]) *)

Module Functions.

(** The body of a response: nothing ([send("")]), [{error}], [{admin}]
    or [{text}]. *)
Inductive payload :=
| Empty
| ErrorBody (error : js_string)
| AdminBody (admin : bool)
| TextBody (text : js_string).

Record response := mkResponse {
  status : Z;
  body : payload
}.

(** In the words of the specification: a response is a [{text}] object,
    sent with status 200 and a text that is not empty, or an [{error}]
    object with a 4xx or 5xx status (400, 405 or 500 here). *)
Definition well_formed (r : response) : Prop :=
  (exists t, r = mkResponse 200 (TextBody t) /\ t <> []) \/
  (exists m, body r = ErrorBody m /\
             (status r = 400 \/ status r = 405 \/ status r = 500)).

(** [res.json(p)] without a status set before it. *)
Definition json_ok (p : payload) : response := mkResponse 200 p.

(** [a || b] on values that are strings or missing. *)
Definition or_else (a b : option js_string) : option js_string :=
  match a with
  | Some (c :: s) => Some (c :: s)
  | _ => b
  end.

(** *** Admin claims *)

(** The token a successful [verifyIdToken] decodes to. *)
Record decoded := mkDecoded {
  uid : js_string;
  email : option js_string
}.

(** The authentication service: what verifying a token gives, and whether
    writing the claims of a user fails. *)
Record auth_service := mkAuth {
  verifyIdToken : js_string -> thrown + decoded;
  setCustomUserClaims_error : js_string -> option thrown
}.

Record sync_request := mkSyncRequest {
  sync_method : js_string;
  authorization : option js_string
}.

Section Admin.
(** [String.prototype.toLowerCase] of the platform. *)
Variable toLowerCase : js_string -> js_string.

(** The value of the [ADMIN_EMAILS] parameter. *)
Variable ADMIN_EMAILS : js_string.

Definition getAdminEmailList : list js_string :=
  List.filter truthy
    (map (fun email => toLowerCase (trim email))
       (split 44 (default [] (or_else (Some ADMIN_EMAILS) (Some []))))).

Definition isAdminEmail (email : js_string) : bool :=
  if negb (truthy email) then false
  else bool_decide (toLowerCase email ∈ getAdminEmailList).

(** In the words of the specification: the email, compared without
    regard to case, is one of the comma-separated entries of the
    allowlist, each trimmed and lower-cased, the empty ones dropped. *)
Definition allowlisted (email : js_string) : Prop :=
  exists entry,
    entry ∈ split 44 ADMIN_EMAILS /\
    toLowerCase (trim entry) <> [] /\
    toLowerCase email = toLowerCase (trim entry).

(** [syncAdminClaims]: the response, and the admin claim of every user
    after the request ([users] maps a uid to its [admin] claim). *)
Definition syncAdminClaims (svc : auth_service) (req : sync_request)
    (users : gmap js_string bool) : response * gmap js_string bool :=
  if decide (sync_method req = str "OPTIONS") then
    (mkResponse 204 Empty, users)
  else if decide (sync_method req <> str "POST") then
    (mkResponse 405 (ErrorBody (str "Method Not Allowed")), users)
  else
    let authHeader := default [] (or_else (authorization req) (Some [])) in
    let token :=
      if startsWith authHeader (str "Bearer ") then drop 7 authHeader
      else [] in
    if negb (truthy token) then
      (mkResponse 401 (ErrorBody (str "Missing auth token")), users)
    else
      match verifyIdToken svc token with
      | inl err => (mkResponse 401 (ErrorBody (message_or_unknown err)), users)
      | inr d =>
          let email := default [] (or_else (email d) (Some [])) in
          let shouldBeAdmin := isAdminEmail email in
          match setCustomUserClaims_error svc (uid d) with
          | Some err =>
              (mkResponse 401 (ErrorBody (message_or_unknown err)), users)
          | None =>
              (json_ok (AdminBody shouldBeAdmin),
               <[uid d := shouldBeAdmin]> users)
          end
      end.

End Admin.

(** Lower-casing of the letters [A]-[Z]: what [toLowerCase] does on ASCII
    text. *)
Definition ascii_toLowerCase (s : js_string) : js_string :=
  map (fun c => if (65 <=? c) && (c <=? 90) then c + 32 else c) s.

(** *** The interpretation endpoint *)

Inductive jsval :=
| VUndefined
| VNull
| VBool (b : bool)
| VNumber (q : Q)
| VString (s : js_string)
| VObject.

(** [v === s] for a string [s]. *)
Definition is_string (v : jsval) (s : js_string) : bool :=
  match v with
  | VString s' => bool_decide (s' = s)
  | _ => false
  end.

(** The fields the handler reads off [req.body]. *)
Record interpret_body := mkBody {
  prompt : jsval;
  provider : jsval
}.

Record interpret_request := mkInterpretRequest {
  method : js_string;
  req_body : option interpret_body
}.

Record environment := mkEnv {
  GOOGLE_CLOUD_PROJECT : option js_string;
  GCLOUD_PROJECT : option js_string;
  GCP_PROJECT : option js_string;
  VERTEX_AI_LOCATION : option js_string;
  OPENAI_API_KEY : option js_string;
  OPENAI_MODEL : option js_string;
  VERTEX_AI_MODEL : option js_string
}.

(** The OpenAI side: an element of an output item's [content], the parsed
    body of a response, and what [fetch] gives. *)
Record openai_content := mkContent {
  content_type : option js_string;
  content_text : option js_string
}.

Record openai_data := mkOpenAIData {
  output_text : option js_string;
  output : option (list (option (list openai_content)))
}.

Inductive openai_result :=
| OpenAIRejected (e : thrown)
| OpenAIResponse (ok : bool) (http_status : Z) (text : option js_string)
    (json : thrown + openai_data).

(** The Vertex AI side: the candidates of a result, each with the text
    of its parts when it has any. *)
Definition vertex_result : Type := list (option (list (option js_string))).

(** The two backends: the answer to a request to OpenAI (key, model,
    input), and the outcome of the [n]-th [generateContent] call
    (project, location, model, prompt). *)
Record backends := mkBackends {
  openai : js_string -> js_string -> js_string -> openai_result;
  generateContent :
    nat -> js_string -> js_string -> js_string -> js_string ->
    thrown + vertex_result
}.

Definition openai_output (d : openai_data) : js_string :=
  match output_text d with
  | Some t => t
  | None =>
      match output d with
      | Some items =>
          join newline
            (map (fun c => default [] (content_text c))
               (List.filter
                  (fun c => bool_decide (content_type c = Some (str "output_text")))
                  (flat_map (fun o => default [] o) items)))
      | None => []
      end
  end.

Definition vertex_output (r : vertex_result) : js_string :=
  trim (join []
          (map (fun p => default [] p) (flat_map (fun c => default [] c) r))).

Definition modelCandidates (e : environment) : list js_string :=
  let modelEnv := default [] (or_else (VERTEX_AI_MODEL e) (Some [])) in
  List.filter truthy (map trim (split 44 modelEnv)) ++
  [ str "gemini-1.5-flash-002"; str "gemini-1.5-flash-001";
    str "gemini-2.0-flash" ].

(** The loop over the candidate models, from the [n]-th call on, with
    the variables [outputText] and [lastError]; [inl] when an error is
    thrown on. *)
Fixpoint tryModels (gen : nat -> js_string -> thrown + vertex_result)
    (n : nat) (models : list js_string)
    (outputText : js_string) (lastError : option thrown)
  : thrown + (js_string * option thrown) :=
  match models with
  | [] => inr (outputText, lastError)
  | modelName :: rest =>
      match gen n modelName with
      | inr result =>
          let outputText := vertex_output result in
          if truthy outputText then inr (outputText, lastError)
          else tryModels gen (S n) rest outputText lastError
      | inl err =>
          let lastError := Some err in
          let message :=
            match err with ErrorObj m => m | NonError s => s end in
          if negb (includes message (str "404")) &&
             negb (includes message (str "NOT_FOUND"))
          then inl err
          else tryModels gen (S n) rest outputText lastError
      end
  end.

Definition server_error (message : js_string) : response :=
  mkResponse 500 (ErrorBody message).

(** [GOOGLE_CLOUD_PROJECT || GCLOUD_PROJECT || GCP_PROJECT] *)
Definition project (e : environment) : option js_string :=
  or_else (GOOGLE_CLOUD_PROJECT e) (or_else (GCLOUD_PROJECT e) (GCP_PROJECT e)).

(** [VERTEX_AI_LOCATION || "us-central1"] *)
Definition location (e : environment) : js_string :=
  default [] (or_else (VERTEX_AI_LOCATION e) (Some (str "us-central1"))).

(** [const { prompt, provider } = req.body ?? {}] *)
Definition fields (req : interpret_request) : jsval * jsval :=
  match req_body req with
  | Some bd => (prompt bd, provider bd)
  | None => (VUndefined, VUndefined)
  end.

Definition interpret (e : environment) (b : backends)
    (req : interpret_request) : response :=
  if decide (method req <> str "POST") then
    mkResponse 405 (ErrorBody (str "Method Not Allowed"))
  else
    match project e with
    | Some (c :: p) =>
        let project := c :: p in
        let '(prompt, provider) := fields req in
        match prompt with
        | VString (c :: s) =>
            let prompt := c :: s in
            if is_string provider (str "openai") then
              match OPENAI_API_KEY e with
              | Some (k :: ey) =>
                  let apiKey := k :: ey in
                  let model :=
                    default []
                      (or_else (OPENAI_MODEL e) (Some (str "gpt-4o-mini"))) in
                  match openai b apiKey model prompt with
                  | OpenAIRejected err => server_error (message_or_unknown err)
                  | OpenAIResponse ok st text json =>
                      if negb ok then
                        server_error
                          (str "OpenAI request failed: " ++
                           num_to_string (Z.to_nat st) ++ str " " ++
                           default [] text)
                      else
                        match json with
                        | inl err => server_error (message_or_unknown err)
                        | inr data =>
                            let outputText := openai_output data in
                            if negb (truthy outputText) then
                              server_error (str "No output_text in response")
                            else json_ok (TextBody outputText)
                        end
                  end
              | _ => server_error (str "OPENAI_API_KEY is not set")
              end
            else
              match tryModels
                      (fun n m => generateContent b n project (location e) m prompt)
                      0 (modelCandidates e) [] None with
              | inl err => server_error (message_or_unknown err)
              | inr (outputText, lastError) =>
                  if negb (truthy outputText) then
                    server_error
                      match lastError with
                      | Some (ErrorObj m) => m
                      | _ => str "No output_text in response"
                      end
                  else json_ok (TextBody outputText)
              end
        | _ => mkResponse 400 (ErrorBody (str "Invalid prompt"))
        end
    | _ => server_error (str "GCP project is not set")
    end.

(** More concrete inputs: a function with no environment variable set,
    one with a project, backends that always throw, a backend that
    answers with a text between blanks, and a POST without a body. *)
Definition bare_environment : environment :=
  mkEnv None None None None None None None.

Definition sample_environment : environment :=
  mkEnv None (Some (str "ogitarot")) None None None None None.

Definition failing_backends : backends :=
  mkBackends
    (fun _ _ _ => OpenAIRejected (ErrorObj (str "fetch failed")))
    (fun _ _ _ _ _ => inl (ErrorObj (str "503 Service Unavailable"))).

Definition padded_backends : backends :=
  mkBackends
    (fun _ _ _ => OpenAIRejected (ErrorObj (str "fetch failed")))
    (fun _ _ _ _ _ => inr [Some [Some (str " The Fool ")]]).

Definition post_without_body : interpret_request :=
  mkInterpretRequest (str "POST") None.

(** A service that accepts one token, for the user [u1] whose email is
    spelt with capitals; a concrete input. *)
Definition sample_auth : auth_service :=
  mkAuth
    (fun token =>
       if decide (token = str "t0k3n") then
         inr (mkDecoded (str "u1") (Some (str "Boss@Example.COM")))
       else inl (ErrorObj (str "invalid token")))
    (fun _ => None).

End Functions.

(** ** The client and the endpoint together

    What the component receives when its request is answered by the
    endpoint: the status, the serialised body and the parsed body.  The
    serialisation of a body ([wire]) is done by the HTTP framework. *)

Section EndToEnd.
Variable wire : Functions.payload -> js_string.

Definition data_of (p : Functions.payload) : Spread.api_data :=
  match p with
  | Functions.TextBody t => Spread.mkData (Some t) None
  | Functions.ErrorBody m => Spread.mkData None (Some m)
  | _ => Spread.mkData None None
  end.

Definition deliver (r : Functions.response) : Spread.fetch_outcome :=
  Spread.FetchResponse (Functions.status r) (Some (wire (Functions.body r)))
    (inr (data_of (Functions.body r))).

Definition post (rq : Spread.request) : Functions.interpret_request :=
  Functions.mkInterpretRequest (str "POST")
    (Some (Functions.mkBody (Functions.VString (Spread.req_prompt rq))
                            (Functions.VString (Spread.req_provider rq)))).

(** A click on the interpretation button followed by the endpoint's
    answer; [history] is what the history write throws, if it does. *)
Definition consult (e : Functions.environment) (b : Functions.backends)
    (history : option thrown) (st : Spread.state) : Spread.state :=
  match Spread.interpretBegin st with
  | (st', Some rq) =>
      Spread.interpretEnd (deliver (Functions.interpret e b (post rq)))
        history st'
  | (st', None) => st'
  end.

End EndToEnd.

(** The request a click on the interpretation button sends from
    [sample_reading], and a serialisation that keeps the message of an
    error only; concrete inputs. *)
Definition sample_request : Spread.request :=
  match Spread.interpretBegin sample_reading with
  | (_, Some rq) => rq
  | (_, None) => Spread.mkRequest [] []
  end.

Definition sample_wire (p : Functions.payload) : js_string :=
  match p with
  | Functions.ErrorBody m => m
  | Functions.TextBody t => t
  | _ => []
  end.

(** * Further code

    ** The component file: what a render offers *)

(** The order in which [shuffleSeeded] leaves the base deck for a seed:
    what the loop makes of a copy of the base deck. *)
Definition shuffled (seed : js_string) : list (option TarotCard) :=
  items (loop_array mulberry32 (Z.to_nat (len (spread baseDeckArray) - 1))
           (spread baseDeckArray, makeSeededRng seed)).1.

(** The events the elements of the last render let happen.  The topic
    input is always there.  The shuffle button is rendered while no card
    is picked.  The grid is rendered while the deck is visible and the
    result panel closed; the card of an id is a button there unless it
    is selected, and the button is enabled while more cards can be
    picked.  The interpretation button is rendered when the deck is
    visible and [canInterpret] holds, and disabled while a request is
    pending.  The buttons of the result panel are rendered while it is
    open.  An answer arrives only for a pending request. *)
Definition offered (e : Spread.event) (st : Spread.state) : Prop :=
  let v := Spread.seen st in
  match e with
  | Spread.TypeTopic _ => True
  | Spread.Pick cardId =>
      Spread.isDeckVisible v = true /\
      Spread.isResultOpen v = false /\
      (exists c, Some c ∈ Spread.deckCards v /\ id c = cardId) /\
      (cardId ∉ Spread.pickedIds v) /\
      Spread.canPickMore v = true
  | Spread.NewSeed _ => Spread.pickedIds v = []
  | Spread.CloseResult => Spread.isResultOpen v = true
  | Spread.FullReset _ => Spread.isResultOpen v = true
  | Spread.InterpretClick =>
      Spread.isDeckVisible v = true /\
      Spread.canInterpret v = true /\
      Spread.isInterpreting v = false
  | Spread.InterpretAnswer _ _ => Spread.isInterpreting st = true
  | Spread.Render => True
  end.

(** The start-over button of the result page. *)
Definition is_reset (e : Spread.event) : bool :=
  match e with Spread.FullReset _ => true | _ => false end.

(** The states reached through the rendered elements when the component
    is rendered again after every event, as it is between two separate
    user events; [allowed] tells which events are considered. *)
Inductive ui_reachable_by (allowed : Spread.event -> bool)
  : Spread.state -> Prop :=
| ui_mount s0 : ui_reachable_by allowed (Spread.mount s0)
| ui_step e st :
    ui_reachable_by allowed st -> allowed e = true -> offered e st ->
    ui_reachable_by allowed (act e st).

Definition ui_reachable : Spread.state -> Prop :=
  ui_reachable_by (fun _ => true).

(** The same, as long as the start-over button is not used. *)
Definition ui_reachable_before_reset : Spread.state -> Prop :=
  ui_reachable_by (fun e => negb (is_reset e)).

(** A generator that always answers 1/2; a concrete input. *)
Definition half_rng (n : Z) : number * Z := (Num (1 # 2), n + 1).

(** A component in which the deck was shuffled and a topic typed,
    through the elements it renders; a concrete input. *)
Definition sample_shuffled : Spread.state :=
  act (Spread.TypeTopic (str "What next?")) sample_dealt.

(** ** The component file: text helpers *)

(** [s.replaceAll(c, rep)] for a pattern [c] of one code unit. *)
Definition replaceAll (c : Z) (rep : js_string) (s : js_string) : js_string :=
  flat_map (fun x => if decide (x = c) then rep else [x]) s.

(** [escapeHtml]: the ampersands first, then the two angle brackets. *)
Definition escapeHtml (text : js_string) : js_string :=
  replaceAll 62 (str "&gt;")
    (replaceAll 60 (str "&lt;")
       (replaceAll 38 (str "&amp;") text)).

(** What [escapeHtml] writes for one code unit. *)
Definition escape_unit (c : Z) : js_string :=
  if decide (c = 38) then str "&amp;"
  else if decide (c = 60) then str "&lt;"
  else if decide (c = 62) then str "&gt;"
  else [c].

(** [s.split(/\r?\n/)]: a line feed ends a line, together with a
    carriage return right before it. *)
Fixpoint splitLines (s : js_string) : list js_string :=
  match s with
  | [] => [[]]
  | c :: s' =>
      if decide (c = 10) then [] :: splitLines s'
      else
        match s' with
        | d :: s'' =>
            if decide (c = 13 /\ d = 10) then [] :: splitLines s''
            else match splitLines s' with
                 | [] => [[c]]
                 | w :: ws => (c :: w) :: ws
                 end
        | [] => [[c]]
        end
  end.

(** The longest prefix of code units satisfying [p], and the rest. *)
Fixpoint span (p : Z -> bool) (s : js_string) : js_string * js_string :=
  match s with
  | [] => ([], [])
  | c :: s' =>
      if p c then let '(a, b) := span p s' in (c :: a, b)
      else ([], s)
  end.

(** The code units [.] does not match. *)
Definition is_line_terminator (c : Z) : bool :=
  bool_decide (c ∈ [10; 13; 8232; 8233]).

(** The match of a line against the heading expression (start of
    input, [##+], [\s+], a group of any number of [.], end of input):
    the group, if the line matches.  The line must start with two or
    more [#], go on with
    white space and, after all the white space there is, hold no line
    terminator up to its end; giving back part of a greedy match never
    helps this expression. *)
Definition headingMatch (line : js_string) : option js_string :=
  let '(hashes, rest) := span (fun c => c =? 35) line in
  if (2 <=? length hashes)%nat then
    let '(blank, rest) := span is_space rest in
    if truthy blank && forallb (fun c => negb (is_line_terminator c)) rest
    then Some rest
    else None
  else None.

Record section := mkSection {
  title : js_string;
  content : js_string
}.

Definition default_title : js_string := str "결과".

(** The state of [splitMarkdownSections]: [sections], [currentTitle]
    and [buffer]. *)
Definition split_state : Type := list section * js_string * list js_string.

Definition pushSection (st : split_state) : split_state :=
  let '(sections, currentTitle, buffer) := st in
  if negb (truthy currentTitle) && (length buffer =? 0)%nat then st
  else
    (sections ++
       [mkSection (if truthy currentTitle then currentTitle else default_title)
          (trim (join newline buffer))],
     currentTitle, []).

(** One turn of the loop over the lines. *)
Definition split_step (st : split_state) (line : js_string) : split_state :=
  match headingMatch line with
  | Some group =>
      let '(sections, _, buffer) := pushSection st in
      (sections,
       (if truthy (trim group) then trim group else default_title),
       buffer)
  | None =>
      let '(sections, currentTitle, buffer) := st in
      (sections, currentTitle, buffer ++ [line])
  end.

Definition splitMarkdownSections (markdown : js_string) : list section :=
  let lines := splitLines markdown in
  let '(sections, _, _) := pushSection (foldl split_step ([], [], []) lines) in
  if (length sections =? 0)%nat then
    [mkSection default_title (trim markdown)]
  else
    map (fun s =>
           mkSection (title s)
             (if truthy (content s) then content s else str "(내용 없음)"))
      sections.

(** The title a line gives the section it opens, if it is a heading. *)
Definition heading_title (line : js_string) : option js_string :=
  match headingMatch line with
  | Some group => Some (if truthy (trim group) then trim group else default_title)
  | None => None
  end.

(** ** [functions/index.js]: the trigger on new users *)

(** The user record the trigger receives. *)
Record new_user := mkUser {
  user_uid : js_string;
  user_email : option js_string
}.

(** [onUserCreatedSetAdmin]: the admin claims after the trigger ran, and
    the error it ended with when writing the claim failed. *)
Definition onUserCreatedSetAdmin
    (toLowerCase : js_string -> js_string) (ADMIN_EMAILS : js_string)
    (svc : Functions.auth_service) (user : new_user)
    (users : gmap js_string bool) : gmap js_string bool * option thrown :=
  match user_email user with
  | Some (c :: e) =>
      if negb (Functions.isAdminEmail toLowerCase ADMIN_EMAILS (c :: e))
      then (users, None)
      else
        match Functions.setCustomUserClaims_error svc (user_uid user) with
        | Some err => (users, Some err)
        | None => (<[user_uid user := true]> users, None)
        end
  | _ => (users, None)
  end.

(** A sync request as the client sends it for a token. *)
Definition sync_post (token : js_string) : Functions.sync_request :=
  Functions.mkSyncRequest (str "POST") (Some (str "Bearer " ++ token)).

(** ** [functions/index.js]: the loop over the candidate models *)

(** An attempt the loop passes over: a result whose text is empty, or an
    error whose message mentions [404] or [NOT_FOUND]. *)
Definition passed_over (o : thrown + Functions.vertex_result) : bool :=
  match o with
  | inr result => negb (truthy (Functions.vertex_output result))
  | inl err =>
      let message := match err with ErrorObj m => m | NonError s => s end in
      includes message (str "404") || includes message (str "NOT_FOUND")
  end.

(** A POST of a prompt for the given provider. *)
Definition prompt_request (prompt provider : js_string)
  : Functions.interpret_request :=
  Functions.mkInterpretRequest (str "POST")
    (Some (Functions.mkBody (Functions.VString prompt)
                            (Functions.VString provider))).

(** More concrete inputs: a backend whose first model is unknown and
    whose second answers, and one whose first call fails for good. *)
Definition fallback_backends : Functions.backends :=
  Functions.mkBackends
    (fun _ _ _ => Functions.OpenAIRejected (ErrorObj (str "fetch failed")))
    (fun n _ _ _ _ =>
       match n with
       | O => inl (ErrorObj (str "[404 Not Found] model is not available"))
       | _ => inr [Some [Some (str "The Tower"); None; Some (str " falls ")]]
       end).

Definition broken_backends : Functions.backends :=
  Functions.mkBackends
    (fun _ _ _ => Functions.OpenAIRejected (ErrorObj (str "fetch failed")))
    (fun n _ _ _ _ =>
       match n with
       | O => inl (ErrorObj (str "PERMISSION_DENIED"))
       | _ => inr [Some [Some (str "The Tower")]]
       end).

(** An environment with a project and an OpenAI key, and a backend
    whose OpenAI answer has an empty [output_text] beside an [output]
    array that holds text; concrete inputs. *)
Definition keyed_environment : Functions.environment :=
  Functions.mkEnv None (Some (str "ogitarot")) None None
    (Some (str "sk-test")) None None.

Definition empty_text_backends : Functions.backends :=
  Functions.mkBackends
    (fun _ _ _ =>
       Functions.OpenAIResponse true 200 None
         (inr (Functions.mkOpenAIData (Some [])
                 (Some [Some [Functions.mkContent (Some (str "output_text"))
                                (Some (str "The Star"))]]))))
    (fun _ _ _ _ _ => inl (ErrorObj (str "503 Service Unavailable"))).

(** ** The application shell ([src/App.tsx], [AppShell])

    The admin flag of the shell and the three functions that set it.
    Firebase and the network are given by what their calls return: the
    signed-in user, the ID token [getIdToken(user, true)] gives, the
    [admin] claim ([result.claims?.admin]) of the token the [n]-th call
    of [getIdTokenResult(user, true)] gives, and the answer to the sync
    request.  Both [getIdToken(user, true)] and
    [getIdTokenResult(user, true)] force a refresh of the token; the
    counter the functions thread counts the calls of
    [getIdTokenResult] only. *)

Module AppShell.

Record state := mkState {
  userEmail : option js_string;
  isAdmin : bool;
  isSyncingAdmin : bool
}.

Definition setUserEmail (v : option js_string) (st : state) : state :=
  mkState v (isAdmin st) (isSyncingAdmin st).
Definition setIsAdmin (v : bool) (st : state) : state :=
  mkState (userEmail st) v (isSyncingAdmin st).
Definition setIsSyncingAdmin (v : bool) (st : state) : state :=
  mkState (userEmail st) (isAdmin st) v.

(** [Boolean(v)] *)
Definition Boolean (v : Functions.jsval) : bool :=
  match v with
  | Functions.VUndefined | Functions.VNull => false
  | Functions.VBool b => b
  | Functions.VNumber q => negb (Qeq_bool q 0)
  | Functions.VString s => truthy s
  | Functions.VObject => true
  end.

(** The parsed body of the answer to the sync request, and the answer. *)
Record sync_data := mkSyncData { admin : Functions.jsval }.

Record sync_response := mkSyncResponse {
  ok : bool;
  json : thrown + option sync_data
}.

Record firebase := mkFirebase {
  currentUser : bool;
  getIdToken : thrown + js_string;
  getIdTokenResult : nat -> thrown + Functions.jsval;
  fetch : js_string -> thrown + sync_response
}.

(** What an async function leaves: the state, the number of calls of
    [getIdTokenResult] made so far, and the error it rejects with, if
    any. *)
Definition outcome : Type := state * nat * option thrown.

Definition loadAdminClaim (fb : firebase) (n : nat) (st : state) : outcome :=
  if negb (currentUser fb) then (setIsAdmin false st, n, None)
  else
    match getIdTokenResult fb n with
    | inl e => (st, S n, Some e)
    | inr claim => (setIsAdmin (Boolean claim) st, S n, None)
    end.

(** The loop of [refreshAdminClaimWithRetry] over the values of [i] that
    are left. *)
Fixpoint retry (fb : firebase) (turns : list nat) (n : nat) (st : state)
  : outcome :=
  match turns with
  | [] => (st, n, None)
  | _ :: rest =>
      match getIdTokenResult fb n with
      | inl e => (st, S n, Some e)
      | inr claim =>
          let admin := Boolean claim in
          let st := setIsAdmin admin st in
          if admin then (st, S n, None) else retry fb rest (S n) st
      end
  end.

Definition refreshAdminClaimWithRetry (fb : firebase) (n : nat) (st : state)
  : outcome :=
  if negb (currentUser fb) then (st, n, None)
  else retry fb (seq 0 3) n st.

(** [syncAdminClaims] catches every error, so it leaves a state and a
    count only.  Its one call of [getIdToken(user, true)] refreshes the
    token as well and is not in the count. *)
Definition syncAdminClaims (fb : firebase) (n : nat) (st : state)
  : state * nat :=
  if negb (currentUser fb) then (st, n)
  else
    let st := setIsSyncingAdmin true st in
    let '(st, n, err) :=
      match getIdToken fb with
      | inl e => (st, n, Some e)
      | inr token =>
          match fetch fb (str "Bearer " ++ token) with
          | inl e => (st, n, Some e)
          | inr res =>
              let st :=
                if ok res then
                  match json res with
                  | inr (Some data) =>
                      match admin data with
                      | Functions.VBool b => setIsAdmin b st
                      | _ => st
                      end
                  | _ => st
                  end
                else st in
              refreshAdminClaimWithRetry fb n st
          end
      end in
    let st := match err with Some _ => setIsAdmin false st | None => st end in
    (setIsSyncingAdmin false st, n).

(** The listener given to [onAuthStateChanged]; [user] is the user it is
    called with: [None] when signed out, else the email of the user, if
    it has one. *)
Definition onAuthStateChanged (fb : firebase)
    (user : option (option js_string)) (n : nat) (st : state) : outcome :=
  let email := match user with Some (Some e) => Some e | _ => None end in
  let st := setUserEmail email st in
  match user with
  | None => (setIsAdmin false st, n, None)
  | Some _ =>
      match loadAdminClaim fb n st with
      | (st, n, Some e) => (st, n, Some e)
      | (st, n, None) =>
          let '(st, n) := syncAdminClaims fb n st in (st, n, None)
      end
  end.

(** The token of the [n]-th call of [getIdTokenResult] carries a truthy
    [admin] claim. *)
Definition carries_admin (fb : firebase) (n : nat) : Prop :=
  exists claim, getIdTokenResult fb n = inr claim /\ Boolean claim = true.

(** The token of the [n]-th call is there and carries no such claim. *)
Definition carries_none (fb : firebase) (n : nat) : Prop :=
  exists claim, getIdTokenResult fb n = inr claim /\ Boolean claim = false.

(** The token of one of the next [k] calls carries the claim, and those
    of the calls before it came without it. *)
Definition claim_found (fb : firebase) (n k : nat) : Prop :=
  exists i, (i < k)%nat /\ carries_admin fb (n + i) /\
            forall j, (j < i)%nat -> carries_none fb (n + j).

(** A concrete input: the endpoint answers [{admin: true}], the claim
    shows at the second call of [getIdTokenResult]. *)
Definition sample_firebase : firebase :=
  mkFirebase true (inr (str "t0k3n"))
    (fun n => match n with
              | 1%nat => inr (Functions.VBool true)
              | _ => inr Functions.VUndefined
              end)
    (fun _ => inr (mkSyncResponse true
                     (inr (Some (mkSyncData (Functions.VBool true)))))).

Definition signed_out : state := mkState None false false.

End AppShell.

(** ** [src/App.tsx]: seed strings and card images *)

(** [n.toString(16)] for an integer [n >= 0]: the digits are produced
    from the right; [S (log2 n)] steps are enough for all of them. *)
Definition hex_digit (d : Z) : Z := if d <? 10 then 48 + d else 87 + d.

Fixpoint to_hex (fuel : nat) (n : Z) (acc : js_string) : js_string :=
  match fuel with
  | O => acc
  | S k =>
      let acc := hex_digit (n mod 16) :: acc in
      if n / 16 =? 0 then acc else to_hex k (n / 16) acc
  end.

Definition toString16 (n : Z) : js_string :=
  to_hex (S (Z.to_nat (Z.log2 n))) n [].

(** [s.padStart(len, fill)] for a filler of one code unit. *)
Definition padStart (len : nat) (fill : Z) (s : js_string) : js_string :=
  replicate (len - length s) fill ++ s.

(** [randomSeedString()], with [buf] the content of the [Uint32Array]
    once [crypto.getRandomValues] has filled it. *)
Definition randomSeedString (buf : list Z) : js_string :=
  join (str "-") (map (fun n => padStart 8 48 (toString16 n)) buf).

(** The value of a string of hexadecimal digits. *)
Definition hex_value (c : Z) : Z :=
  if c <? 58 then c - 48 else c - 87.

Definition of_hex (s : js_string) : Z :=
  foldl (fun v c => v * 16 + hex_value c) 0 s.

Definition is_hex (c : Z) : bool :=
  ((48 <=? c) && (c <=? 57)) || ((97 <=? c) && (c <=? 102)).

(** [/^\d+$/.test(s)] *)
Definition is_digit (c : Z) : bool := (48 <=? c) && (c <=? 57).

Definition all_digits (s : js_string) : bool :=
  truthy s && forallb is_digit s.

(** The value of a string of decimal digits. *)
Definition of_decimal (s : js_string) : Z :=
  foldl (fun v c => v * 10 + (c - 48)) 0 s.

(** [Number(v)] where [v] is a segment of an id, or [0] when there is
    none.  Only the empty string and the strings of digits whose value
    is below [2^53] are covered; the result is [None] for the others. *)
Definition Number_of_segment (v : option js_string) : option nat :=
  match v with
  | None => Some 0%nat
  | Some [] => Some 0%nat
  | Some s =>
      if all_digits s && (of_decimal s <? 2 ^ 53)
      then Some (Z.to_nat (of_decimal s)) else None
  end.

Definition imageNames : list js_string :=
  map str
    [ "TheFool"; "TheMagician"; "TheHighPriestess"; "TheEmpress";
      "TheEmperor"; "TheHierophant"; "TheLovers"; "TheChariot";
      "Strength"; "TheHermit"; "WheelOfFortune"; "Justice";
      "TheHangedMan"; "Death"; "Temperance"; "TheDevil"; "TheTower";
      "TheStar"; "TheMoon"; "TheSun"; "Judgement"; "TheWorld" ]%string.

(** The own keys of [courtMap]. *)
Definition courtMap : list (js_string * js_string) :=
  [ (str "Ace", str "01"); (str "Page", str "11"); (str "Knight", str "12");
    (str "Queen", str "13"); (str "King", str "14") ].

(** The keys every object inherits; [courtMap[k]] is a function or an
    object for them. *)
Definition inherited_keys : list js_string :=
  map str
    [ "constructor"; "hasOwnProperty"; "isPrototypeOf";
      "propertyIsEnumerable"; "toLocaleString"; "toString"; "valueOf";
      "__proto__"; "__defineGetter__"; "__defineSetter__";
      "__lookupGetter__"; "__lookupSetter__" ]%string.

(** [getCardImageUrl(card)]; [None] where the ingredients above do not
    cover the card. *)
Definition getCardImageUrl (card : TarotCard) : option js_string :=
  match arcana card with
  | Major =>
      index ← Number_of_segment (split 45 (id card) !! 1%nat);
      let number := padStart 2 48 (num_to_string index) in
      let name := default (str "Unknown") (imageNames !! index) in
      Some (str "/cards/" ++ number ++ str "-" ++ name ++ str ".png")
  | Minor =>
      let suit := from_option suit_name [] (suit card) in
      let rankRaw := default [] (rank card) in
      if all_digits rankRaw then
        let num := padStart 2 48 rankRaw in
        Some (str "/cards/" ++ suit ++ num ++ str ".png")
      else if decide (rankRaw ∈ inherited_keys) then None
      else
        match list_to_map (M := gmap js_string js_string) courtMap !! rankRaw with
        | None => Some []
        | Some mapped =>
            if decide (mapped = str "01")
            then Some (str "/cards/" ++ suit ++ str "01" ++ str ".png")
            else Some (str "/cards/" ++ suit ++ mapped ++ str ".png")
        end
  end.

(** A path of the form [/cards/….png] with something for the dots. *)
Definition is_image_path (u : js_string) : bool :=
  startsWith u (str "/cards/") &&
  startsWith (reverse u) (reverse (str ".png")) &&
  (11 <? js_length u).

(** A concrete input: a buffer as [crypto.getRandomValues] may fill it. *)
Definition sample_buffer : list Z := [0; 255; 3735928559; 4294967295].

(** The two memo cells are sound: the base deck is in the store as
    built, and the deck is what the shuffle makes of it for the seed. *)
Definition memo_sound (st : Spread.state) : Prop :=
  Spread.store st !! Spread.baseDeck st = Some baseDeckArray /\
  exists A, Spread.store st !! Spread.deck st = Some A /\
            items A = shuffled (Spread.seed st).

(** The title of the section that is open. *)
Definition open_title (cur : js_string) : js_string :=
  if truthy cur then cur else default_title.

(** A section is open when a title was seen or a line buffered. *)
Definition is_open (cur : js_string) (buf : list js_string) : Prop :=
  cur <> [] \/ buf <> [].

(** * Properties *)

(** ** Arrays that are lists *)

Section ArrayFacts.
Context {T : Type}.
Implicit Types (A : js_array T) (l : list (option T)) (h : heap T).

Lemma dense_items A l : dense A l -> items A = l.
Proof.
  intros [Hlen Hget]. unfold items. rewrite Hlen.
  apply list_eq. intros i. rewrite list_lookup_fmap.
  destruct (l !! i) as [x|] eqn:Hi.
  - rewrite (lookup_seqZ_lt _ _ i) by (apply lookup_lt_Some in Hi; lia).
    simpl. f_equal. rewrite Z.add_0_l. by apply Hget.
  - rewrite lookup_seqZ_ge; [done|]. apply lookup_ge_None in Hi. lia.
Qed.

Lemma dense_array_of l : dense (array_of l) l.
Proof.
  split; [done|]. intros i x Hi. unfold aget, array_of. simpl.
  rewrite lookup_kmap by apply _.
  rewrite lookup_map_seqZ_0 by lia. by rewrite Nat2Z.id, Hi.
Qed.

Lemma items_array_of l : items (array_of l) = l.
Proof. apply dense_items, dense_array_of. Qed.

Lemma dense_spread A : dense (spread A) (items A).
Proof. apply dense_array_of. Qed.

(** Writing inside the bounds is the list update, and keeps the length. *)
Lemma dense_aset A l (i : nat) v :
  dense A l -> (i < length l)%nat ->
  dense (aset A (Index (Z.of_nat i)) v) (<[i := v]> l).
Proof.
  intros [Hlen Hget] Hi. split.
  - unfold aset. simpl. rewrite length_insert.
    rewrite decide_False by lia. done.
  - intros k x Hk. unfold aget, aset. simpl.
    destruct (decide (i = k)) as [->|Hne].
    + rewrite lookup_insert_eq. rewrite list_lookup_insert_eq in Hk by done.
      congruence.
    + rewrite lookup_insert_ne by (intros [=]; lia).
      rewrite list_lookup_insert_ne in Hk by done.
      by apply Hget.
Qed.

Lemma dense_aget A l (i : nat) x :
  dense A l -> l !! i = Some x -> aget A (Index (Z.of_nat i)) = x.
Proof. intros [_ Hget]. apply Hget. Qed.

(** Stores through a reference touch that reference only. *)
Lemma store_other h a a' k v : a' <> a -> store h a k v !! a' = h !! a'.
Proof. intros Hne. unfold store. by rewrite lookup_alter_ne. Qed.

Lemma store_same h a A k v :
  h !! a = Some A -> store h a k v = <[a := aset A k v]> h.
Proof.
  intros Ha. unfold store. apply map_eq. intros a'.
  destruct (decide (a = a')) as [->|Hne].
  - by rewrite lookup_alter_eq, lookup_insert_eq, Ha.
  - by rewrite lookup_alter_ne, lookup_insert_ne.
Qed.

Lemma load_same h a A k : h !! a = Some A -> load h a k = aget A k.
Proof. intros Ha. unfold load. by rewrite Ha. Qed.

Lemma alloc_fresh h A : h !! (alloc h A).2 = None.
Proof.
  unfold alloc. simpl. apply not_elem_of_dom. apply is_fresh.
Qed.

End ArrayFacts.

(** ** The shuffle *)

(** [Math.floor(r * (i + 1))] is an index no larger than [i] when
    [0 <= r < 1]. *)
Lemma floor_index (r : Q) (i : Z) :
  (0 <= r)%Q -> (r < 1)%Q -> 0 <= i ->
  0 <= Qfloor (r * inject_Z (i + 1)) <= i.
Proof.
  destruct r as [n d]. unfold Qle, Qlt, Qfloor, Qmult, inject_Z. simpl.
  rewrite !Z.mul_1_r, Pos.mul_1_r. intros Hn Hd Hi.
  assert (0 < Z.pos d) by lia. split.
  - apply Z.div_pos; nia.
  - apply Z.lt_succ_r. apply Z.div_lt_upper_bound; nia.
Qed.

Section ShuffleFacts.
Context {T R : Type} (rng : R -> number * R).
Implicit Types (h : heap T) (a : loc) (s : R) (l : list (option T)).

(** *** The frame: the loop writes through [a] only *)

Lemma swap_step_other a i h s a' :
  a' <> a -> (swap_step rng a i (h, s)).1 !! a' = h !! a'.
Proof.
  intros Hne. unfold swap_step. destruct (rng s) as [r s']. simpl.
  by rewrite !store_other.
Qed.

Lemma swap_step_is_Some a i h s :
  is_Some (h !! a) -> is_Some ((swap_step rng a i (h, s)).1 !! a).
Proof.
  intros [A HA]. unfold swap_step. destruct (rng s) as [r s']. simpl.
  erewrite (store_same h) by done.
  erewrite store_same by apply lookup_insert_eq.
  rewrite lookup_insert_eq. eauto.
Qed.

Lemma shuffle_loop_other a i h s a' :
  a' <> a -> (shuffle_loop rng a i (h, s)).1 !! a' = h !! a'.
Proof.
  intros Hne. revert h s. induction i as [|i IH]; intros h s; [done|].
  cbn [shuffle_loop].
  destruct (swap_step rng a (Z.of_nat (S i)) (h, s)) as [h1 s1] eqn:E.
  rewrite IH. replace h1 with (swap_step rng a (Z.of_nat (S i)) (h, s)).1
    by (by rewrite E).
  by apply swap_step_other.
Qed.

Lemma shuffle_loop_is_Some a i h s :
  is_Some (h !! a) -> is_Some ((shuffle_loop rng a i (h, s)).1 !! a).
Proof.
  revert h s. induction i as [|i IH]; intros h s Ha; [done|].
  cbn [shuffle_loop].
  destruct (swap_step rng a (Z.of_nat (S i)) (h, s)) as [h1 s1] eqn:E.
  apply IH. replace h1 with (swap_step rng a (Z.of_nat (S i)) (h, s)).1
    by (by rewrite E).
  by apply swap_step_is_Some.
Qed.

(** [shuffleSeeded] always returns, allocates its result and changes
    nothing that was in the store. *)
Lemma shuffleSeeded_frame_gen h arr s A :
  h !! arr = Some A ->
  exists h' a s',
    shuffleSeeded rng h arr s = Some (h', a, s') /\
    h !! a = None /\
    is_Some (h' !! a) /\
    forall a', a' <> a -> h' !! a' = h !! a'.
Proof.
  intros HA. unfold shuffleSeeded. rewrite HA.
  pose proof (alloc_fresh h (spread A)) as Hfresh.
  unfold alloc in *. simpl in Hfresh.
  set (a := fresh (dom h)) in *. rewrite lookup_insert_eq.
  destruct (shuffle_loop rng a (Z.to_nat (len (spread A) - 1))
              (<[a:=spread A]> h, s)) as [h' s'] eqn:E.
  exists h', a, s'. split; [done|]. split; [done|].
  replace h' with (shuffle_loop rng a (Z.to_nat (len (spread A) - 1))
                     (<[a:=spread A]> h, s)).1 by (by rewrite E).
  split.
  - apply shuffle_loop_is_Some. rewrite lookup_insert_eq. eauto.
  - intros a' Hne. rewrite shuffle_loop_other by done.
    by rewrite lookup_insert_ne.
Qed.

(** *** The permutation: a generator that stays in [[0, 1)] *)

Hypothesis rng_range :
  forall s, exists q, (rng s).1 = Num q /\ (0 <= q)%Q /\ (q < 1)%Q.

Lemma swap_step_dense a (i : nat) h s A l :
  h !! a = Some A -> dense A l -> (i < length l)%nat ->
  exists A' l',
    swap_step rng a (Z.of_nat i) (h, s) = (<[a := A']> h, (rng s).2) /\
    dense A' l' /\ l' ≡ₚ l.
Proof.
  intros HA Hd Hi. unfold swap_step.
  destruct (rng_range s) as (r & Hr & H0 & H1). destruct (rng s) as [x s'].
  cbn [fst snd] in *. subst x. cbv zeta. cbn [times floor_key].
  destruct (floor_index r (Z.of_nat i) H0 H1 ltac:(lia)) as [Hj0 Hji].
  set (j := Qfloor (r * inject_Z (Z.of_nat i + 1))) in *.
  assert (Hjn : j = Z.of_nat (Z.to_nat j)) by lia.
  set (jn := Z.to_nat j) in *. assert (jn <= i)%nat by lia.
  destruct (lookup_lt_is_Some_2 l i Hi) as [xi Hxi].
  destruct (lookup_lt_is_Some_2 l jn ltac:(lia)) as [xj Hxj].
  rewrite !(load_same h a A) by done.
  rewrite (store_same h a A) by done.
  erewrite store_same by apply lookup_insert_eq.
  rewrite insert_insert_eq. rewrite Hjn.
  rewrite (dense_aget A l i xi), (dense_aget A l jn xj) by done.
  exists (aset (aset A (Index (Z.of_nat i)) xj) (Index (Z.of_nat jn)) xi),
         (<[jn := xi]> (<[i := xj]> l)).
  split; [done|]. split.
  - apply dense_aset; [by apply dense_aset|]. rewrite length_insert. lia.
  - by apply Permutation_insert_swap.
Qed.

Lemma shuffle_loop_dense a (i : nat) h s A l :
  h !! a = Some A -> dense A l -> (i < length l)%nat ->
  exists A' l' s',
    shuffle_loop rng a i (h, s) = (<[a := A']> h, s') /\
    dense A' l' /\ l' ≡ₚ l.
Proof.
  revert h s A l. induction i as [|i IH]; intros h s A l HA Hd Hi.
  - exists A, l, s. simpl. by rewrite insert_id.
  - cbn [shuffle_loop].
    destruct (swap_step_dense a (S i) h s A l HA Hd Hi)
      as (A1 & l1 & -> & Hd1 & Hp1).
    destruct (IH (<[a := A1]> h) (rng s).2 A1 l1) as (A2 & l2 & s2 & E & Hd2 & Hp2).
    + apply lookup_insert_eq.
    + done.
    + apply Permutation_length in Hp1. lia.
    + exists A2, l2, s2. rewrite E, insert_insert_eq.
      split; [done|]. split; [done|]. by rewrite Hp2.
Qed.

(** The array [shuffleSeeded] returns holds a permutation of the
    elements of its argument. *)
Lemma shuffleSeeded_perm h arr s A :
  h !! arr = Some A -> 0 <= len A ->
  exists h' a s' A',
    shuffleSeeded rng h arr s = Some (h', a, s') /\
    h' !! a = Some A' /\
    len A' = len A /\
    items A' ≡ₚ items A.
Proof.
  intros HA Hlen. unfold shuffleSeeded. rewrite HA. unfold alloc.
  set (a := fresh (dom h)). rewrite lookup_insert_eq.
  pose proof (dense_spread A) as Hd.
  assert (Hlen' : len (spread A) = len A).
  { unfold spread, array_of, items. simpl.
    rewrite length_fmap, length_seqZ. lia. }
  destruct (decide (len A = 0)) as [Hz|Hnz].
  - replace (Z.to_nat (len (spread A) - 1)) with 0%nat by lia.
    cbn [shuffle_loop]. exists (<[a:=spread A]> h), a, s, (spread A).
    rewrite lookup_insert_eq. repeat split; try done.
    by rewrite (dense_items _ _ Hd).
  - destruct (shuffle_loop_dense a (Z.to_nat (len (spread A) - 1))
                (<[a:=spread A]> h) s (spread A) (items A))
      as (A' & l' & s' & E & Hd' & Hp).
    + apply lookup_insert_eq.
    + done.
    + destruct Hd as [Hl _]. lia.
    + rewrite E. exists (<[a:=A']> (<[a:=spread A]> h)), a, s', A'.
      rewrite lookup_insert_eq. repeat split; try done.
      * destruct Hd' as [Hl' _]. destruct Hd as [Hl _].
        apply Permutation_length in Hp. lia.
      * by rewrite (dense_items _ _ Hd').
Qed.

End ShuffleFacts.

(** *** The loop's result depends on the array and the generator only *)

Section ShuffleDeterminism.
Context {T R : Type} (rng : R -> number * R).
Implicit Types (h : heap T) (a : loc) (s : R).

Lemma swap_step_array a i h s A :
  h !! a = Some A ->
  swap_step rng a i (h, s) =
    (<[a := (swap_array rng i (A, s)).1]> h, (swap_array rng i (A, s)).2).
Proof.
  intros HA. unfold swap_step, swap_array. destruct (rng s) as [r s'].
  cbv zeta. cbn [fst snd].
  rewrite !(load_same h a A) by done.
  rewrite (store_same h a A) by done.
  erewrite store_same by apply lookup_insert_eq.
  by rewrite insert_insert_eq.
Qed.

Lemma shuffle_loop_array a i h s A :
  h !! a = Some A ->
  shuffle_loop rng a i (h, s) =
    (<[a := (loop_array rng i (A, s)).1]> h, (loop_array rng i (A, s)).2).
Proof.
  revert h s A. induction i as [|i IH]; intros h s A HA.
  - cbn. by rewrite insert_id.
  - cbn [shuffle_loop loop_array].
    rewrite (swap_step_array a _ h s A HA).
    destruct (swap_array rng (Z.of_nat (S i)) (A, s)) as [A1 s1].
    cbn [fst snd]. rewrite (IH _ s1 A1) by apply lookup_insert_eq.
    by rewrite insert_insert_eq.
Qed.

(** The array returned is a function of the elements of the argument
    and of the generator: neither the rest of the store nor the
    locations matter. *)
Lemma shuffleSeeded_result h arr s A :
  h !! arr = Some A ->
  exists h' a s',
    shuffleSeeded rng h arr s = Some (h', a, s') /\
    h' !! a =
      Some (loop_array rng (Z.to_nat (len (spread A) - 1)) (spread A, s)).1.
Proof.
  intros HA. unfold shuffleSeeded, alloc. rewrite HA.
  set (a := fresh (dom h)). rewrite lookup_insert_eq.
  rewrite (shuffle_loop_array a _ _ s (spread A)) by apply lookup_insert_eq.
  eexists _, _, _. split; [done|]. by rewrite lookup_insert_eq.
Qed.

End ShuffleDeterminism.

(** ** The deck *)

(** Decide a closed proposition by evaluation. *)
Ltac by_evaluation :=
  refine (bool_decide_unpack _ _); vm_compute; exact I.

Lemma deck_length : length buildTarotDeck78 = 78%nat.
Proof. reflexivity. Qed.

Lemma deck_ids_NoDup : NoDup (id <$> buildTarotDeck78).
Proof. by_evaluation. Qed.

Lemma deck_NoDup : NoDup buildTarotDeck78.
Proof. eapply NoDup_fmap_1, deck_ids_NoDup. Qed.

(** ** The generator stays in [[0, 1)] *)

Lemma ushr_0_range (x : Z) : 0 <= ushr x 0 < 2 ^ 32.
Proof.
  unfold ushr, ToUint32. change (Z.land 0 31) with 0. rewrite Z.shiftr_0_r.
  apply Z.mod_pos_bound. lia.
Qed.

Lemma mulberry32_range (s : Z) :
  exists q, (mulberry32 s).1 = Num q /\ (0 <= q)%Q /\ (q < 1)%Q.
Proof.
  unfold mulberry32. cbv zeta. cbn [fst]. eexists. split; [reflexivity|].
  match goal with |- context [ushr ?x 0] => pose proof (ushr_0_range x) as H end.
  unfold Qle, Qlt. cbn [Qnum Qden]. change (2 ^ 32) with 4294967296 in H.
  split; lia.
Qed.

(** C9. [buildTarotDeck78] returns 78 cards whose ids are pairwise
    distinct: 22 cards of the Major Arcana, which have no suit, and 56 of
    the Minor Arcana, which are, for each of the four suits, one card for
    each of the 14 ranks. *)
Theorem buildTarotDeck78_census :
  length buildTarotDeck78 = 78%nat /\
  NoDup (id <$> buildTarotDeck78) /\
  length (filter (fun c => arcana c = Major) buildTarotDeck78) = 22%nat /\
  length (filter (fun c => arcana c = Minor) buildTarotDeck78) = 56%nat /\
  Forall (fun c => arcana c = Major <-> suit c = None) buildTarotDeck78 /\
  length minorRanks = 14%nat /\ NoDup minorRanks /\
  forall s : Suit,
    let cs := filter (fun c => suit c = Some s) buildTarotDeck78 in
    Forall (fun c => arcana c = Minor) cs /\
    rank <$> cs = Some <$> minorRanks.
Proof.
  split; [reflexivity|]. split; [apply deck_ids_NoDup|].
  split; [reflexivity|]. split; [reflexivity|].
  split; [by_evaluation|]. split; [reflexivity|]. split; [by_evaluation|].
  intros s. destruct s; cbv zeta; (split; [by_evaluation|reflexivity]).
Qed.

(** C1. For every seed string, [shuffleSeeded] applied to the base deck
    with the generator [makeSeededRng] derives from the seed returns an
    array holding a permutation of the base deck: the same 78 cards, none
    twice and none missing. *)
Theorem shuffled_deck_is_permutation
    (seed : js_string) (h : heap TarotCard) (b : loc) :
  h !! b = Some baseDeckArray ->
  exists h' a s' cards,
    shuffleSeeded mulberry32 h b (makeSeededRng seed) = Some (h', a, s') /\
    items <$> h' !! a = Some (Some <$> cards) /\
    cards ≡ₚ buildTarotDeck78 /\
    NoDup cards /\
    length cards = 78%nat /\
    (forall c, c ∈ cards <-> c ∈ buildTarotDeck78).
Proof.
  intros Hb.
  destruct (shuffleSeeded_perm mulberry32 mulberry32_range h b
              (makeSeededRng seed) baseDeckArray Hb)
    as (h' & a & s' & A' & Hrun & Ha & _ & Hperm); [done|].
  unfold baseDeckArray in Hperm. rewrite items_array_of in Hperm.
  apply Permutation_map_inv in Hperm as (cards & Hcards & Hp).
  exists h', a, s', cards. rewrite Ha. cbn [fmap option_fmap option_map].
  split; [done|]. split; [by rewrite Hcards|].
  assert (cards ≡ₚ buildTarotDeck78) as Hp' by (by symmetry).
  split; [done|]. split; [by rewrite Hp'; apply deck_NoDup|].
  split; [by rewrite Hp'|]. intros c. by rewrite Hp'.
Qed.

Lemma shuffled_deck_is_permutation_witness :
  exists h' a s' cards,
    shuffleSeeded mulberry32 {[ 1%positive := baseDeckArray ]} 1%positive
      (makeSeededRng sample_seed) = Some (h', a, s') /\
    items <$> h' !! a = Some (Some <$> cards) /\
    cards ≡ₚ buildTarotDeck78 /\
    NoDup cards /\
    length cards = 78%nat /\
    (forall c, c ∈ cards <-> c ∈ buildTarotDeck78).
Proof.
  apply (shuffled_deck_is_permutation sample_seed
           {[ 1%positive := baseDeckArray ]} 1%positive).
  reflexivity.
Defined.

(** C2. Two runs of the seeded pipeline with the same seed give the same
    results, whatever else the store holds and wherever the base deck
    lies in it: [shuffleSeeded] on the base deck with
    [makeSeededRng(seed)] returns the same cards in the same order, and
    [isReversed] gives every card id the same flag. *)
Theorem seeded_pipeline_deterministic
    (seed1 seed2 : js_string) (h1 h2 : heap TarotCard) (b1 b2 : loc) :
  seed1 = seed2 ->
  h1 !! b1 = Some baseDeckArray ->
  h2 !! b2 = Some baseDeckArray ->
  exists h1' a1 s1 h2' a2 s2 order,
    shuffleSeeded mulberry32 h1 b1 (makeSeededRng seed1) = Some (h1', a1, s1) /\
    shuffleSeeded mulberry32 h2 b2 (makeSeededRng seed2) = Some (h2', a2, s2) /\
    items <$> h1' !! a1 = Some order /\
    items <$> h2' !! a2 = Some order /\
    s1 = s2 /\
    forall cardId, isReversed seed1 cardId = isReversed seed2 cardId.
Proof.
  intros <- Hb1 Hb2.
  destruct (shuffleSeeded_result mulberry32 h1 b1 (makeSeededRng seed1) _ Hb1)
    as (h1' & a1 & s1 & Hrun1 & Ha1).
  destruct (shuffleSeeded_result mulberry32 h2 b2 (makeSeededRng seed1) _ Hb2)
    as (h2' & a2 & s2 & Hrun2 & Ha2).
  exists h1', a1, s1, h2', a2, s2. eexists.
  split; [done|]. split; [done|]. rewrite Ha1, Ha2.
  split; [done|]. split; [done|]. split; [|done].
  unfold shuffleSeeded, alloc in Hrun1, Hrun2. rewrite Hb1 in Hrun1.
  rewrite Hb2 in Hrun2. rewrite lookup_insert_eq in Hrun1, Hrun2.
  rewrite (shuffle_loop_array mulberry32 _ _ _ _ (spread baseDeckArray))
    in Hrun1 by apply lookup_insert_eq.
  rewrite (shuffle_loop_array mulberry32 _ _ _ _ (spread baseDeckArray))
    in Hrun2 by apply lookup_insert_eq.
  congruence.
Qed.

Lemma seeded_pipeline_deterministic_witness :
  exists h1' a1 s1 h2' a2 s2 order,
    shuffleSeeded mulberry32 {[ 1%positive := baseDeckArray ]} 1%positive
      (makeSeededRng sample_seed) = Some (h1', a1, s1) /\
    shuffleSeeded mulberry32 sample_store 1%positive
      (makeSeededRng sample_seed) = Some (h2', a2, s2) /\
    items <$> h1' !! a1 = Some order /\
    items <$> h2' !! a2 = Some order /\
    s1 = s2 /\
    forall cardId, isReversed sample_seed cardId = isReversed sample_seed cardId.
Proof.
  apply (seeded_pipeline_deterministic sample_seed sample_seed
           {[ 1%positive := baseDeckArray ]} sample_store 1%positive 1%positive).
  - reflexivity.
  - reflexivity.
  - vm_compute. reflexivity.
Defined.

(** C10. [shuffleSeeded] has no effect on its input, for every array and
    every generator: the call returns, the array passed in is afterwards
    what it was before, property for property, and so is everything else
    that was in the store; the array returned is a new object. *)
Theorem shuffleSeeded_leaves_input
    {T R : Type} (rng : R -> number * R) (h : heap T) (arr : loc) (s : R)
    (A : js_array T) :
  h !! arr = Some A ->
  exists h' a s',
    shuffleSeeded rng h arr s = Some (h', a, s') /\
    h' !! arr = Some A /\
    a <> arr /\
    h !! a = None /\
    is_Some (h' !! a) /\
    forall a', a' <> a -> h' !! a' = h !! a'.
Proof.
  intros HA.
  destruct (shuffleSeeded_frame_gen rng h arr s A HA)
    as (h' & a & s' & Hrun & Hfresh & Hnew & Hframe).
  assert (a <> arr) as Hne by congruence.
  exists h', a, s'. split; [done|]. split; [|done].
  rewrite Hframe by done. done.
Qed.

Lemma shuffleSeeded_leaves_input_witness :
  exists h' a s',
    shuffleSeeded wild_rng {[ 1%positive := array_of [Some 10; Some 20; Some 30] ]}
      1%positive 1 = Some (h', a, s') /\
    h' !! 1%positive = Some (array_of [Some 10; Some 20; Some 30]) /\
    a <> 1%positive /\
    ({[ 1%positive := array_of [Some 10; Some 20; Some 30] ]} : heap Z) !! a = None /\
    is_Some (h' !! a) /\
    forall a', a' <> a ->
      h' !! a' =
      ({[ 1%positive := array_of [Some 10; Some 20; Some 30] ]} : heap Z) !! a'.
Proof.
  apply (shuffleSeeded_leaves_input wild_rng
           {[ 1%positive := array_of [Some 10; Some 20; Some 30] ]} 1%positive 1
           (array_of [Some 10; Some 20; Some 30])).
  reflexivity.
Defined.

(** C3, as the code has it.  For every seed and card id, the reversed
    flag comes from a fresh generator seeded with the seed, the
    separator [::rev::] and the card id, in this order; the card is
    reversed exactly when the first number the generator returns is
    below 1/2, that is when its 32-bit numerator is below [2^31]. *)
Theorem isReversed_spec (seed cardId : js_string) :
  exists r : Q,
    (mulberry32 (makeSeededRng (seed ++ str "::rev::" ++ cardId))).1 = Num r /\
    (isReversed seed cardId = true <-> (r < 1 # 2)%Q) /\
    (isReversed seed cardId = false <-> (1 # 2 <= r)%Q) /\
    Qden r = 4294967296%positive /\
    ((r < 1 # 2)%Q <-> Qnum r < 2 ^ 31).
Proof.
  unfold isReversed.
  destruct (mulberry32 (makeSeededRng (seed ++ str "::rev::" ++ cardId)))
    as [x s'] eqn:E.
  unfold mulberry32 in E. cbv zeta in E. injection E as <- _.
  eexists. split; [reflexivity|]. cbn [fst js_lt].
  match goal with |- context [Qmake ?n ?d] => set (r := Qmake n d) end.
  split; [|split; [|split]].
  - destruct (Qcompare_spec r (1 # 2)) as [E|E|E].
    + split; [discriminate|]. rewrite E. intros H. by destruct (Qlt_irrefl (1 # 2)).
    + done.
    + split; [discriminate|]. intros H.
      destruct (Qlt_irrefl r). by apply (Qlt_trans _ (1 # 2)).
  - destruct (Qcompare_spec r (1 # 2)) as [E|E|E].
    + split; [intros _|done]. rewrite E. apply Qle_refl.
    + split; [discriminate|]. intros H. by apply Qle_not_lt in H.
    + split; [intros _|done]. by apply Qlt_le_weak.
  - reflexivity.
  - subst r. unfold Qlt. cbn [Qnum Qden]. lia.
Qed.

(** C3, as stated, fails: were the generator seeded with the seed
    directly followed by the card id, the first card of the deck would
    come out reversed under this seed; it comes out upright. *)
Lemma isReversed_not_plain_concatenation :
  ~ (isReversed sample_seed (str "M-0") = true <->
     js_lt (mulberry32 (makeSeededRng (sample_seed ++ str "M-0"))).1
       (Num (1 # 2)) = true).
Proof.
  intros [_ H].
  assert (isReversed sample_seed (str "M-0") = false) as E
    by (vm_compute; reflexivity).
  rewrite E in H. discriminate H. vm_compute. reflexivity.
Qed.

(** ** The spread component *)

Section SpreadFacts.
Import Spread.
Implicit Types (st : state) (ids : list js_string).

(** The start-over handler stops at its third call. *)
Lemma fullReset_eq s st :
  fullReset s st =
    (setPickedIds (fun _ => []) (setIsResultOpen false st),
     ReferenceError "setPickedSet").
Proof. reflexivity. Qed.

Lemma pickedIds_setSeed s st : pickedIds (setSeed s st) = pickedIds st.
Proof.
  unfold setSeed. case_decide; [done|].
  by destruct (memoDeck (store st) (baseDeck st) s).
Qed.

Lemma pickedIds_interpretBegin st :
  pickedIds (interpretBegin st).1 = pickedIds st.
Proof.
  unfold interpretBegin. repeat case_match; done.
Qed.

Lemma pickedIds_interpretEnd r w st :
  pickedIds (interpretEnd r w st) = pickedIds st.
Proof.
  unfold interpretEnd. repeat case_match; done.
Qed.

Lemma seen_render st : seen (render st) = render st.
Proof. reflexivity. Qed.

(** [pick] decides on the picked ids of the last render. *)
Lemma pick_cases cardId st :
  (pick cardId st = st /\
     ((cardId ∈ pickedIds (seen st)) \/
      (drawCount <= length (pickedIds (seen st)))%nat)) \/
  (pick cardId st = setPickedIds (fun prev => prev ++ [cardId]) st /\
     (cardId ∉ pickedIds (seen st)) /\
     (length (pickedIds (seen st)) < drawCount)%nat).
Proof.
  unfold pick, pickedSet, canPickMore.
  destruct (decide (cardId ∈ (list_to_set (pickedIds (seen st)) : gset js_string)))
    as [Hin|Hnin].
  - left. split; [done|]. left. by apply elem_of_list_to_set in Hin.
  - rewrite elem_of_list_to_set in Hnin.
    case_bool_decide; cbn [negb].
    + right. done.
    + left. split; [done|]. right. lia.
Qed.

Lemma length_omap_le {A B} (f : A -> option B) (l : list A) :
  (length (omap f l) <= length l)%nat.
Proof. induction l as [|x l IH]; cbn; [lia|]. destruct (f x); cbn; lia. Qed.

Lemma canInterpret_true st :
  canInterpret st = true ->
  trim (topic st) <> [] /\
  exists cards, pickedCards st = Some cards /\ length cards = drawCount /\
    (drawCount <= length (pickedIds st))%nat.
Proof.
  unfold canInterpret. intros [Ht Hc]%andb_true_iff. split.
  - intros E. rewrite E in Ht. discriminate.
  - destruct (pickedCards st) as [cards|] eqn:Hp; [|discriminate].
    apply bool_decide_eq_true in Hc. exists cards. split; [done|].
    split; [done|]. unfold pickedCards in Hp.
    destruct (deckMap (deckCards st)); [|discriminate].
    injection Hp as <-. rewrite <- Hc. apply length_omap_le.
Qed.

End SpreadFacts.


(** C8 fails on the code.  The handler of the start-over button names
    four identifiers that nothing binds ([setPickedSet],
    [setPickedCards], [setCanInterpret], [setDrawCount]); a click runs its
    first two calls and then throws a [ReferenceError], so the topic, the
    texts, the deck flags and the seed are left as they were. *)
Theorem full_reset_throws (s : js_string) (st : Spread.state) :
  Spread.fullReset s st =
    (Spread.setPickedIds (fun _ => []) (Spread.setIsResultOpen false st),
     Spread.ReferenceError "setPickedSet") /\
  List.filter (fun x => negb (bool_decide (x ∈ Spread.scope)))
    (flat_map (fun c => Spread.callee c :: Spread.mentions c)
       (Spread.fullResetBody s)) =
    ["setPickedSet"; "setPickedCards"; "setCanInterpret"; "setDrawCount"]%string /\
  let st' := (Spread.fullReset s st).1 in
  Spread.topic st' = Spread.topic st /\
  Spread.seed st' = Spread.seed st /\
  Spread.resultText st' = Spread.resultText st /\
  Spread.errorText st' = Spread.errorText st /\
  Spread.isDeckVisible st' = Spread.isDeckVisible st /\
  Spread.showInitialCards st' = Spread.showInitialCards st.
Proof.
  split; [reflexivity|]. split; [reflexivity|]. cbv zeta.
  rewrite fullReset_eq. cbn. done.
Qed.

(** ** The admin claims *)

Section AdminFacts.
Import Functions.
Variable toLowerCase : js_string -> js_string.
Hypothesis toLowerCase_empty : toLowerCase [] = [].
Variable ADMIN_EMAILS : js_string.

Lemma truthy_true (s : js_string) : truthy s = true <-> s <> [].
Proof. destruct s; cbn; split; congruence. Qed.

Lemma or_else_default (s : js_string) : default [] (or_else (Some s) (Some [])) = s.
Proof. by destruct s. Qed.

Lemma or_else_option (o : option js_string) :
  default [] (or_else o (Some [])) = default [] o.
Proof. destruct o as [[|c s]|]; done. Qed.

Lemma elem_of_getAdminEmailList e :
  e ∈ getAdminEmailList toLowerCase ADMIN_EMAILS <->
  e <> [] /\ exists entry,
    entry ∈ split 44 ADMIN_EMAILS /\ e = toLowerCase (trim entry).
Proof.
  unfold getAdminEmailList. rewrite or_else_default.
  rewrite list_elem_of_In, filter_In, <- list_elem_of_In, truthy_true.
  change (map ?f ?l) with (f <$> l). rewrite list_elem_of_fmap.
  split.
  - intros [(entry & -> & Hin) Hne]. eauto.
  - intros [Hne (entry & Hin & ->)]. eauto.
Qed.

Lemma isAdminEmail_allowlisted email :
  isAdminEmail toLowerCase ADMIN_EMAILS email = true <->
  allowlisted toLowerCase ADMIN_EMAILS email.
Proof.
  unfold isAdminEmail, allowlisted. destruct email as [|c email]; cbn [truthy negb].
  - split; [discriminate|]. intros (entry & _ & Hne & E).
    rewrite toLowerCase_empty in E. congruence.
  - rewrite bool_decide_eq_true, elem_of_getAdminEmailList.
    split.
    + intros (Hne & entry & Hin & E). exists entry. rewrite <- E. done.
    + intros (entry & Hin & Hne & E). rewrite E. eauto.
Qed.

(** No request gives a user the claim [admin: true] unless the email of
    the token it carries is on the allowlist. *)
Lemma syncAdminClaims_grants svc req users u :
  (syncAdminClaims toLowerCase ADMIN_EMAILS svc req users).2 !! u = Some true ->
  users !! u = Some true \/
  exists token d,
    verifyIdToken svc token = inr d /\ uid d = u /\
    allowlisted toLowerCase ADMIN_EMAILS (default [] (email d)).
Proof.
  unfold syncAdminClaims.
  destruct (decide (sync_method req = str "OPTIONS")); [cbn; auto|].
  destruct (decide (sync_method req <> str "POST")); [cbn; auto|].
  destruct (negb (truthy _)); [cbn; auto|].
  destruct (verifyIdToken svc _) as [err|d] eqn:Hver; [cbn; auto|].
  destruct (setCustomUserClaims_error svc (uid d)); [cbn; auto|].
  cbn [snd]. rewrite or_else_option.
  intros Hu. destruct (decide (uid d = u)) as [<-|Hne].
  - rewrite lookup_insert_eq in Hu. right. eexists _, d.
    split; [exact Hver|]. split; [done|].
    apply isAdminEmail_allowlisted. congruence.
  - rewrite lookup_insert_ne in Hu by done. auto.
Qed.

End AdminFacts.

(** C4. For every verified email, the admin-claims sync sets the claim
    [admin] to [true] exactly when the email, compared without regard to
    case, is among the comma-separated entries of [ADMIN_EMAILS] (each
    trimmed, lower-cased and not empty), and to [false] otherwise; and no
    request at all gives a user [admin: true] unless the email of its
    token is on the allowlist. *)
Theorem admin_claim_sync
    (toLowerCase : js_string -> js_string) (ADMIN_EMAILS : js_string)
    (svc : Functions.auth_service) (req : Functions.sync_request)
    (users : gmap js_string bool) (token : js_string) (d : Functions.decoded) :
  toLowerCase [] = [] ->
  Functions.sync_method req = str "POST" ->
  Functions.authorization req = Some (str "Bearer " ++ token) ->
  token <> [] ->
  Functions.verifyIdToken svc token = inr d ->
  Functions.setCustomUserClaims_error svc (Functions.uid d) = None ->
  (exists admin : bool,
     Functions.syncAdminClaims toLowerCase ADMIN_EMAILS svc req users =
       (Functions.json_ok (Functions.AdminBody admin),
        <[Functions.uid d := admin]> users) /\
     (admin = true <->
      Functions.allowlisted toLowerCase ADMIN_EMAILS
        (default [] (Functions.email d)))) /\
  (forall svc' req' users' u,
     (Functions.syncAdminClaims toLowerCase ADMIN_EMAILS svc' req' users').2 !! u
       = Some true ->
     users' !! u = Some true \/
     exists token' d',
       Functions.verifyIdToken svc' token' = inr d' /\ Functions.uid d' = u /\
       Functions.allowlisted toLowerCase ADMIN_EMAILS
         (default [] (Functions.email d'))).
Proof.
  intros Hlow Hm Hauth Htok Hver Hset. split.
  - exists (Functions.isAdminEmail toLowerCase ADMIN_EMAILS
              (default [] (Functions.email d))).
    split; [|by apply isAdminEmail_allowlisted].
    unfold Functions.syncAdminClaims. rewrite Hm, Hauth.
    rewrite decide_False by (vm_compute; congruence).
    rewrite decide_False by (intros H; by apply H).
    assert (default [] (Functions.or_else (Some (str "Bearer " ++ token)) (Some []))
            = str "Bearer " ++ token) as -> by reflexivity.
    assert (startsWith (str "Bearer " ++ token) (str "Bearer ") = true) as ->.
    { vm_compute. reflexivity. }
    assert (drop 7 (str "Bearer " ++ token) = token) as -> by reflexivity.
    destruct token as [|c token]; [done|]. cbn [truthy negb].
    rewrite Hver, Hset, or_else_option. done.
  - intros svc' req' users' u. by apply syncAdminClaims_grants.
Qed.

Lemma admin_claim_sync_witness :
  (exists admin : bool,
     Functions.syncAdminClaims Functions.ascii_toLowerCase
       (str "ann@example.com, boss@example.com ,,") Functions.sample_auth
       (Functions.mkSyncRequest (str "POST") (Some (str "Bearer t0k3n"))) ∅ =
       (Functions.json_ok (Functions.AdminBody admin), <[str "u1" := admin]> ∅) /\
     (admin = true <->
      Functions.allowlisted Functions.ascii_toLowerCase
        (str "ann@example.com, boss@example.com ,,") (str "Boss@Example.COM"))) /\
  (forall svc' req' users' u,
     (Functions.syncAdminClaims Functions.ascii_toLowerCase
        (str "ann@example.com, boss@example.com ,,") svc' req' users').2 !! u
       = Some true ->
     users' !! u = Some true \/
     exists token' d',
       Functions.verifyIdToken svc' token' = inr d' /\ Functions.uid d' = u /\
       Functions.allowlisted Functions.ascii_toLowerCase
         (str "ann@example.com, boss@example.com ,,")
         (default [] (Functions.email d'))).
Proof.
  apply (admin_claim_sync Functions.ascii_toLowerCase
           (str "ann@example.com, boss@example.com ,,") Functions.sample_auth
           (Functions.mkSyncRequest (str "POST") (Some (str "Bearer t0k3n"))) ∅
           (str "t0k3n")
           (Functions.mkDecoded (str "u1") (Some (str "Boss@Example.COM")))).
  - reflexivity.
  - reflexivity.
  - reflexivity.
  - vm_compute. congruence.
  - reflexivity.
  - reflexivity.
Defined.

(** ** [trim] *)

Section TrimFacts.
Implicit Types (s : js_string).

Lemma trimStart_clean s : starts_clean (trimStart s).
Proof.
  induction s as [|c s IH]; cbn; [done|].
  destruct (is_space c) eqn:E; [done|]. cbn. done.
Qed.

Lemma trimStart_of_clean s : starts_clean s -> trimStart s = s.
Proof. destruct s as [|c s]; cbn; [done|]. by intros ->. Qed.

Lemma trimStart_suffix s : exists k, s = k ++ trimStart s.
Proof.
  induction s as [|c s [k IH]]; cbn; [by exists []|].
  destruct (is_space c).
  - exists (c :: k). cbn. by f_equal.
  - by exists [].
Qed.

Lemma starts_clean_app_l s1 s2 :
  starts_clean (s1 ++ s2) -> s1 <> [] -> starts_clean s1.
Proof. by destruct s1. Qed.

(** [trim] leaves white space at neither end. *)
Lemma trim_clean s :
  starts_clean (trim s) /\ starts_clean (reverse (trim s)).
Proof.
  unfold trim, trimEnd. set (t := trimStart s).
  destruct (trimStart_suffix (reverse t)) as [k Hk].
  set (u := trimStart (reverse t)) in *. split.
  - destruct (decide (reverse u = [])) as [->|Hne]; [done|].
    apply (starts_clean_app_l _ (reverse k)); [|done].
    rewrite <- reverse_app, <- Hk, reverse_involutive. apply trimStart_clean.
  - rewrite reverse_involutive. apply trimStart_clean.
Qed.

Lemma trim_of_clean s :
  starts_clean s -> starts_clean (reverse s) -> trim s = s.
Proof.
  intros H1 H2. unfold trim, trimEnd.
  rewrite (trimStart_of_clean s H1), (trimStart_of_clean _ H2).
  apply reverse_involutive.
Qed.

Lemma trim_idemp s : trim (trim s) = trim s.
Proof. destruct (trim_clean s). by apply trim_of_clean. Qed.

End TrimFacts.

(** ** The interpretation endpoint *)

Section InterpretFacts.
Import Functions.
Implicit Types (e : environment) (b : backends) (req : interpret_request).

Lemma truthy_cons (s : js_string) : s <> [] -> exists c s', s = c :: s'.
Proof. destruct s; [done|eauto]. Qed.

Lemma interpret_well_formed e b req : well_formed (interpret e b req).
Proof.
  unfold interpret, well_formed, server_error, json_ok.
  repeat case_match; subst; cbn [body status];
    try (right; eexists; split; [reflexivity|lia]).
  - left. eexists. split; [reflexivity|].
    intros E. match goal with H : negb (truthy _) = false |- _ =>
      rewrite E in H; discriminate H end.
  - left. eexists. split; [reflexivity|].
    intros E. match goal with H : negb (truthy _) = false |- _ =>
      rewrite E in H; discriminate H end.
Qed.

Lemma interpret_not_post e b req :
  method req <> str "POST" ->
  interpret e b req = mkResponse 405 (ErrorBody (str "Method Not Allowed")).
Proof. intros H. unfold interpret. by rewrite decide_True. Qed.

Lemma interpret_no_project e b req :
  method req = str "POST" ->
  (project e = None \/ project e = Some []) ->
  interpret e b req = mkResponse 500 (ErrorBody (str "GCP project is not set")).
Proof.
  intros Hm Hp. unfold interpret.
  rewrite decide_False by (intros H; by apply H).
  by destruct Hp as [-> | ->].
Qed.

Lemma interpret_invalid_prompt e b req c p :
  method req = str "POST" ->
  project e = Some (c :: p) ->
  (forall c' s', (fields req).1 <> VString (c' :: s')) ->
  interpret e b req = mkResponse 400 (ErrorBody (str "Invalid prompt")).
Proof.
  intros Hm Hp Hbad. unfold interpret.
  rewrite decide_False by (intros H; by apply H). rewrite Hp.
  destruct (fields req) as [pr pv]. cbn [fst] in Hbad.
  destruct pr as [| | | |[|c' s']|]; try done. by destruct (Hbad c' s').
Qed.

End InterpretFacts.

(** C6, as the code has it.  Every response of the interpretation
    endpoint is a [{text}] object (status 200, text not empty) or an
    [{error}] object with status 400, 405 or 500.  A request that is not
    a POST gets 405 with [{error}].  A POST gets 500 with
    [{error: "GCP project is not set"}] when no project is configured,
    whatever its body; when one is configured, a body whose [prompt] is
    missing, not a string or empty gets 400 with
    [{error: "Invalid prompt"}]. *)
Theorem interpret_responses
    (e : Functions.environment) (b : Functions.backends)
    (req : Functions.interpret_request) :
  Functions.well_formed (Functions.interpret e b req) /\
  (Functions.method req <> str "POST" ->
   Functions.interpret e b req =
     Functions.mkResponse 405 (Functions.ErrorBody (str "Method Not Allowed"))) /\
  (Functions.method req = str "POST" ->
   Functions.project e = None \/ Functions.project e = Some [] ->
   Functions.interpret e b req =
     Functions.mkResponse 500 (Functions.ErrorBody (str "GCP project is not set"))) /\
  (Functions.method req = str "POST" ->
   (exists c p, Functions.project e = Some (c :: p)) ->
   (forall c s, (Functions.fields req).1 <> Functions.VString (c :: s)) ->
   Functions.interpret e b req =
     Functions.mkResponse 400 (Functions.ErrorBody (str "Invalid prompt"))).
Proof.
  split; [apply interpret_well_formed|].
  split; [apply interpret_not_post|].
  split; [apply interpret_no_project|].
  intros Hm (c & p & Hp) Hbad. by eapply interpret_invalid_prompt.
Qed.

(** C6, as stated, fails: a POST without a prompt gets 500, not 400, from
    a function that has no project configured. *)
Lemma invalid_prompt_without_project :
  (Functions.fields Functions.post_without_body).1 = Functions.VUndefined /\
  Functions.interpret Functions.bare_environment Functions.failing_backends
    Functions.post_without_body =
    Functions.mkResponse 500 (Functions.ErrorBody (str "GCP project is not set")) /\
  Functions.status
    (Functions.interpret Functions.bare_environment Functions.failing_backends
       Functions.post_without_body) <> 400.
Proof.
  split; [reflexivity|]. split; [vm_compute; reflexivity|].
  vm_compute. discriminate.
Qed.

(** ** The client and the endpoint together *)

Section EndToEndFacts.
Import Functions Spread.
Variable wire : payload -> js_string.

(** A text that begins with a literal is not empty. *)
Ltac literal_head :=
  match goal with
  | |- exists c s, str ?lit ++ _ = c :: s =>
      let h := fresh "h" in
      set (h := str lit);
      assert (exists c s, h = c :: s) as (? & ? & ->) by (vm_compute; eauto);
      eexists _, _; reflexivity
  end.

Lemma prompt_cons topic lines : exists c s, Spread.prompt topic lines = c :: s.
Proof. unfold Spread.prompt. literal_head. Qed.

Lemma modelCandidates_cons e : exists m ms, modelCandidates e = m :: ms.
Proof.
  unfold modelCandidates.
  destruct (List.filter truthy _) as [|m ms]; eexists _, _; reflexivity.
Qed.

(** A click on the button of a render that had a topic and five cards
    sends a request. *)
Lemma interpretBegin_sends st :
  canInterpret (seen st) = true ->
  exists cards,
    pickedCards (seen st) = Some cards /\ length cards = drawCount /\
    interpretBegin st =
      (setResultText None
         (setErrorText None
            (setIsInterpreting true (setIsResultOpen false st))),
       Some (mkRequest (Spread.prompt (topic (seen st)) (cardLines cards))
               Spread.provider)).
Proof.
  intros Hc.
  destruct (canInterpret_true (seen st) Hc) as (Ht & cards & Hp & Hl & _).
  exists cards. split; [done|]. split; [done|].
  unfold interpretBegin. cbv zeta. rewrite Hc, Hp. cbn [negb].
  destruct (trim (topic (seen st))); [done|]. reflexivity.
Qed.

(** The Vertex AI path of the endpoint, for a request of the client. *)
Lemma interpret_post e b rq c p :
  project e = Some (c :: p) ->
  req_provider rq = Spread.provider ->
  (exists c' s', req_prompt rq = c' :: s') ->
  interpret e b (post rq) =
    match tryModels
            (fun n m => generateContent b n (c :: p) (location e) m (req_prompt rq))
            0 (modelCandidates e) [] None with
    | inl err => server_error (message_or_unknown err)
    | inr (outputText, lastError) =>
        if negb (truthy outputText) then
          server_error
            match lastError with
            | Some (ErrorObj m) => m
            | _ => str "No output_text in response"
            end
        else json_ok (TextBody outputText)
    end.
Proof.
  intros Hp Hprov (c' & s' & Hpr). unfold interpret, post, fields.
  cbn [method req_body Functions.prompt Functions.provider].
  rewrite decide_False by (intros H; by apply H).
  rewrite Hp, Hpr, Hprov. reflexivity.
Qed.

(** When every call to the backend throws, the loop ends with an error
    thrown on or with the text it started from. *)
Lemma tryModels_all_fail gen n models out last :
  (forall k m, exists err, gen k m = inl err) ->
  (exists err, tryModels gen n models out last = inl err) \/
  (exists last', tryModels gen n models out last = inr (out, last')).
Proof.
  intros Hfail. revert n last.
  induction models as [|m ms IH]; intros n last; cbn [tryModels].
  - right. eauto.
  - destruct (Hfail n m) as [err ->]. case_match; [eauto|]. apply IH.
Qed.

(** What the client does with an answer whose status is not 2xx. *)
Lemma interpretEnd_not_ok st status text json w :
  ~ (200 <= status <= 299) ->
  exists c msg,
    interpretEnd (FetchResponse status text json) w st =
      interpretFail (c :: msg) st.
Proof.
  intros Hs. unfold interpretEnd.
  assert ((200 <=? status) && (status <=? 299) = false) as ->.
  { apply andb_false_iff. lia. }
  cbn [negb].
  match goal with
  | |- exists c msg, interpretFail ?m st = _ =>
      assert (exists c s, m = c :: s) as (c & s & ->) by literal_head
  end.
  eauto.
Qed.

(** What the client does with a 2xx answer that carries a text. *)
Lemma interpretEnd_text st status text x err w :
  200 <= status <= 299 -> x <> [] ->
  interpretEnd (FetchResponse status text (inr (mkData (Some x) err))) w st =
    match w with
    | Some e =>
        interpretFail (message_or_unknown e)
          (setIsResultOpen true (setResultText (Some (trim x)) st))
    | None =>
        setIsInterpreting false
          (setIsResultOpen true (setResultText (Some (trim x)) st))
    end.
Proof.
  intros Hs Hx. unfold interpretEnd.
  assert ((200 <=? status) && (status <=? 299) = true) as ->.
  { apply andb_true_iff. lia. }
  destruct x as [|c x]; [done|]. reflexivity.
Qed.

Lemma shown_result st x :
  x <> [] -> errorText st = None ->
  let st' := setIsInterpreting false
               (setIsResultOpen true (setResultText (Some x) st)) in
  shown st' = ShowResult x /\ errorText st' = None /\
  isInterpreting st' = false.
Proof.
  intros Hx He. destruct x as [|c x]; [done|].
  unfold shown. cbn. rewrite He. done.
Qed.

Lemma shown_interpretFail st c msg :
  resultText st = None ->
  shown (interpretFail (c :: msg) st) = ShowError (c :: msg) /\
  resultText (interpretFail (c :: msg) st) = None /\
  isInterpreting (interpretFail (c :: msg) st) = false.
Proof. intros H. unfold interpretFail, shown. cbn. done. Qed.

End EndToEndFacts.

(** C5, as the code has it, for an endpoint with a project configured.
    A click on the interpretation button of a render with a topic and
    five drawn cards posts the prompt with provider [gemini].  If the
    backend answers the first [generateContent] call with a result whose
    text, trimmed of the white space at its ends, is not empty, the
    endpoint returns that trimmed text in [{text}] with status 200, and
    the result panel shows it unless the write to the history throws.
    If every call to the backend throws, the endpoint returns 500 with
    [{error}] and the panel shows an error string and no result.  For a
    request with provider [openai], an OK answer with a non-empty
    [output_text] is returned as it is in [{text}], and a client that
    receives it shows it trimmed (when that is not empty and the write
    to the history does not throw); an answer that is not OK gives 500
    with [{error}], and a client that receives it shows an error string
    and no result. *)
Theorem interpretation_end_to_end
    (wire : Functions.payload -> js_string)
    (e : Functions.environment) (b : Functions.backends)
    (st : Spread.state) (c : Z) (p : js_string) :
  Spread.canInterpret (Spread.seen st) = true ->
  Functions.project e = Some (c :: p) ->
  (exists rq st1,
    Spread.interpretBegin st = (st1, Some rq) /\
    (forall r,
       (forall model,
          Functions.generateContent b 0 (c :: p) (Functions.location e) model
            (Spread.req_prompt rq) = inr r) ->
       Functions.vertex_output r <> [] ->
       Functions.interpret e b (post rq) =
         Functions.json_ok (Functions.TextBody (Functions.vertex_output r)) /\
       Spread.shown (consult wire e b None st) =
         Spread.ShowResult (Functions.vertex_output r) /\
       Spread.errorText (consult wire e b None st) = None /\
       Spread.isInterpreting (consult wire e b None st) = false) /\
    ((forall n model, exists err,
          Functions.generateContent b n (c :: p) (Functions.location e) model
            (Spread.req_prompt rq) = inl err) ->
       forall history, exists m k msg,
         Functions.interpret e b (post rq) =
           Functions.mkResponse 500 (Functions.ErrorBody m) /\
         Spread.shown (consult wire e b history st) = Spread.ShowError (k :: msg) /\
         Spread.resultText (consult wire e b history st) = None /\
         Spread.isInterpreting (consult wire e b history st) = false)) /\
  (forall req k key k' pr status text json,
     Functions.method req = str "POST" ->
     Functions.fields req =
       (Functions.VString (k' :: pr), Functions.VString (str "openai")) ->
     Functions.OPENAI_API_KEY e = Some (k :: key) ->
     Functions.openai b (k :: key)
       (default [] (Functions.or_else (Functions.OPENAI_MODEL e)
                      (Some (str "gpt-4o-mini")))) (k' :: pr) =
       Functions.OpenAIResponse false status text json ->
     Functions.interpret e b req =
       Functions.mkResponse 500
         (Functions.ErrorBody
            (str "OpenAI request failed: " ++ num_to_string (Z.to_nat status) ++
             str " " ++ default [] text)) /\
     forall history st1,
       Spread.resultText st1 = None ->
       exists k0 msg,
         Spread.shown
           (Spread.interpretEnd (deliver wire (Functions.interpret e b req))
              history st1) = Spread.ShowError (k0 :: msg) /\
         Spread.resultText
           (Spread.interpretEnd (deliver wire (Functions.interpret e b req))
              history st1) = None) /\
  (forall req k key k' pr status text data t0 t,
     Functions.method req = str "POST" ->
     Functions.fields req =
       (Functions.VString (k' :: pr), Functions.VString (str "openai")) ->
     Functions.OPENAI_API_KEY e = Some (k :: key) ->
     Functions.openai b (k :: key)
       (default [] (Functions.or_else (Functions.OPENAI_MODEL e)
                      (Some (str "gpt-4o-mini")))) (k' :: pr) =
       Functions.OpenAIResponse true status text (inr data) ->
     Functions.output_text data = Some (t0 :: t) ->
     Functions.interpret e b req =
       Functions.json_ok (Functions.TextBody (t0 :: t)) /\
     forall st1,
       Spread.errorText st1 = None -> trim (t0 :: t) <> [] ->
       Spread.shown
         (Spread.interpretEnd (deliver wire (Functions.interpret e b req))
            None st1) = Spread.ShowResult (trim (t0 :: t))).
Proof.
  intros Hc Hp. split; [|split].
  - destruct (interpretBegin_sends st Hc) as (cards & Hcards & Hlen & Hbegin).
    eexists _, _. split; [exact Hbegin|].
    set (rq := Spread.mkRequest _ _) in *. set (st1 := Spread.setResultText _ _) in *.
    pose proof (interpret_post e b rq c p Hp eq_refl (prompt_cons _ _)) as Hi.
    destruct (modelCandidates_cons e) as (m & ms & Hm).
    split.
    + intros r Hr Hne. rewrite Hm in Hi. cbn [Functions.tryModels] in Hi.
      rewrite Hr in Hi.
      assert (truthy (Functions.vertex_output r) = true) as Htr
        by (by apply truthy_true).
      rewrite Htr in Hi. cbn [negb] in Hi. rewrite Htr in Hi. cbn [negb] in Hi.
      split; [exact Hi|]. unfold consult. rewrite Hbegin, Hi.
      unfold deliver, data_of, Functions.json_ok.
      cbn [Functions.status Functions.body].
      rewrite interpretEnd_text by (done || lia).
      assert (trim (Functions.vertex_output r) = Functions.vertex_output r) as ->
        by apply trim_idemp.
      by apply shown_result.
    + intros Hfail history.
      destruct (tryModels_all_fail
                  (fun n m => Functions.generateContent b n (c :: p)
                                (Functions.location e) m (Spread.req_prompt rq))
                  0 (Functions.modelCandidates e) [] None Hfail)
        as [[err Ht]|[last Ht]]; rewrite Ht in Hi; cbn [truthy negb] in Hi.
      all: unfold Functions.server_error in Hi.
      all: destruct (interpretEnd_not_ok st1 500
             (Some (wire (Functions.body (Functions.interpret e b (post rq)))))
             (inr (data_of (Functions.body (Functions.interpret e b (post rq)))))
             history ltac:(lia)) as (k & msg & Hend).
      all: destruct (shown_interpretFail st1 k msg eq_refl) as (Hs & Hr & Hn).
      all: eexists _, k, msg; split; [exact Hi|].
      all: unfold consult; rewrite Hbegin; unfold deliver.
      all: rewrite Hi in Hend |- *; cbn [Functions.status Functions.body] in *.
      all: rewrite Hend; done.
  - intros req k key k' pr status text json Hm Hf Hkey Hres.
    assert (Functions.interpret e b req =
            Functions.mkResponse 500
              (Functions.ErrorBody
                 (str "OpenAI request failed: " ++
                  num_to_string (Z.to_nat status) ++
                  str " " ++ default [] text))) as Hi.
    { unfold Functions.interpret. rewrite decide_False by (intros H; by apply H).
      rewrite Hp, Hf. cbn [Functions.is_string].
      rewrite bool_decide_eq_true_2 by done. rewrite Hkey, Hres. reflexivity. }
    split; [exact Hi|]. intros history st1 Hnone. rewrite Hi. unfold deliver.
    cbn [Functions.status Functions.body].
    match goal with
    | |- context [Spread.interpretEnd (Spread.FetchResponse 500 ?t ?j) _ _] =>
        destruct (interpretEnd_not_ok st1 500 t j history ltac:(lia))
          as (k0 & msg & Hend)
    end.
    exists k0, msg. rewrite Hend.
    destruct (shown_interpretFail st1 k0 msg Hnone) as (Hs & Hr & _). done.
  - intros req k key k' pr status text data t0 t Hm Hf Hkey Hres Hout.
    assert (Functions.interpret e b req =
            Functions.json_ok (Functions.TextBody (t0 :: t))) as Hi.
    { unfold Functions.interpret. rewrite decide_False by (intros H; by apply H).
      rewrite Hp, Hf. cbn [Functions.is_string].
      rewrite bool_decide_eq_true_2 by done. rewrite Hkey, Hres.
      cbn [negb]. unfold Functions.openai_output. rewrite Hout. reflexivity. }
    split; [exact Hi|]. intros st1 Herr Hne. rewrite Hi.
    unfold deliver, data_of, Functions.json_ok.
    cbn [Functions.status Functions.body].
    rewrite interpretEnd_text by (done || lia).
    by apply shown_result.
Qed.

Lemma interpretation_end_to_end_witness :
  Spread.canInterpret (Spread.seen sample_reading) = true /\
  Functions.project Functions.sample_environment = Some (str "ogitarot") /\
  Functions.interpret Functions.sample_environment Functions.padded_backends
    (post sample_request) =
    Functions.json_ok (Functions.TextBody (str "The Fool")) /\
  Spread.shown
    (consult sample_wire Functions.sample_environment Functions.padded_backends
       None sample_reading) = Spread.ShowResult (str "The Fool") /\
  (exists k msg,
     Spread.shown
       (consult sample_wire Functions.sample_environment
          Functions.failing_backends None sample_reading) =
       Spread.ShowError (k :: msg)).
Proof.
  assert (Spread.canInterpret (Spread.seen sample_reading) = true) as Hc
    by (vm_compute; reflexivity).
  assert (Functions.project Functions.sample_environment =
          Some (111 :: str "gitarot")) as Hp by (vm_compute; reflexivity).
  split; [exact Hc|]. split; [exact Hp|].
  destruct (interpretation_end_to_end sample_wire Functions.sample_environment
              Functions.padded_backends sample_reading 111 (str "gitarot") Hc Hp)
    as [(rq & st1 & Hbegin & Hok & _) _].
  destruct (interpretation_end_to_end sample_wire Functions.sample_environment
              Functions.failing_backends sample_reading 111 (str "gitarot") Hc Hp)
    as [(rq' & st1' & Hbegin' & _ & Hfail) _].
  assert (rq = sample_request) as ->.
  { unfold sample_request. by rewrite Hbegin. }
  destruct (Hok [Some [Some (str " The Fool ")]]) as (Hi & Hs & _).
  - intros model. reflexivity.
  - vm_compute. discriminate.
  - assert (Functions.vertex_output [Some [Some (str " The Fool ")]] =
            str "The Fool") as E by (vm_compute; reflexivity).
    rewrite E in Hi, Hs. split; [exact Hi|]. split; [exact Hs|].
    destruct (Hfail ltac:(intros n model; eexists; reflexivity) None)
      as (m & k & msg & _ & Hs' & _).
    eauto.
Defined.

(** C5, as stated, fails: the text the backend produced, [" The Fool "],
    is neither what the endpoint returns nor what the panel shows; both
    are the text without the blanks at its ends. *)
Lemma padded_text_not_verbatim :
  Functions.generateContent Functions.padded_backends 0 (str "ogitarot")
    (Functions.location Functions.sample_environment)
    (str "gemini-1.5-flash-002") (Spread.req_prompt sample_request) =
    inr [Some [Some (str " The Fool ")]] /\
  Functions.interpret Functions.sample_environment Functions.padded_backends
    (post sample_request) <>
    Functions.json_ok (Functions.TextBody (str " The Fool ")) /\
  Spread.shown
    (consult sample_wire Functions.sample_environment Functions.padded_backends
       None sample_reading) <> Spread.ShowResult (str " The Fool ").
Proof.
  split; [reflexivity|]. split; vm_compute; discriminate.
Qed.

(** * Properties of the further code

    ** The shuffle, for any array *)

Section ShuffleMore.
Context {T R : Type} (rng : R -> number * R).
Implicit Types (h : heap T) (a : loc) (s : R).

Lemma loop_array_state (i : nat) (A : js_array T) s :
  (loop_array rng i (A, s)).2 = Nat.iter i (fun s => (rng s).2) s.
Proof.
  revert A s. induction i as [|i IH]; intros A s; [done|].
  cbn [loop_array]. unfold swap_array at 1. destruct (rng s) as [r s1] eqn:E.
  cbv zeta. rewrite IH. rewrite Nat.iter_succ_r. by rewrite E.
Qed.

Lemma len_spread (A : js_array T) : len (spread A) = Z.of_nat (Z.to_nat (len A)).
Proof.
  unfold spread, array_of, items. cbn [len].
  by rewrite length_fmap, length_seqZ.
Qed.

Lemma shuffleSeeded_state h arr s A :
  h !! arr = Some A ->
  exists h' a,
    shuffleSeeded rng h arr s =
      Some (h', a, Nat.iter (Z.to_nat (len A) - 1) (fun s => (rng s).2) s).
Proof.
  intros HA. unfold shuffleSeeded, alloc. rewrite HA.
  rewrite lookup_insert_eq.
  rewrite (shuffle_loop_array rng _ _ _ s (spread A)) by apply lookup_insert_eq.
  rewrite loop_array_state, len_spread.
  replace (Z.to_nat (Z.of_nat (Z.to_nat (len A)) - 1))
    with (Z.to_nat (len A) - 1)%nat by lia.
  eauto.
Qed.

End ShuffleMore.

(** X1. For every array of at most [2^21] elements and every generator
    whose numbers are multiples of [2^-32] in [[0, 1)], as those of a
    32-bit generator divided by [4294967296] are, [shuffleSeeded]
    returns an array of the same length whose elements are a
    permutation of the elements of its argument (a hole of the argument
    counts as [undefined]).  Every product [r * (i + 1)] the loop forms
    is then a multiple of [2^-32] below [2^53 / 2^32]: a number with at
    most 53 significant bits, which the multiplication of the code
    gives without rounding. *)
Theorem shuffleSeeded_permutes_any_array
    {T R : Type} (rng : R -> number * R) (h : heap T) (arr : loc) (s : R)
    (A : js_array T) :
  (forall s, exists u q,
      (rng s).1 = Num q /\ (q == u # 4294967296)%Q /\ 0 <= u < 2 ^ 32) ->
  h !! arr = Some A ->
  0 <= len A <= 2 ^ 21 ->
  (exists h' a s' A',
    shuffleSeeded rng h arr s = Some (h', a, s') /\
    h' !! a = Some A' /\
    len A' = len A /\
    items A' ≡ₚ items A) /\
  forall s' i, 0 <= i < len A ->
    exists m q,
      times (rng s').1 (i + 1) = Num q /\
      (q == m # 4294967296)%Q /\ 0 <= m < 2 ^ 53.
Proof.
  intros Hr HA Hl. split.
  - apply shuffleSeeded_perm; [|done|lia].
    intros s0. destruct (Hr s0) as (u & q & Hq & Heq & Hu).
    exists q. split; [done|]. rewrite Heq. unfold Qle, Qlt. cbn. lia.
  - intros s' i Hi. destruct (Hr s') as (u & q & -> & Heq & Hu).
    exists (u * (i + 1)), (q * inject_Z (i + 1))%Q. split; [reflexivity|].
    split.
    + rewrite Heq. unfold Qeq, Qmult, inject_Z. cbn. lia.
    + change (2 ^ 53) with (2 ^ 32 * 2 ^ 21). nia.
Qed.

Lemma shuffleSeeded_permutes_any_array_witness :
  (exists h' a s' A',
    shuffleSeeded half_rng
      {[ 1%positive := array_of [Some 10; None; Some 30; Some 40] ]}
      1%positive 0 = Some (h', a, s') /\
    h' !! a = Some A' /\
    len A' = len (array_of [Some 10; None; Some 30; Some 40]) /\
    items A' ≡ₚ items (array_of [Some 10; None; Some 30; Some 40])) /\
  forall s' i, 0 <= i < len (array_of [Some 10; None; Some 30; Some 40]) ->
    exists m q,
      times (half_rng s').1 (i + 1) = Num q /\
      (q == m # 4294967296)%Q /\ 0 <= m < 2 ^ 53.
Proof.
  apply (shuffleSeeded_permutes_any_array half_rng
           {[ 1%positive := array_of [Some 10; None; Some 30; Some 40] ]}
           1%positive 0 (array_of [Some 10; None; Some 30; Some 40])).
  - intros s. exists 2147483648, (1 # 2)%Q. split; [reflexivity|].
    split; [reflexivity|]. split; [discriminate|reflexivity].
  - reflexivity.
  - split; [discriminate|discriminate].
Defined.

(** X2. [shuffleSeeded] calls the generator once for every element of
    its argument but the first, and not at all for an empty array or an
    array of one element, whatever the numbers returned: the generator
    is left in the state that many calls lead to. *)
Theorem shuffleSeeded_consumes
    {T R : Type} (rng : R -> number * R) (h : heap T) (arr : loc) (s : R)
    (A : js_array T) :
  h !! arr = Some A ->
  exists h' a,
    shuffleSeeded rng h arr s =
      Some (h', a, Nat.iter (Z.to_nat (len A) - 1) (fun s => (rng s).2) s).
Proof. apply shuffleSeeded_state. Qed.

Lemma shuffleSeeded_consumes_witness :
  exists h' a,
    shuffleSeeded wild_rng
      {[ 1%positive := array_of [Some 10; Some 20; Some 30] ]} 1%positive 5 =
      Some (h', a, Nat.iter (Z.to_nat (len (array_of [Some 10; Some 20; Some 30])) - 1)
                     (fun s => (wild_rng s).2) 5).
Proof.
  apply (shuffleSeeded_consumes wild_rng
           {[ 1%positive := array_of [Some 10; Some 20; Some 30] ]} 1%positive 5
           (array_of [Some 10; Some 20; Some 30])).
  reflexivity.
Defined.

(** ** The seeded generator *)

Lemma mulberry32_state (s : Z) : (mulberry32 s).2 = s + 1831565813.
Proof. reflexivity. Qed.

Lemma mulberry32_iter (k : nat) (s : Z) :
  Nat.iter k (fun s => (mulberry32 s).2) s = s + Z.of_nat k * 1831565813.
Proof.
  induction k as [|k IH]; [cbn; lia|].
  rewrite Nat.iter_succ, IH, mulberry32_state. lia.
Qed.

Lemma makeSeededRng_range (seed : js_string) : 0 <= makeSeededRng seed < 2 ^ 32.
Proof. unfold makeSeededRng, xmur3_next. cbn [fst]. apply ushr_0_range. Qed.

(** X3. Whatever the seed string, the generator starts the shuffle of
    the deck from a 32-bit state, is called 77 times and ends in the
    start state plus 77 times [0x6d2b79f5]; the variable [seed] of
    [mulberry32] thus stays below [2^53], where the additions on it are
    exact. *)
Theorem seeded_state_after_shuffle
    (seed : js_string) (h : heap TarotCard) (b : loc) :
  h !! b = Some baseDeckArray ->
  0 <= makeSeededRng seed < 2 ^ 32 /\
  makeSeededRng seed + 77 * 1831565813 < 2 ^ 53 /\
  exists h' a,
    shuffleSeeded mulberry32 h b (makeSeededRng seed) =
      Some (h', a, makeSeededRng seed + 77 * 1831565813).
Proof.
  intros Hb. pose proof (makeSeededRng_range seed) as Hr.
  split; [done|]. split; [lia|].
  destruct (shuffleSeeded_state mulberry32 h b (makeSeededRng seed) _ Hb)
    as (h' & a & Hrun).
  exists h', a. rewrite Hrun, mulberry32_iter. reflexivity.
Qed.

Lemma seeded_state_after_shuffle_witness :
  0 <= makeSeededRng sample_seed < 2 ^ 32 /\
  makeSeededRng sample_seed + 77 * 1831565813 < 2 ^ 53 /\
  exists h' a,
    shuffleSeeded mulberry32 sample_store 1%positive (makeSeededRng sample_seed) =
      Some (h', a, makeSeededRng sample_seed + 77 * 1831565813).
Proof.
  apply (seeded_state_after_shuffle sample_seed sample_store 1%positive).
  vm_compute. reflexivity.
Defined.

(** ** The component: its deck *)

Section DeckFacts.
Import Spread.
Implicit Types (st : state) (h : heap TarotCard).

Lemma memoDeck_sound h b s :
  h !! b = Some baseDeckArray ->
  (memoDeck h b s).1 !! b = Some baseDeckArray /\
  exists A, (memoDeck h b s).1 !! (memoDeck h b s).2 = Some A /\
            items A = shuffled s.
Proof.
  intros Hb. unfold memoDeck.
  destruct (shuffleSeeded_frame_gen mulberry32 h b (makeSeededRng s) _ Hb)
    as (h' & a & s' & Hrun & Hfresh & _ & Hframe).
  destruct (shuffleSeeded_result mulberry32 h b (makeSeededRng s) _ Hb)
    as (h2 & a2 & s2 & Hrun2 & Hres).
  rewrite Hrun in Hrun2. injection Hrun2 as <- <- <-.
  rewrite Hrun. cbn [fst snd]. split.
  - rewrite Hframe by congruence. done.
  - eexists. split; [exact Hres|]. unfold shuffled. reflexivity.
Qed.

Lemma mount_sound s0 : memo_sound (mount s0).
Proof.
  unfold mount, alloc.
  set (b := fresh (dom (∅ : gmap loc (js_array TarotCard)))).
  assert ((<[b:=baseDeckArray]> ∅ : gmap loc (js_array TarotCard)) !! b
          = Some baseDeckArray) as Hb by apply lookup_insert_eq.
  destruct (memoDeck_sound _ b s0 Hb) as [H1 H2].
  destruct (memoDeck _ b s0) as [h d]. cbn [fst snd] in *. by split.
Qed.

Lemma setSeed_sound s st : memo_sound st -> memo_sound (setSeed s st).
Proof.
  intros [Hb Hd]. unfold setSeed. case_decide; [by split|].
  destruct (memoDeck_sound (store st) (baseDeck st) s Hb) as [H1 H2].
  destruct (memoDeck (store st) (baseDeck st) s) as [h d].
  cbn [fst snd] in *. by split.
Qed.

Lemma pick_memo cardId st :
  store (pick cardId st) = store st /\ baseDeck (pick cardId st) = baseDeck st /\
  deck (pick cardId st) = deck st /\ seed (pick cardId st) = seed st.
Proof. unfold pick. repeat case_match; done. Qed.

Lemma interpretBegin_memo st :
  store (interpretBegin st).1 = store st /\
  baseDeck (interpretBegin st).1 = baseDeck st /\
  deck (interpretBegin st).1 = deck st /\ seed (interpretBegin st).1 = seed st.
Proof. unfold interpretBegin. repeat case_match; done. Qed.

Lemma interpretEnd_memo r w st :
  store (interpretEnd r w st) = store st /\
  baseDeck (interpretEnd r w st) = baseDeck st /\
  deck (interpretEnd r w st) = deck st /\ seed (interpretEnd r w st) = seed st.
Proof. unfold interpretEnd. repeat case_match; done. Qed.

Lemma memo_sound_ext st st' :
  store st' = store st -> baseDeck st' = baseDeck st ->
  deck st' = deck st -> seed st' = seed st ->
  memo_sound st -> memo_sound st'.
Proof. unfold memo_sound. by intros -> -> -> ->. Qed.

Lemma reachable_sound st : reachable st -> memo_sound st.
Proof.
  induction 1 as [s0|e st Hst IH]; [apply mount_sound|].
  destruct e; cbn [step].
  - by apply (memo_sound_ext st).
  - destruct (pick_memo cardId st) as (?&?&?&?). by apply (memo_sound_ext st).
  - unfold newSeed. apply (memo_sound_ext (setSeed s st)); try done.
    by apply setSeed_sound.
  - by apply (memo_sound_ext st).
  - rewrite fullReset_eq. by apply (memo_sound_ext st).
  - destruct (interpretBegin_memo st) as (?&?&?&?). by apply (memo_sound_ext st).
  - destruct (interpretEnd_memo r history st) as (?&?&?&?).
    by apply (memo_sound_ext st).
  - by apply (memo_sound_ext st).
Qed.

Lemma shuffled_perm (s : js_string) :
  exists cards,
    shuffled s = Some <$> cards /\ cards ≡ₚ buildTarotDeck78.
Proof.
  assert (({[ 1%positive := baseDeckArray ]} : gmap loc (js_array TarotCard))
            !! 1%positive = Some baseDeckArray) as Hb by reflexivity.
  destruct (shuffleSeeded_perm mulberry32 mulberry32_range _ 1%positive
              (makeSeededRng s) baseDeckArray Hb)
    as (h' & a & s' & A' & Hrun & Ha & _ & Hperm); [done|].
  destruct (shuffleSeeded_result mulberry32 _ 1%positive (makeSeededRng s) _ Hb)
    as (h2 & a2 & s2 & Hrun2 & Hres).
  rewrite Hrun in Hrun2. injection Hrun2 as <- <- <-.
  rewrite Ha in Hres. apply (inj Some) in Hres.
  unfold baseDeckArray in Hperm. rewrite items_array_of in Hperm.
  apply Permutation_map_inv in Hperm as (cards & Hcards & Hp).
  exists cards. split; [|by symmetry].
  unfold shuffled. rewrite <- Hres. exact Hcards.
Qed.

Lemma reachable_deckCards st : reachable st -> deckCards st = shuffled (seed st).
Proof.
  intros [_ (A & HA & Hitems)]%reachable_sound.
  unfold deckCards. by rewrite HA.
Qed.

End DeckFacts.

(** ** The component: the picked cards *)

Section PickedFacts.
Import Spread.
Implicit Types (st : state) (cards : list TarotCard).

Lemma deckMap_fmap_Some cards :
  deckMap (Some <$> cards) =
    Some (list_to_map (reverse ((fun c => (id c, c)) <$> cards))).
Proof.
  unfold deckMap.
  assert (forall m0 : gmap js_string TarotCard,
    foldl (fun om oc =>
             match om, oc with
             | Some m, Some c => Some (<[id c := c]> m)
             | _, _ => None
             end) (Some m0) (Some <$> cards) =
    Some (foldr (fun p (m : gmap js_string TarotCard) => <[p.1 := p.2]> m) m0
            (reverse ((fun c => (id c, c)) <$> cards)))) as H.
  { induction cards as [|c cs IH]; intros m0; [done|].
    cbn [fmap list_fmap foldl]. rewrite IH.
    rewrite reverse_cons, foldr_app. done. }
  apply H.
Qed.

Lemma deckMap_lookup cards m i c :
  NoDup (id <$> cards) ->
  deckMap (Some <$> cards) = Some m ->
  m !! i = Some c <-> (c ∈ cards) /\ id c = i.
Proof.
  intros Hnd. rewrite deckMap_fmap_Some. intros [= <-].
  rewrite <- elem_of_list_to_map.
  - rewrite elem_of_reverse, list_elem_of_fmap. split.
    + intros (c' & [= -> ->] & Hin). done.
    + intros [Hin <-]. eauto.
  - rewrite fmap_reverse, reverse_Permutation.
    rewrite <- list_fmap_compose. exact Hnd.
Qed.

Lemma ids_shuffled cards :
  cards ≡ₚ buildTarotDeck78 -> NoDup (id <$> cards).
Proof. intros ->. apply deck_ids_NoDup. Qed.

(** The cards a list of ids picks from a deck map. *)
Lemma omap_deckMap cards m seed ids :
  cards ≡ₚ buildTarotDeck78 ->
  deckMap (Some <$> cards) = Some m ->
  let l := omap (fun i =>
                   match m !! i with
                   | Some c => Some (mkPicked c (isReversed seed (id c)))
                   | None => None
                   end) ids in
  (fun p => id (card p)) <$> l =
    filter (fun i => i ∈ id <$> buildTarotDeck78) ids /\
  Forall (fun p => (card p ∈ buildTarotDeck78) /\
                   reversed p = isReversed seed (id (card p))) l.
Proof.
  intros Hp Hm. cbv zeta. pose proof (ids_shuffled cards Hp) as Hnd.
  induction ids as [|i ids [IH1 IH2]]; [by split|].
  cbn [omap list_omap]. rewrite filter_cons.
  destruct (m !! i) as [c|] eqn:Hi.
  - apply (deckMap_lookup cards m i c Hnd Hm) in Hi as [Hin <-].
    rewrite Hp in Hin. rewrite decide_True by (by apply list_elem_of_fmap_2).
    rewrite fmap_cons. cbn [card]. split; [by f_equal|].
    constructor; [|done]. cbn [card reversed]. done.
  - rewrite decide_False; [done|].
    intros (c & -> & Hin)%list_elem_of_fmap. rewrite <- Hp in Hin.
    assert (m !! id c = Some c) as E
      by (by apply (deckMap_lookup cards m (id c) c Hnd Hm)).
    congruence.
Qed.

End PickedFacts.

Lemma pickedCards_spec_aux (st : Spread.state) :
  Spread.reachable st ->
  exists l,
    Spread.pickedCards st = Some l /\
    (fun p => id (card p)) <$> l =
      filter (fun i => i ∈ id <$> buildTarotDeck78) (Spread.pickedIds st) /\
    Forall (fun p => (card p ∈ buildTarotDeck78) /\
                     reversed p = isReversed (Spread.seed st) (id (card p))) l.
Proof.
  intros Hst. unfold Spread.pickedCards.
  rewrite reachable_deckCards by done.
  destruct (shuffled_perm (Spread.seed st)) as (cards & -> & Hp).
  rewrite deckMap_fmap_Some. eexists. split; [reflexivity|].
  apply (omap_deckMap cards); [done|apply deckMap_fmap_Some].
Qed.

(** X4. In every state the component can reach, the base deck is in the
    store as [buildTarotDeck78] built it, and the deck on display holds
    the 78 cards, each once, in an order that is a function of the
    current seed alone. *)
Theorem deck_on_display (st : Spread.state) :
  Spread.reachable st ->
  Spread.store st !! Spread.baseDeck st = Some baseDeckArray /\
  Spread.deckCards st = shuffled (Spread.seed st) /\
  exists cards,
    Spread.deckCards st = Some <$> cards /\
    cards ≡ₚ buildTarotDeck78 /\ NoDup cards.
Proof.
  intros Hst. split; [by apply reachable_sound|].
  split; [by apply reachable_deckCards|].
  rewrite reachable_deckCards by done.
  destruct (shuffled_perm (Spread.seed st)) as (cards & E & Hp).
  exists cards. split; [done|]. split; [done|]. rewrite Hp. apply deck_NoDup.
Qed.

Lemma deck_on_display_witness :
  Spread.store sample_picking !! Spread.baseDeck sample_picking =
    Some baseDeckArray /\
  Spread.deckCards sample_picking = shuffled (Spread.seed sample_picking) /\
  exists cards,
    Spread.deckCards sample_picking = Some <$> cards /\
    cards ≡ₚ buildTarotDeck78 /\ NoDup cards.
Proof.
  apply (deck_on_display sample_picking).
  exact (Spread.reachable_step Spread.Render _
           (Spread.reachable_step (Spread.Pick _) _
              (Spread.reachable_step Spread.Render _
                 (Spread.reachable_step (Spread.NewSeed _) _
                    (Spread.reachable_mount _))))).
Defined.

(** X5. In every reachable state [pickedCards] is defined; it lists, in
    the order of picking, the cards of the deck whose ids are picked (an
    id that is no card's is skipped), each with the flag [isReversed]
    gives its id under the current seed. *)
Theorem pickedCards_spec (st : Spread.state) :
  Spread.reachable st ->
  exists l,
    Spread.pickedCards st = Some l /\
    (fun p => id (card p)) <$> l =
      filter (fun i => i ∈ id <$> buildTarotDeck78) (Spread.pickedIds st) /\
    Forall (fun p => (card p ∈ buildTarotDeck78) /\
                     reversed p = isReversed (Spread.seed st) (id (card p))) l.
Proof. apply pickedCards_spec_aux. Qed.

Lemma pickedCards_spec_witness :
  exists l,
    Spread.pickedCards sample_picking = Some l /\
    (fun p => id (card p)) <$> l =
      filter (fun i => i ∈ id <$> buildTarotDeck78)
        (Spread.pickedIds sample_picking) /\
    Forall (fun p => (card p ∈ buildTarotDeck78) /\
                     reversed p =
                       isReversed (Spread.seed sample_picking) (id (card p))) l.
Proof.
  apply (pickedCards_spec sample_picking).
  exact (Spread.reachable_step Spread.Render _
           (Spread.reachable_step (Spread.Pick _) _
              (Spread.reachable_step Spread.Render _
                 (Spread.reachable_step (Spread.NewSeed _) _
                    (Spread.reachable_mount _))))).
Defined.

(** ** The component: what the rendered elements allow *)

Section UiFacts.
Import Spread.
Implicit Types (st : state) (allowed : event -> bool).

Lemma ui_reachable_reachable allowed st :
  ui_reachable_by allowed st -> reachable st.
Proof.
  induction 1 as [s0|e st _ IH _ _]; [apply reachable_mount|].
  apply (reachable_step Render). by apply reachable_step.
Qed.

(** After a render the closures read the cells as they are. *)
Lemma ui_in_sync allowed st : ui_reachable_by allowed st -> seen st = st.
Proof.
  destruct 1 as [s0|e st _ _ _]; [|reflexivity].
  unfold mount. destruct (alloc _ _) as [h b].
  by destruct (memoDeck h b s0) as [h' d].
Qed.

Lemma pickedIds_render st : pickedIds (render st) = pickedIds st.
Proof. reflexivity. Qed.

Lemma pick_flags cardId st :
  isDeckVisible (pick cardId st) = isDeckVisible st /\
  showInitialCards (pick cardId st) = showInitialCards st.
Proof. unfold pick. repeat case_match; done. Qed.

Lemma interpretBegin_flags st :
  isDeckVisible (interpretBegin st).1 = isDeckVisible st /\
  showInitialCards (interpretBegin st).1 = showInitialCards st.
Proof. unfold interpretBegin. cbv zeta. repeat case_match; done. Qed.

Lemma interpretEnd_flags r w st :
  isDeckVisible (interpretEnd r w st) = isDeckVisible st /\
  showInitialCards (interpretEnd r w st) = showInitialCards st.
Proof. unfold interpretEnd. repeat case_match; done. Qed.

Lemma mount_fields s0 :
  pickedIds (mount s0) = [] /\ isDeckVisible (mount s0) = false /\
  showInitialCards (mount s0) = true.
Proof.
  unfold mount. destruct (alloc _ _) as [h b].
  destruct (memoDeck h b s0) as [h' d]. done.
Qed.

(** Every id of the deck is the id of a card on display. *)
Lemma ui_deck_card allowed st cardId :
  ui_reachable_by allowed st ->
  cardId ∈ id <$> buildTarotDeck78 ->
  exists c, Some c ∈ deckCards (seen st) /\ id c = cardId.
Proof.
  intros Hui (c & -> & Hin)%list_elem_of_fmap.
  rewrite (ui_in_sync allowed st Hui).
  rewrite (reachable_deckCards st (ui_reachable_reachable allowed st Hui)).
  destruct (shuffled_perm (seed st)) as (cards & -> & Hp).
  exists c. split; [|done]. apply list_elem_of_fmap_2. by rewrite Hp.
Qed.

(** The invariant of the picked ids, when a render follows every
    event. *)
Lemma ui_picked allowed st :
  ui_reachable_by allowed st ->
  NoDup (pickedIds st) /\ (length (pickedIds st) <= drawCount)%nat /\
  Forall (fun i => i ∈ id <$> buildTarotDeck78) (pickedIds st).
Proof.
  induction 1 as [s0|e st Hst (Hnd & Hlen & Hin) _ Hoff].
  - destruct (mount_fields s0) as (-> & _).
    split; [constructor|]. split; [cbn; lia|constructor].
  - pose proof (ui_in_sync allowed st Hst) as Hsync.
    unfold act. rewrite pickedIds_render. destruct e; cbn [step].
    + done.
    + destruct (pick_cases cardId st) as [[-> _]|(-> & Hnin & Hlt)]; [done|].
      rewrite Hsync in Hnin, Hlt. cbn [pickedIds setPickedIds].
      split; [|split].
      * apply NoDup_app. split; [done|]. split; [|apply NoDup_singleton].
        intros x Hx Hx'. apply list_elem_of_singleton in Hx'. by subst.
      * rewrite length_app. cbn. lia.
      * apply Forall_app. split; [done|]. constructor; [|constructor].
        destruct Hoff as (_ & _ & (c & Hc & <-) & _ & _).
        rewrite Hsync in Hc.
        rewrite (reachable_deckCards st (ui_reachable_reachable allowed st Hst))
          in Hc.
        destruct (shuffled_perm (seed st)) as (cards & E & Hp).
        rewrite E in Hc. apply list_elem_of_fmap in Hc as (c' & [= <-] & Hc).
        rewrite Hp in Hc. by apply list_elem_of_fmap_2.
    + cbn. split; [constructor|]. split; [lia|constructor].
    + done.
    + rewrite fullReset_eq. cbn. split; [constructor|]. split; [lia|constructor].
    + by rewrite pickedIds_interpretBegin.
    + by rewrite pickedIds_interpretEnd.
    + done.
Qed.

Lemma filter_Forall_id {A} (P : A -> Prop) `{!forall x, Decision (P x)}
    (l : list A) :
  Forall P l -> filter P l = l.
Proof.
  induction 1 as [|x l Hx Hl IH]; [done|].
  rewrite filter_cons, decide_True by done. by f_equal.
Qed.

(** As long as the start-over button is not used. *)
Lemma ui_visibility st :
  ui_reachable_before_reset st ->
  showInitialCards st = negb (isDeckVisible st) /\
  (pickedIds st <> [] -> isDeckVisible st = true).
Proof.
  induction 1 as [s0|e st Hst [IH1 IH2] Hall Hoff].
  - destruct (mount_fields s0) as (-> & -> & ->). done.
  - pose proof (ui_in_sync _ st Hst) as Hsync.
    unfold act. destruct e; cbn [step]; try discriminate Hall.
    + done.
    + change (showInitialCards (render (pick cardId st)))
        with (showInitialCards (pick cardId st)).
      change (isDeckVisible (render (pick cardId st)))
        with (isDeckVisible (pick cardId st)).
      destruct (pick_flags cardId st) as [-> ->].
      destruct Hoff as (Hv & _). rewrite Hsync in Hv.
      split; [done|]. by intros _.
    + done.
    + done.
    + change (showInitialCards (render (interpretBegin st).1))
        with (showInitialCards (interpretBegin st).1).
      change (isDeckVisible (render (interpretBegin st).1))
        with (isDeckVisible (interpretBegin st).1).
      change (pickedIds (render (interpretBegin st).1))
        with (pickedIds (interpretBegin st).1).
      destruct (interpretBegin_flags st) as [-> ->].
      by rewrite pickedIds_interpretBegin.
    + change (showInitialCards (render (interpretEnd r history st)))
        with (showInitialCards (interpretEnd r history st)).
      change (isDeckVisible (render (interpretEnd r history st)))
        with (isDeckVisible (interpretEnd r history st)).
      change (pickedIds (render (interpretEnd r history st)))
        with (pickedIds (interpretEnd r history st)).
      destruct (interpretEnd_flags r history st) as [-> ->].
      by rewrite pickedIds_interpretEnd.
    + done.
Qed.

End UiFacts.

(** The elements of a dealt deck offer every card that is not picked,
    while fewer than five are. *)
Ltac card_offered H :=
  split; [vm_compute; reflexivity|];
  split; [vm_compute; reflexivity|];
  split; [apply (ui_deck_card _ _ _ H); by_evaluation|];
  split; [by_evaluation|vm_compute; reflexivity].

Lemma sample_reading_ui : ui_reachable sample_reading.
Proof.
  assert (ui_reachable sample_dealt) as H0.
  { refine (ui_step _ (Spread.NewSeed _) _ (ui_mount _ _) eq_refl _).
    vm_compute. reflexivity. }
  assert (ui_reachable sample_picking) as H1.
  { refine (ui_step _ (Spread.Pick _) _ H0 eq_refl _). card_offered H0. }
  assert (ui_reachable (act (Spread.Pick (str "M-0")) sample_picking)) as H2.
  { refine (ui_step _ (Spread.Pick _) _ H1 eq_refl _). card_offered H1. }
  assert (ui_reachable
            (act (Spread.Pick (str "m-Wands-10"))
               (act (Spread.Pick (str "M-0")) sample_picking))) as H3.
  { refine (ui_step _ (Spread.Pick _) _ H2 eq_refl _). card_offered H2. }
  assert (ui_reachable
            (act (Spread.Pick (str "M-13"))
               (act (Spread.Pick (str "m-Wands-10"))
                  (act (Spread.Pick (str "M-0")) sample_picking)))) as H4.
  { refine (ui_step _ (Spread.Pick _) _ H3 eq_refl _). card_offered H3. }
  assert (ui_reachable
            (act (Spread.Pick (str "m-Cups-Queen"))
               (act (Spread.Pick (str "M-13"))
                  (act (Spread.Pick (str "m-Wands-10"))
                     (act (Spread.Pick (str "M-0")) sample_picking))))) as H5.
  { refine (ui_step _ (Spread.Pick _) _ H4 eq_refl _). card_offered H4. }
  exact (ui_step _ (Spread.TypeTopic _) _ H5 eq_refl I).
Defined.

(** X6. In every state reached through the elements the component
    renders, with a render after every event, the picked ids are
    pairwise distinct, at most five, and each the id of a card of the
    deck, so [pickedCards] has one card for each pick, in order; and
    interpretation is enabled exactly when the trimmed topic is not
    empty and five cards are picked. *)
Theorem interpretation_enabled_iff (st : Spread.state) :
  ui_reachable st ->
  NoDup (Spread.pickedIds st) /\
  (length (Spread.pickedIds st) <= 5)%nat /\
  Forall (fun i => i ∈ id <$> buildTarotDeck78) (Spread.pickedIds st) /\
  (exists l, Spread.pickedCards st = Some l /\
             (fun p => id (card p)) <$> l = Spread.pickedIds st) /\
  (Spread.canInterpret st = true <->
   trim (Spread.topic st) <> [] /\ length (Spread.pickedIds st) = 5%nat).
Proof.
  intros Hui. destruct (ui_picked _ st Hui) as (Hnd & Hle & Hin).
  pose proof (ui_reachable_reachable _ st Hui) as Hr.
  destruct (pickedCards_spec_aux st Hr) as (l & Hl & Hids & _).
  rewrite filter_Forall_id in Hids by done.
  split; [done|]. split; [done|]. split; [done|]. split; [eauto|].
  unfold Spread.canInterpret. rewrite Hl.
  assert (length l = length (Spread.pickedIds st)) as Hlen
    by (by rewrite <- Hids, length_fmap).
  rewrite andb_true_iff, bool_decide_eq_true, Hlen. unfold drawCount.
  assert ((0 <? js_length (trim (Spread.topic st))) = true <->
          trim (Spread.topic st) <> []) as ->; [|done].
  unfold js_length. destruct (trim (Spread.topic st)); cbn [length].
  - split; [discriminate|done].
  - split; [done|]. intros _. apply Z.ltb_lt. lia.
Qed.

Lemma interpretation_enabled_iff_witness :
  NoDup (Spread.pickedIds sample_reading) /\
  (length (Spread.pickedIds sample_reading) <= 5)%nat /\
  Forall (fun i => i ∈ id <$> buildTarotDeck78) (Spread.pickedIds sample_reading) /\
  (exists l, Spread.pickedCards sample_reading = Some l /\
             (fun p => id (card p)) <$> l = Spread.pickedIds sample_reading) /\
  (Spread.canInterpret sample_reading = true <->
   trim (Spread.topic sample_reading) <> [] /\
   length (Spread.pickedIds sample_reading) = 5%nat).
Proof.
  apply (interpretation_enabled_iff sample_reading). exact sample_reading_ui.
Defined.

(** X7. As long as the start-over button is not used, in every state
    reached through the rendered elements the start image is shown
    exactly while the deck is not visible, cards are picked only while
    the deck is visible, and no element other than that button hides a
    deck that is visible. *)
Theorem deck_stays_visible (st : Spread.state) :
  ui_reachable_before_reset st ->
  Spread.showInitialCards st = negb (Spread.isDeckVisible st) /\
  (Spread.pickedIds st <> [] -> Spread.isDeckVisible st = true) /\
  forall e, is_reset e = false -> offered e st ->
    Spread.isDeckVisible st = true ->
    Spread.isDeckVisible (act e st) = true.
Proof.
  intros Hui. destruct (ui_visibility st Hui) as [H1 H2].
  split; [done|]. split; [done|]. intros e He Hoff Hv.
  unfold act. destruct e; cbn [Spread.step]; try discriminate He.
  - exact Hv.
  - change (Spread.isDeckVisible (Spread.pick cardId st) = true).
    by destruct (pick_flags cardId st) as [-> _].
  - reflexivity.
  - exact Hv.
  - change (Spread.isDeckVisible (Spread.interpretBegin st).1 = true).
    by destruct (interpretBegin_flags st) as [-> _].
  - change (Spread.isDeckVisible (Spread.interpretEnd r history st) = true).
    by destruct (interpretEnd_flags r history st) as [-> _].
  - exact Hv.
Qed.

Lemma deck_stays_visible_witness :
  Spread.showInitialCards sample_shuffled =
    negb (Spread.isDeckVisible sample_shuffled) /\
  (Spread.pickedIds sample_shuffled <> [] ->
   Spread.isDeckVisible sample_shuffled = true) /\
  forall e, is_reset e = false -> offered e sample_shuffled ->
    Spread.isDeckVisible sample_shuffled = true ->
    Spread.isDeckVisible (act e sample_shuffled) = true.
Proof.
  apply (deck_stays_visible sample_shuffled).
  refine (ui_step _ (Spread.TypeTopic _) _ _ eq_refl I).
  refine (ui_step _ (Spread.NewSeed _) _ (ui_mount _ _) eq_refl _).
  vm_compute. reflexivity.
Defined.

(** ** The client side of a request *)

(** X8. Whatever [fetch] gives and whatever the write to the history
    does, the end of [interpret] leaves no request pending and the
    result panel open.  It records an error message and leaves the
    result alone; or, for a 2xx answer with a non-empty text, it records
    the trimmed text, and when the write to the history then throws it
    records the message of that error as well, so that the panel shows
    the error and not the text.  A 2xx answer whose text is only white
    space is recorded as an empty result: the panel then shows its
    placeholder, neither a result nor an error. *)
Theorem interpretEnd_settles (r : Spread.fetch_outcome)
    (history : option thrown) (st : Spread.state) :
  Spread.isInterpreting (Spread.interpretEnd r history st) = false /\
  Spread.isResultOpen (Spread.interpretEnd r history st) = true /\
  ((exists m, Spread.interpretEnd r history st = Spread.interpretFail m st) \/
   (exists status body err text,
      r = Spread.FetchResponse status body (inr (Spread.mkData (Some text) err)) /\
      200 <= status <= 299 /\ text <> [] /\
      Spread.resultText (Spread.interpretEnd r history st) = Some (trim text) /\
      match history with
      | None =>
          Spread.interpretEnd r history st =
            Spread.setIsInterpreting false
              (Spread.setIsResultOpen true
                 (Spread.setResultText (Some (trim text)) st)) /\
          (Spread.errorText st = None -> trim text = [] ->
           Spread.shown (Spread.interpretEnd r history st) = Spread.Placeholder)
      | Some e =>
          Spread.errorText (Spread.interpretEnd r history st) =
            Some (message_or_unknown e) /\
          (message_or_unknown e <> [] ->
           Spread.shown (Spread.interpretEnd r history st) =
             Spread.ShowError (message_or_unknown e))
      end)).
Proof.
  assert (forall m st, Spread.isInterpreting (Spread.interpretFail m st) = false /\
                       Spread.isResultOpen (Spread.interpretFail m st) = true)
    as Hfail by done.
  assert (forall status body json,
            ~ 200 <= status <= 299 ->
            exists m, Spread.interpretEnd (Spread.FetchResponse status body json)
                        history st
                      = Spread.interpretFail m st) as Hbad.
  { intros status body json Hs.
    destruct (interpretEnd_not_ok st status body json history Hs) as (c & m & E).
    eauto. }
  assert (forall status, 200 <= status <= 299 ->
            negb ((200 <=? status) && (status <=? 299)) = false) as Hgood.
  { intros status Hs. apply negb_false_iff, andb_true_iff. lia. }
  destruct r as [e|status body json].
  - destruct (Hfail (message_or_unknown e) st) as [H1 H2].
    split; [exact H1|]. split; [exact H2|]. left. eauto.
  - destruct (decide (200 <= status <= 299)) as [Hs|Hs].
    2:{ destruct (Hbad status body json Hs) as [m ->].
        destruct (Hfail m st) as [H1 H2]. split; [exact H1|]. split; [exact H2|].
        left. eauto. }
    destruct json as [e|[[text|] err]].
    + unfold Spread.interpretEnd. rewrite (Hgood status Hs).
      destruct (Hfail (message_or_unknown e) st) as [H1 H2].
      split; [exact H1|]. split; [exact H2|]. left. eauto.
    + destruct (decide (text = [])) as [->|Hne].
      * unfold Spread.interpretEnd. rewrite (Hgood status Hs).
        cbn [Spread.data_text Spread.data_error].
        change (negb (truthy (default [] (Some [])))) with true. cbv iota.
        match goal with |- context [Spread.interpretFail ?m st] =>
          destruct (Hfail m st) as [H1 H2] end.
        split; [exact H1|]. split; [exact H2|]. left. eauto.
      * pose proof (interpretEnd_text st status body text err history Hs Hne) as E.
        set (x := Spread.interpretEnd _ _ st) in *. clearbody x. subst x.
        destruct history as [e|].
        -- split; [done|]. split; [done|]. right.
           exists status, body, err, text. split; [done|]. split; [done|].
           split; [done|]. split; [done|]. split; [done|].
           intros Hm. unfold Spread.shown, Spread.interpretFail. cbn.
           destruct (message_or_unknown e); done.
        -- split; [done|]. split; [done|]. right.
           exists status, body, err, text. split; [done|]. split; [done|].
           split; [done|]. split; [done|]. split; [done|].
           intros He Ht. rewrite Ht. unfold Spread.shown. cbn. rewrite He. done.
    + unfold Spread.interpretEnd. rewrite (Hgood status Hs).
      cbn [Spread.data_text Spread.data_error].
      change (negb (truthy (default [] None))) with true. cbv iota.
      match goal with |- context [Spread.interpretFail ?m st] =>
        destruct (Hfail m st) as [H1 H2] end.
      split; [exact H1|]. split; [exact H2|]. left. eauto.
Qed.

(** ** [escapeHtml] *)

Section EscapeFacts.
Implicit Types (s t : js_string).

Lemma replaceAll_app c rep s t :
  replaceAll c rep (s ++ t) = replaceAll c rep s ++ replaceAll c rep t.
Proof. unfold replaceAll. apply flat_map_app. Qed.

Lemma escapeHtml_cons c s : escapeHtml (c :: s) = escape_unit c ++ escapeHtml s.
Proof.
  unfold escapeHtml, escape_unit. change (c :: s) with ([c] ++ s).
  rewrite !replaceAll_app. f_equal.
  unfold replaceAll at 3. cbn [flat_map]. rewrite app_nil_r.
  destruct (decide (c = 38)) as [->|H38]; [vm_compute; reflexivity|].
  unfold replaceAll at 2. cbn [flat_map]. rewrite app_nil_r.
  destruct (decide (c = 60)) as [->|H60]; [vm_compute; reflexivity|].
  unfold replaceAll. cbn [flat_map]. rewrite app_nil_r.
  destruct (decide (c = 62)) as [->|H62]; [vm_compute; reflexivity|done].
Qed.

Lemma escapeHtml_flat_map s : escapeHtml s = flat_map escape_unit s.
Proof.
  induction s as [|c s IH]; [done|].
  rewrite escapeHtml_cons, IH. done.
Qed.

Lemma escape_unit_safe c : Forall (fun x => x <> 60 /\ x <> 62) (escape_unit c).
Proof.
  unfold escape_unit. repeat case_decide.
  - vm_compute. repeat constructor; lia.
  - vm_compute. repeat constructor; lia.
  - vm_compute. repeat constructor; lia.
  - repeat constructor; lia.
Qed.

End EscapeFacts.

Lemma escape_unit_cases (c : Z) :
  (c = 38 /\ escape_unit c = [38; 97; 109; 112; 59]) \/
  (c = 60 /\ escape_unit c = [38; 108; 116; 59]) \/
  (c = 62 /\ escape_unit c = [38; 103; 116; 59]) \/
  (c <> 38 /\ c <> 60 /\ c <> 62 /\ escape_unit c = [c]).
Proof.
  unfold escape_unit. repeat case_decide; subst.
  - left. split; [done|]. vm_compute. reflexivity.
  - right. left. split; [done|]. vm_compute. reflexivity.
  - right. right. left. split; [done|]. vm_compute. reflexivity.
  - right. right. right. done.
Qed.

Lemma flat_map_escape_inj (s t : js_string) :
  flat_map escape_unit s = flat_map escape_unit t -> s = t.
Proof.
  revert t. induction s as [|c s IH]; intros [|d t]; cbn [flat_map].
  - done.
  - destruct (escape_unit_cases d) as [[_ ->]|[[_ ->]|[[_ ->]|(_&_&_& ->)]]];
      discriminate.
  - destruct (escape_unit_cases c) as [[_ ->]|[[_ ->]|[[_ ->]|(_&_&_& ->)]]];
      discriminate.
  - destruct (escape_unit_cases c) as [[-> ->]|[[-> ->]|[[-> ->]|(?&?&?& ->)]]];
      destruct (escape_unit_cases d) as [[-> ->]|[[-> ->]|[[-> ->]|(?&?&?& ->)]]];
      cbn [app]; intros [= ?]; subst; try done; try lia; f_equal; by apply IH.
Qed.

(** X9. The text [escapeHtml] returns contains no angle bracket, and
    the escaping works code unit by code unit: the escape of a
    concatenation is the concatenation of the escapes, a text without
    [&], [<] and [>] is returned as it is, and the result is never
    shorter than the text. *)
Theorem escapeHtml_safe (s t : js_string) :
  Forall (fun x => x <> 60 /\ x <> 62) (escapeHtml s) /\
  escapeHtml (s ++ t) = escapeHtml s ++ escapeHtml t /\
  (Forall (fun x => x <> 38 /\ x <> 60 /\ x <> 62) s -> escapeHtml s = s) /\
  (length s <= length (escapeHtml s))%nat.
Proof.
  rewrite !escapeHtml_flat_map. split; [|split; [|split]].
  - induction s as [|c s IH]; cbn [flat_map]; [constructor|].
    apply Forall_app. split; [apply escape_unit_safe|done].
  - apply flat_map_app.
  - induction 1 as [|c s (H1 & H2 & H3) _ IH]; cbn [flat_map]; [done|].
    rewrite IH. unfold escape_unit. by rewrite !decide_False by done.
  - induction s as [|c s IH]; cbn [flat_map]; [done|].
    rewrite length_app. cbn [length].
    destruct (escape_unit_cases c) as [[_ ->]|[[_ ->]|[[_ ->]|(_&_&_& ->)]]];
      cbn [length]; lia.
Qed.

(** X10. [escapeHtml] loses nothing: two texts with the same escape are
    the same text. *)
Theorem escapeHtml_injective (s t : js_string) :
  escapeHtml s = escapeHtml t -> s = t.
Proof. rewrite !escapeHtml_flat_map. apply flat_map_escape_inj. Qed.

Lemma escapeHtml_injective_witness :
  str "a<b" = str "a<b".
Proof.
  apply (escapeHtml_injective (str "a<b") (str "a<b")). reflexivity.
Defined.

(** ** [splitMarkdownSections] *)

Section SplitFacts.
Implicit Types (secs : list section) (cur line : js_string)
  (buf lines : list js_string).

Lemma default_title_cons : exists c s, default_title = c :: s.
Proof. vm_compute. eauto. Qed.

Lemma splitLines_cons (s : js_string) : exists l ls, splitLines s = l :: ls.
Proof.
  destruct s as [|c s]; [eexists _, _; reflexivity|].
  cbn [splitLines]. case_decide; [eauto|].
  destruct s as [|d s']; [eauto|]. case_decide; [eauto|].
  destruct (splitLines (d :: s')); eauto.
Qed.

Lemma heading_title_cons line t :
  heading_title line = Some t -> exists c s, t = c :: s.
Proof.
  unfold heading_title. destruct (headingMatch line) as [g|]; [|done].
  intros [= <-]. destruct (trim g) as [|c s] eqn:E; cbn [truthy].
  - apply default_title_cons.
  - eauto.
Qed.

Lemma open_title_cons cur : exists c s, open_title cur = c :: s.
Proof.
  unfold open_title. destruct cur as [|c s]; cbn [truthy]; [|eauto].
  apply default_title_cons.
Qed.

Lemma pushSection_open secs cur buf :
  is_open cur buf ->
  pushSection (secs, cur, buf) =
    (secs ++ [mkSection (open_title cur) (trim (join newline buf))], cur, []).
Proof.
  intros Ho. unfold pushSection, open_title.
  destruct cur as [|c cur]; cbn [truthy negb andb]; [|done].
  destruct buf as [|l buf]; [by destruct Ho|]. done.
Qed.

Lemma pushSection_closed secs : pushSection (secs, [], []) = (secs, [], []).
Proof. done. Qed.

Lemma split_step_heading secs cur buf line t :
  heading_title line = Some t ->
  is_open cur buf ->
  split_step (secs, cur, buf) line =
    (secs ++ [mkSection (open_title cur) (trim (join newline buf))], t, []).
Proof.
  unfold heading_title, split_step. intros Ht Ho.
  destruct (headingMatch line) as [g|]; [|done]. injection Ht as <-.
  by rewrite pushSection_open.
Qed.

Lemma split_step_heading_closed secs line t :
  heading_title line = Some t ->
  split_step (secs, [], []) line = (secs, t, []).
Proof.
  unfold heading_title, split_step. intros Ht.
  destruct (headingMatch line) as [g|]; [|done]. injection Ht as <-. done.
Qed.

Lemma split_step_plain secs cur buf line :
  heading_title line = None ->
  split_step (secs, cur, buf) line = (secs, cur, buf ++ [line]).
Proof.
  unfold heading_title, split_step. by destruct (headingMatch line).
Qed.

(** The titles of the sections, once a section is open. *)
Lemma titles_open lines secs cur buf :
  is_open cur buf ->
  title <$> (pushSection (foldl split_step (secs, cur, buf) lines)).1.1 =
    (title <$> secs) ++ open_title cur :: omap heading_title lines.
Proof.
  revert secs cur buf. induction lines as [|line lines IH]; intros secs cur buf Ho.
  - cbn [foldl omap list_omap]. rewrite pushSection_open by done.
    cbn [fst]. by rewrite fmap_app.
  - cbn [foldl omap list_omap].
    destruct (heading_title line) as [t|] eqn:Ht.
    + rewrite (split_step_heading _ _ _ _ t Ht Ho).
      destruct (heading_title_cons line t Ht) as (c & s & ->).
      rewrite IH by (by left). rewrite fmap_app. cbn [fmap list_fmap title].
      unfold open_title at 2. cbn [truthy]. by rewrite <- app_assoc.
    + rewrite (split_step_plain _ _ _ _ Ht).
      rewrite IH; [done|]. right. by destruct buf.
Qed.

Lemma titles_start lines :
  title <$> (pushSection (foldl split_step ([], [], []) lines)).1.1 =
    match lines with
    | [] => []
    | line :: _ =>
        match heading_title line with
        | Some _ => []
        | None => [default_title]
        end
    end ++ omap heading_title lines.
Proof.
  destruct lines as [|line lines]; [done|].
  cbn [foldl omap list_omap].
  destruct (heading_title line) as [t|] eqn:Ht.
  - rewrite (split_step_heading_closed _ _ t Ht).
    destruct (heading_title_cons line t Ht) as (c & s & ->).
    rewrite titles_open by (by left). done.
  - rewrite (split_step_plain _ _ _ _ Ht).
    rewrite titles_open by (by right). done.
Qed.

Lemma splitMarkdownSections_map (markdown : js_string) :
  let sections :=
    (pushSection (foldl split_step ([], [], []) (splitLines markdown))).1.1 in
  sections <> [] /\
  splitMarkdownSections markdown =
    map (fun s =>
           mkSection (title s)
             (if truthy (content s) then content s else str "(내용 없음)"))
      sections.
Proof.
  cbv zeta. unfold splitMarkdownSections.
  pose proof (titles_start (splitLines markdown)) as Ht.
  destruct (splitLines_cons markdown) as (l & ls & E). rewrite E in *.
  destruct (pushSection _) as [[sections cur] buf]. cbn [fst] in *.
  assert (sections <> []) as Hne.
  { intros ->. cbn [fmap list_fmap omap list_omap] in Ht.
    destruct (heading_title l); discriminate. }
  split; [done|]. destruct sections; [done|]. done.
Qed.

End SplitFacts.

(** X11. [splitMarkdownSections] never returns an empty list, and every
    section it returns has a title and a content that are not empty; its
    branch for an empty list of sections is never taken. *)
Theorem splitMarkdownSections_nonempty (markdown : js_string) :
  splitMarkdownSections markdown <> [] /\
  Forall (fun s => title s <> [] /\ content s <> [])
    (splitMarkdownSections markdown) /\
  splitMarkdownSections markdown =
    map (fun s =>
           mkSection (title s)
             (if truthy (content s) then content s else str "(내용 없음)"))
      (pushSection (foldl split_step ([], [], []) (splitLines markdown))).1.1.
Proof.
  destruct (splitMarkdownSections_map markdown) as [Hne E].
  split; [|split; [|exact E]].
  - rewrite E. destruct (pushSection _).1.1; [done|discriminate].
  - rewrite E. apply Forall_forall. intros s Hs.
    apply list_elem_of_In, in_map_iff in Hs as (s0 & <- & Hin).
    cbn [title content]. split.
    + assert (title s0 ∈ title <$>
                (pushSection (foldl split_step ([], [], [])
                                (splitLines markdown))).1.1) as Ht
        by (apply list_elem_of_fmap_2; by apply list_elem_of_In).
      rewrite titles_start in Ht. apply elem_of_app in Ht as [Ht|Ht].
      * destruct (splitLines markdown) as [|l ls]; [by apply elem_of_nil in Ht|].
        destruct (heading_title l); [by apply elem_of_nil in Ht|].
        apply list_elem_of_singleton in Ht as ->.
        destruct default_title_cons as (c & t & ->). done.
      * apply list_elem_of_omap in Ht as (line & _ & Hl).
        destruct (heading_title_cons _ _ Hl) as (c & t & ->). done.
    + destruct (content s0) as [|c t]; cbn [truthy]; [|done].
      vm_compute. discriminate.
Qed.

(** X12. The titles of the sections, in order: the default title first
    when the text does not begin with a heading line, then, for every
    heading line, its text trimmed, or the default title when that is
    empty.  The number of sections is thus the number of heading lines,
    plus one when the first line is not a heading. *)
Theorem splitMarkdownSections_titles (markdown : js_string) :
  title <$> splitMarkdownSections markdown =
    match splitLines markdown with
    | [] => []
    | line :: _ =>
        match heading_title line with
        | Some _ => []
        | None => [default_title]
        end
    end ++ omap heading_title (splitLines markdown).
Proof.
  destruct (splitMarkdownSections_map markdown) as [_ ->].
  rewrite <- titles_start. change (map ?f ?l) with (f <$> l).
  rewrite <- list_fmap_compose. done.
Qed.

Section LinesFacts.
Implicit Types (s line : js_string) (lines : list js_string).

Lemma join_cons_cons c line lines :
  join newline ((c :: line) :: lines) = c :: join newline (line :: lines).
Proof. destruct lines; done. Qed.

Lemma join_nil_cons lines :
  lines <> [] -> join newline ([] :: lines) = 10 :: join newline lines.
Proof. destruct lines; done. Qed.

Lemma splitLines_join s :
  (forall a b, s <> a ++ 13 :: 10 :: b) ->
  join newline (splitLines s) = s.
Proof.
  induction s as [|c s IH]; intros Hs; [done|].
  assert (forall a b, s <> a ++ 13 :: 10 :: b) as Hs'.
  { intros a b ->. by apply (Hs (c :: a) b). }
  specialize (IH Hs'). cbn [splitLines]. case_decide as Hc.
  - subst c. destruct (splitLines_cons s) as (l & ls & E). rewrite E in *.
    rewrite join_nil_cons by done. by rewrite IH.
  - destruct s as [|d s']; [done|]. case_decide as Hcd.
    + destruct Hcd as [-> ->]. by destruct (Hs [] s').
    + destruct (splitLines_cons (d :: s')) as (l & ls & E). rewrite E in *.
      rewrite join_cons_cons. by rewrite IH.
Qed.

Lemma splitLines_no_lf s : Forall (fun line => 10 ∉ line) (splitLines s).
Proof.
  induction s as [s IH] using (well_founded_induction
                                 (well_founded_ltof _ (@length Z))).
  destruct s as [|c s]; [repeat constructor; apply not_elem_of_nil|].
  cbn [splitLines]. case_decide as Hc.
  - constructor; [apply not_elem_of_nil|]. apply IH. unfold ltof. cbn. lia.
  - destruct s as [|d s'].
    + repeat constructor. rewrite list_elem_of_singleton. congruence.
    + case_decide as Hcd.
      * constructor; [apply not_elem_of_nil|]. apply IH. unfold ltof. cbn. lia.
      * assert (Forall (fun line => 10 ∉ line) (splitLines (d :: s'))) as H
          by (apply IH; unfold ltof; cbn; lia).
        destruct (splitLines (d :: s')) as [|w ws].
        { repeat constructor. rewrite list_elem_of_singleton. congruence. }
        inversion H as [|? ? Hw Hws]; subst. constructor; [|done].
        rewrite elem_of_cons. intros [?|?]; [congruence|done].
Qed.

Lemma foldl_plain lines secs cur buf :
  Forall (fun line => headingMatch line = None) lines ->
  foldl split_step (secs, cur, buf) lines = (secs, cur, buf ++ lines).
Proof.
  revert buf. induction lines as [|line lines IH]; intros buf Hl.
  - by rewrite app_nil_r.
  - inversion Hl as [|? ? H1 H2]; subst. cbn [foldl].
    rewrite split_step_plain by (unfold heading_title; by rewrite H1).
    rewrite IH by done. by rewrite <- app_assoc.
Qed.

End LinesFacts.

(** X13. No line of a text ever contains a line feed; and splitting a
    text into lines and joining the lines with line feeds gives the text
    back when no carriage return in it is followed by a line feed. *)
Theorem splitLines_round_trip (s : js_string) :
  Forall (fun line => 10 ∉ line) (splitLines s) /\
  ((forall a b, s <> a ++ 13 :: 10 :: b) ->
   join newline (splitLines s) = s).
Proof. split; [apply splitLines_no_lf|apply splitLines_join]. Qed.

Lemma splitLines_round_trip_witness :
  Forall (fun line => 10 ∉ line)
    (splitLines (str "# a" ++ [10; 13] ++ str "b" ++ [10])) /\
  join newline (splitLines (str "# a" ++ [10; 13] ++ str "b" ++ [10])) =
    str "# a" ++ [10; 13] ++ str "b" ++ [10].
Proof.
  destruct (splitLines_round_trip (str "# a" ++ [10; 13] ++ str "b" ++ [10]))
    as [H1 H2].
  split; [exact H1|]. apply H2.
  intros a b H. vm_compute in H.
  destruct a as [|? [|? [|? [|? [|? [|? [|? a]]]]]]]; try discriminate H.
  destruct a; discriminate H.
Defined.

(** X14. A text none of whose lines is a heading comes back as one
    section under the default title, holding the lines joined by line
    feeds and trimmed - or the note that there is no content when that
    is empty, as for the empty text. *)
Theorem splitMarkdownSections_plain (markdown : js_string) :
  Forall (fun line => headingMatch line = None) (splitLines markdown) ->
  splitMarkdownSections markdown =
    [mkSection default_title
       (let body := trim (join newline (splitLines markdown)) in
        if truthy body then body else str "(내용 없음)")].
Proof.
  intros Hl. destruct (splitMarkdownSections_map markdown) as [_ ->].
  rewrite foldl_plain by done. rewrite app_nil_l.
  destruct (splitLines_cons markdown) as (l & ls & ->).
  rewrite pushSection_open by (by right). done.
Qed.

Lemma splitMarkdownSections_plain_witness :
  splitMarkdownSections (str "#not a heading" ++ [10] ++ str " text ") =
    [mkSection default_title
       (let body := trim (join newline
                            (splitLines (str "#not a heading" ++ [10] ++ str " text "))) in
        if truthy body then body else str "(내용 없음)")].
Proof.
  apply (splitMarkdownSections_plain (str "#not a heading" ++ [10] ++ str " text ")).
  vm_compute. repeat constructor.
Defined.

(** ** The admin claims: the other paths *)

Section AdminMore.
Import Functions.
Variable toLowerCase : js_string -> js_string.
Variable ADMIN_EMAILS : js_string.
Implicit Types (svc : auth_service) (req : sync_request)
  (users : gmap js_string bool).

Lemma startsWith_app s p : startsWith s p = true -> s = p ++ drop (length p) s.
Proof.
  revert s. induction p as [|x p IH]; intros s; [done|].
  destruct s as [|c s]; [done|]. cbn [startsWith length drop].
  intros [Hc Hs]%andb_true_iff. apply bool_decide_eq_true in Hc as ->.
  cbn [app]. f_equal. by apply IH.
Qed.

(** The outcomes of a sync request. *)
Lemma syncAdminClaims_cases svc req users :
  let r := syncAdminClaims toLowerCase ADMIN_EMAILS svc req users in
  (r = (mkResponse 204 Empty, users) /\ sync_method req = str "OPTIONS") \/
  (r = (mkResponse 405 (ErrorBody (str "Method Not Allowed")), users) /\
     sync_method req <> str "OPTIONS" /\ sync_method req <> str "POST") \/
  (r = (mkResponse 401 (ErrorBody (str "Missing auth token")), users) /\
     sync_method req = str "POST" /\
     forall token, token <> [] ->
       authorization req <> Some (str "Bearer " ++ token)) \/
  (exists token m,
     r = (mkResponse 401 (ErrorBody m), users) /\
     sync_method req = str "POST" /\
     authorization req = Some (str "Bearer " ++ token) /\ token <> []) \/
  (exists token d,
     r = (json_ok (AdminBody (isAdminEmail toLowerCase ADMIN_EMAILS
                                (default [] (email d)))),
          <[uid d := isAdminEmail toLowerCase ADMIN_EMAILS
                       (default [] (email d))]> users) /\
     sync_method req = str "POST" /\
     authorization req = Some (str "Bearer " ++ token) /\ token <> [] /\
     verifyIdToken svc token = inr d /\
     setCustomUserClaims_error svc (uid d) = None).
Proof.
  cbv zeta. unfold syncAdminClaims.
  destruct (decide (sync_method req = str "OPTIONS")) as [Ho|Ho]; [by left|].
  destruct (decide (sync_method req <> str "POST")) as [Hp|Hp];
    [right; by left|].
  apply dec_stable in Hp. right. right.
  assert (forall token,
            authorization req = Some (str "Bearer " ++ token) ->
            default [] (or_else (authorization req) (Some [])) =
              str "Bearer " ++ token) as Hhead.
  { intros token ->. reflexivity. }
  assert (default [] (or_else (authorization req) (Some [])) <> [] ->
          authorization req =
            Some (default [] (or_else (authorization req) (Some [])))) as Hauth.
  { destruct (authorization req) as [[|c h]|]; done. }
  destruct (default [] (or_else (authorization req) (Some []))) as [|h0 h]
    eqn:Hah.
  { change (startsWith [] (str "Bearer ")) with false. cbv iota.
    left. split; [done|]. split; [done|]. intros token Htok Ha.
    specialize (Hhead token Ha). vm_compute in Hhead. discriminate Hhead. }
  specialize (Hauth ltac:(done)).
  destruct (startsWith (h0 :: h) (str "Bearer ")) eqn:Hsw.
  2:{ left. split; [done|]. split; [done|]. intros token Htok Ha.
      assert (startsWith (str "Bearer " ++ token) (str "Bearer ") = true) as E
        by (vm_compute; reflexivity).
      rewrite <- (Hhead token Ha) in E. congruence. }
  apply startsWith_app in Hsw.
  change (length (str "Bearer ")) with 7%nat in Hsw.
  destruct (drop 7 (h0 :: h)) as [|c token] eqn:Htok; cbn [truthy negb].
  { left. split; [done|]. split; [done|]. intros token Hne Ha.
    rewrite (Hhead token Ha) in Htok.
    change (drop 7 (str "Bearer " ++ token)) with token in Htok. done. }
  right.
  assert (authorization req = Some (str "Bearer " ++ c :: token)) as Ha
    by (by rewrite <- Hsw).
  destruct (verifyIdToken svc (c :: token)) as [err|d] eqn:Hver.
  { left. eexists _, _. done. }
  rewrite or_else_option.
  destruct (setCustomUserClaims_error svc (uid d)) as [err|] eqn:Hset.
  { left. eexists _, _. done. }
  right. exists (c :: token), d. done.
Qed.

End AdminMore.

(** X15. A sync request answers with status 200, 204, 401 or 405, and
    changes no claim unless it answers 200; then it sets the claim of
    one user, the one its token belongs to.  An [OPTIONS] request gets
    204.  A POST whose [Authorization] header is not [Bearer ] followed
    by a non-empty token gets 401 with "Missing auth token". *)
Theorem syncAdminClaims_outcomes
    (toLowerCase : js_string -> js_string) (ADMIN_EMAILS : js_string)
    (svc : Functions.auth_service) (req : Functions.sync_request)
    (users : gmap js_string bool) :
  let r := Functions.syncAdminClaims toLowerCase ADMIN_EMAILS svc req users in
  (Functions.status r.1 = 200 \/ Functions.status r.1 = 204 \/
   Functions.status r.1 = 401 \/ Functions.status r.1 = 405) /\
  (Functions.status r.1 <> 200 -> r.2 = users) /\
  (Functions.status r.1 = 200 ->
   exists token d,
     Functions.authorization req = Some (str "Bearer " ++ token) /\
     Functions.verifyIdToken svc token = inr d /\
     forall u, u <> Functions.uid d -> r.2 !! u = users !! u) /\
  (Functions.sync_method req = str "OPTIONS" ->
   r = (Functions.mkResponse 204 Functions.Empty, users)) /\
  (Functions.sync_method req = str "POST" ->
   (forall token, token <> [] ->
      Functions.authorization req <> Some (str "Bearer " ++ token)) ->
   r = (Functions.mkResponse 401 (Functions.ErrorBody (str "Missing auth token")),
        users)).
Proof.
  cbv zeta.
  destruct (syncAdminClaims_cases toLowerCase ADMIN_EMAILS svc req users)
    as [[-> Hm]|[(-> & Hm1 & Hm2)|[(-> & Hm & Ha)|[(token & m & -> & Hm & Ha & Ht)
       |(token & d & -> & Hm & Ha & Ht & Hv & Hs)]]]];
    cbn [fst snd Functions.status Functions.json_ok].
  - split; [auto|]. split; [done|]. split; [done|]. split; [done|].
    intros Hp. rewrite Hp in Hm. vm_compute in Hm. discriminate.
  - split; [auto|]. split; [done|]. split; [done|]. split; done.
  - split; [auto|]. split; [done|]. split; [done|]. split; [|done].
    intros Ho. rewrite Ho in Hm. vm_compute in Hm. discriminate.
  - split; [auto|]. split; [done|]. split; [done|]. split.
    + intros Ho. rewrite Ho in Hm. vm_compute in Hm. discriminate.
    + intros _ Hno. by destruct (Hno token Ht).
  - split; [auto|]. split; [done|]. split.
    + intros _. exists token, d. split; [done|]. split; [done|].
      intros u Hu. by rewrite lookup_insert_ne.
    + split.
      * intros Ho. rewrite Ho in Hm. vm_compute in Hm. discriminate.
      * intros _ Hno. by destruct (Hno token Ht).
Qed.

(** X16. Repeating a sync request changes nothing further: the second
    request gets the same answer as the first and leaves the claims as
    the first left them. *)
Theorem syncAdminClaims_idempotent
    (toLowerCase : js_string -> js_string) (ADMIN_EMAILS : js_string)
    (svc : Functions.auth_service) (req : Functions.sync_request)
    (users : gmap js_string bool) :
  let r := Functions.syncAdminClaims toLowerCase ADMIN_EMAILS svc req users in
  Functions.syncAdminClaims toLowerCase ADMIN_EMAILS svc req r.2 = r.
Proof.
  cbv zeta.
  destruct (syncAdminClaims_cases toLowerCase ADMIN_EMAILS svc req users)
    as [[E Hm]|[(E & Hm1 & Hm2)|[(E & Hm & Ha)|[(token & m & E & Hm & Ha & Ht)
       |(token & d & E & Hm & Ha & Ht & Hv & Hs)]]]].
  1-4: rewrite E at 1; cbn [snd]; reflexivity.
  rewrite E. cbn [snd].
  destruct (syncAdminClaims_cases toLowerCase ADMIN_EMAILS svc req
              (<[Functions.uid d :=
                   Functions.isAdminEmail toLowerCase ADMIN_EMAILS
                     (default [] (Functions.email d))]> users))
    as [[E' Hm']|[(E' & Hm1' & Hm2')|[(E' & Hm' & Ha')
       |[(token' & m' & E' & Hm' & Ha' & Ht')
       |(token' & d' & E' & Hm' & Ha' & Ht' & Hv' & Hs')]]]].
  - rewrite Hm in Hm'. vm_compute in Hm'. discriminate.
  - done.
  - by destruct (Ha' token Ht).
  - unfold Functions.syncAdminClaims in E'.
    rewrite Hm, Ha in E'.
    rewrite decide_False in E' by (vm_compute; congruence).
    rewrite decide_False in E' by (intros H; by apply H).
    change (default [] (Functions.or_else (Some (str "Bearer " ++ token)) (Some [])))
      with (str "Bearer " ++ token) in E'.
    assert (startsWith (str "Bearer " ++ token) (str "Bearer ") = true) as Hsw
      by (vm_compute; reflexivity).
    rewrite Hsw in E'.
    change (drop 7 (str "Bearer " ++ token)) with token in E'.
    destruct token as [|c token]; [done|]. cbn [truthy negb] in E'.
    rewrite Hv, Hs in E'. discriminate E'.
  - rewrite Ha in Ha'. injection Ha' as Ha'. subst token'.
    rewrite Hv in Hv'. injection Hv' as <-.
    rewrite E'. by rewrite insert_insert_eq.
Qed.

(** ** The trigger on new users *)

(** X17. The trigger on new users only ever grants: it leaves the
    claims alone unless the email of the new user is on the allowlist,
    in which case it sets that user's claim to [true] (or ends with the
    error of the write and changes nothing); it never sets a claim to
    [false]. *)
Theorem onUserCreatedSetAdmin_grants
    (toLowerCase : js_string -> js_string) (ADMIN_EMAILS : js_string)
    (svc : Functions.auth_service) (user : new_user)
    (users : gmap js_string bool) :
  toLowerCase [] = [] ->
  let r := onUserCreatedSetAdmin toLowerCase ADMIN_EMAILS svc user users in
  (Functions.allowlisted toLowerCase ADMIN_EMAILS (default [] (user_email user)) ->
   Functions.setCustomUserClaims_error svc (user_uid user) = None ->
   r = (<[user_uid user := true]> users, None)) /\
  (~ Functions.allowlisted toLowerCase ADMIN_EMAILS
       (default [] (user_email user)) ->
   r = (users, None)) /\
  (r.2 <> None -> r.1 = users) /\
  (forall u, r.1 !! u = Some false -> users !! u = Some false).
Proof.
  intros Hlow. cbv zeta. unfold onUserCreatedSetAdmin.
  pose proof (isAdminEmail_allowlisted toLowerCase Hlow ADMIN_EMAILS
                (default [] (user_email user))) as Hiff.
  destruct (user_email user) as [[|c e]|]; cbn [default] in Hiff.
  - assert (~ Functions.allowlisted toLowerCase ADMIN_EMAILS []) as Hno.
    { rewrite <- Hiff. done. }
    split; [done|]. split; [done|]. split; done.
  - change (Datatypes.id (c :: e)) with (c :: e) in Hiff.
    destruct (Functions.isAdminEmail toLowerCase ADMIN_EMAILS (c :: e)) eqn:Ha;
      cbn [negb].
    + destruct (Functions.setCustomUserClaims_error svc (user_uid user)) eqn:Hs.
      * split; [done|]. split; [intros Hn; destruct Hn; by apply Hiff|].
        split; done.
      * split; [done|]. split; [intros Hn; destruct Hn; by apply Hiff|].
        split; [done|]. cbn [fst]. intros u Hu.
        destruct (decide (user_uid user = u)) as [<-|Hne].
        -- by rewrite lookup_insert_eq in Hu.
        -- by rewrite lookup_insert_ne in Hu.
    + split; [intros Hy; apply Hiff in Hy; discriminate|].
      split; [done|]. split; done.
  - assert (~ Functions.allowlisted toLowerCase ADMIN_EMAILS []) as Hno.
    { rewrite <- Hiff. done. }
    split; [done|]. split; [done|]. split; done.
Qed.

Lemma onUserCreatedSetAdmin_grants_witness :
  (Functions.allowlisted Functions.ascii_toLowerCase
     (str "ann@example.com, boss@example.com ,,")
     (default [] (Some (str "Boss@Example.COM"))) ->
   Functions.setCustomUserClaims_error Functions.sample_auth (str "u1") = None ->
   onUserCreatedSetAdmin Functions.ascii_toLowerCase
     (str "ann@example.com, boss@example.com ,,") Functions.sample_auth
     (mkUser (str "u1") (Some (str "Boss@Example.COM"))) ∅ =
     (<[str "u1" := true]> ∅, None)) /\
  (~ Functions.allowlisted Functions.ascii_toLowerCase
       (str "ann@example.com, boss@example.com ,,")
       (default [] (Some (str "Boss@Example.COM"))) ->
   onUserCreatedSetAdmin Functions.ascii_toLowerCase
     (str "ann@example.com, boss@example.com ,,") Functions.sample_auth
     (mkUser (str "u1") (Some (str "Boss@Example.COM"))) ∅ = (∅, None)) /\
  ((onUserCreatedSetAdmin Functions.ascii_toLowerCase
      (str "ann@example.com, boss@example.com ,,") Functions.sample_auth
      (mkUser (str "u1") (Some (str "Boss@Example.COM"))) ∅).2 <> None ->
   (onUserCreatedSetAdmin Functions.ascii_toLowerCase
      (str "ann@example.com, boss@example.com ,,") Functions.sample_auth
      (mkUser (str "u1") (Some (str "Boss@Example.COM"))) ∅).1 = ∅) /\
  (forall u,
     (onUserCreatedSetAdmin Functions.ascii_toLowerCase
        (str "ann@example.com, boss@example.com ,,") Functions.sample_auth
        (mkUser (str "u1") (Some (str "Boss@Example.COM"))) ∅).1 !! u = Some false ->
     (∅ : gmap js_string bool) !! u = Some false).
Proof.
  apply (onUserCreatedSetAdmin_grants Functions.ascii_toLowerCase
           (str "ann@example.com, boss@example.com ,,") Functions.sample_auth
           (mkUser (str "u1") (Some (str "Boss@Example.COM"))) ∅).
  reflexivity.
Defined.

(** X18. The trigger and the sync endpoint agree.  For a user whose
    token carries the uid and the email the trigger saw, a successful
    sync request leaves the same claims whether or not the trigger ran
    before it; and a grant of the trigger is exactly what the sync
    request sets. *)
Theorem trigger_agrees_with_sync
    (toLowerCase : js_string -> js_string) (ADMIN_EMAILS : js_string)
    (svc : Functions.auth_service) (user : new_user)
    (users : gmap js_string bool) (token : js_string) (d : Functions.decoded) :
  toLowerCase [] = [] ->
  token <> [] ->
  Functions.verifyIdToken svc token = inr d ->
  Functions.uid d = user_uid user ->
  Functions.email d = user_email user ->
  Functions.setCustomUserClaims_error svc (user_uid user) = None ->
  let created := (onUserCreatedSetAdmin toLowerCase ADMIN_EMAILS svc user users).1 in
  (Functions.syncAdminClaims toLowerCase ADMIN_EMAILS svc (sync_post token) created).2 =
  (Functions.syncAdminClaims toLowerCase ADMIN_EMAILS svc (sync_post token) users).2 /\
  (created <> users ->
   created =
   (Functions.syncAdminClaims toLowerCase ADMIN_EMAILS svc (sync_post token) users).2).
Proof.
  intros Hlow Htok Hver Huid Hemail Hset. cbv zeta.
  assert (forall us,
    Functions.syncAdminClaims toLowerCase ADMIN_EMAILS svc (sync_post token) us =
      (Functions.json_ok
         (Functions.AdminBody
            (Functions.isAdminEmail toLowerCase ADMIN_EMAILS
               (default [] (user_email user)))),
       <[user_uid user := Functions.isAdminEmail toLowerCase ADMIN_EMAILS
                            (default [] (user_email user))]> us)) as Hsync.
  { intros us. unfold Functions.syncAdminClaims, sync_post.
    cbn [Functions.sync_method Functions.authorization].
    rewrite decide_False by (vm_compute; congruence).
    rewrite decide_False by (intros H; by apply H).
    change (default [] (Functions.or_else (Some (str "Bearer " ++ token)) (Some [])))
      with (str "Bearer " ++ token).
    assert (startsWith (str "Bearer " ++ token) (str "Bearer ") = true) as ->
      by (vm_compute; reflexivity).
    change (drop 7 (str "Bearer " ++ token)) with token.
    destruct token as [|c token]; [done|]. cbn [truthy negb].
    rewrite Hver, Huid, Hset, or_else_option, Hemail. done. }
  rewrite !Hsync. cbn [snd].
  unfold onUserCreatedSetAdmin.
  destruct (user_email user) as [[|c e]|]; cbn [fst default]; [by split| |by split].
  change (Datatypes.id (c :: e)) with (c :: e).
  destruct (Functions.isAdminEmail toLowerCase ADMIN_EMAILS (c :: e));
    cbn [negb]; [|by split].
  rewrite Hset. cbn [fst]. split; [by rewrite insert_insert_eq|done].
Qed.

Lemma trigger_agrees_with_sync_witness :
  (Functions.syncAdminClaims Functions.ascii_toLowerCase
     (str "ann@example.com, boss@example.com ,,") Functions.sample_auth
     (sync_post (str "t0k3n"))
     (onUserCreatedSetAdmin Functions.ascii_toLowerCase
        (str "ann@example.com, boss@example.com ,,") Functions.sample_auth
        (mkUser (str "u1") (Some (str "Boss@Example.COM"))) ∅).1).2 =
  (Functions.syncAdminClaims Functions.ascii_toLowerCase
     (str "ann@example.com, boss@example.com ,,") Functions.sample_auth
     (sync_post (str "t0k3n")) ∅).2 /\
  ((onUserCreatedSetAdmin Functions.ascii_toLowerCase
      (str "ann@example.com, boss@example.com ,,") Functions.sample_auth
      (mkUser (str "u1") (Some (str "Boss@Example.COM"))) ∅).1 <> ∅ ->
   (onUserCreatedSetAdmin Functions.ascii_toLowerCase
      (str "ann@example.com, boss@example.com ,,") Functions.sample_auth
      (mkUser (str "u1") (Some (str "Boss@Example.COM"))) ∅).1 =
   (Functions.syncAdminClaims Functions.ascii_toLowerCase
      (str "ann@example.com, boss@example.com ,,") Functions.sample_auth
      (sync_post (str "t0k3n")) ∅).2).
Proof.
  apply (trigger_agrees_with_sync Functions.ascii_toLowerCase
           (str "ann@example.com, boss@example.com ,,") Functions.sample_auth
           (mkUser (str "u1") (Some (str "Boss@Example.COM"))) ∅ (str "t0k3n")
           (Functions.mkDecoded (str "u1") (Some (str "Boss@Example.COM")))).
  - reflexivity.
  - vm_compute. congruence.
  - reflexivity.
  - reflexivity.
  - reflexivity.
  - reflexivity.
Defined.

(** ** The loop over the candidate models *)

Section ModelsFacts.
Import Functions.
Implicit Types (gen : nat -> js_string -> thrown + vertex_result)
  (models : list js_string).

(** Attempts that are passed over leave the text empty and only change
    the last error. *)
Lemma tryModels_skip gen n pre rest last :
  (forall i m, pre !! i = Some m -> passed_over (gen (n + i)%nat m) = true) ->
  exists last',
    tryModels gen n (pre ++ rest) [] last =
      tryModels gen (n + length pre) rest [] last'.
Proof.
  revert n last. induction pre as [|m pre IH]; intros n last Hp.
  - exists last. cbn. by rewrite Nat.add_0_r.
  - cbn [app tryModels]. pose proof (Hp 0%nat m eq_refl) as H0.
    rewrite Nat.add_0_r in H0.
    assert (forall i m', pre !! i = Some m' ->
              passed_over (gen (S n + i)%nat m') = true) as Hp'.
    { intros i m' Hi. specialize (Hp (S i) m' Hi).
      by replace (n + S i)%nat with (S n + i)%nat in Hp by lia. }
    destruct (gen n m) as [err|r]; cbn [passed_over] in H0.
    + assert (negb (includes match err with ErrorObj m0 => m0 | NonError s => s end
                      (str "404")) &&
              negb (includes match err with ErrorObj m0 => m0 | NonError s => s end
                      (str "NOT_FOUND")) = false) as ->.
      { apply orb_true_iff in H0 as [-> | ->]; [done|]. apply andb_false_r. }
      destruct (IH (S n) (Some err) Hp') as [last' ->].
      exists last'. f_equal. cbn [length]. lia.
    + apply negb_true_iff in H0. rewrite H0.
      destruct (vertex_output r); [|done].
      destruct (IH (S n) last Hp') as [last' ->].
      exists last'. f_equal. cbn [length]. lia.
Qed.

(** The text the loop ends with is the text of one of the results. *)
Lemma tryModels_text gen n models last t last' :
  tryModels gen n models [] last = inr (t, last') ->
  t = [] \/
  exists k m r, models !! k = Some m /\ gen (n + k)%nat m = inr r /\
                vertex_output r = t.
Proof.
  revert n last. induction models as [|m models IH]; intros n last.
  - cbn. intros [= <- <-]. by left.
  - cbn [tryModels]. destruct (gen n m) as [err|r] eqn:Hg.
    + destruct (_ && _); [done|]. intros H.
      destruct (IH _ _ H) as [->|(k & m' & r & Hk & Hr & Ht)]; [by left|].
      right. exists (S k), m', r. split; [done|].
      by replace (n + S k)%nat with (S n + k)%nat by lia.
    + destruct (truthy (vertex_output r)) eqn:Ht.
      * intros [= <- <-]. right. exists 0%nat, m, r.
        by rewrite Nat.add_0_r.
      * destruct (vertex_output r) eqn:E; [|done]. intros H.
        destruct (IH _ _ H) as [->|(k & m' & r' & Hk & Hr & Ht')]; [by left|].
        right. exists (S k), m', r'. split; [done|].
        by replace (n + S k)%nat with (S n + k)%nat by lia.
Qed.

(** The Vertex path of the endpoint, for any request that takes it. *)
Lemma interpret_vertex e b prompt provider c p :
  project e = Some (c :: p) ->
  prompt <> [] ->
  provider <> str "openai" ->
  interpret e b (prompt_request prompt provider) =
    match tryModels
            (fun n m => generateContent b n (c :: p) (location e) m prompt)
            0 (modelCandidates e) [] None with
    | inl err => server_error (message_or_unknown err)
    | inr (outputText, lastError) =>
        if negb (truthy outputText) then
          server_error
            match lastError with
            | Some (ErrorObj m) => m
            | _ => str "No output_text in response"
            end
        else json_ok (TextBody outputText)
    end.
Proof.
  intros Hp Hpr Hprov. unfold interpret, prompt_request, fields.
  cbn [method req_body Functions.prompt Functions.provider].
  rewrite decide_False by (intros H; by apply H).
  rewrite Hp. destruct prompt as [|c' s']; [done|].
  cbn [is_string]. rewrite bool_decide_eq_false_2 by done. reflexivity.
Qed.

End ModelsFacts.

(** X19. The first candidate model that answers with a text that is not
    empty after trimming decides the response: when every candidate
    before it answered with an empty text or threw an error that
    mentions [404] or [NOT_FOUND], the endpoint returns its trimmed
    text with status 200. *)
Theorem interpret_falls_back
    (e : Functions.environment) (b : Functions.backends)
    (prompt provider : js_string) (c : Z) (p : js_string)
    (pre : list js_string) (m : js_string) (rest : list js_string)
    (r : Functions.vertex_result) :
  Functions.project e = Some (c :: p) ->
  prompt <> [] ->
  provider <> str "openai" ->
  Functions.modelCandidates e = pre ++ m :: rest ->
  (forall i m', pre !! i = Some m' ->
     passed_over (Functions.generateContent b i (c :: p) (Functions.location e)
                    m' prompt) = true) ->
  Functions.generateContent b (length pre) (c :: p) (Functions.location e) m prompt
    = inr r ->
  Functions.vertex_output r <> [] ->
  Functions.interpret e b (prompt_request prompt provider) =
    Functions.json_ok (Functions.TextBody (Functions.vertex_output r)).
Proof.
  intros Hp Hpr Hprov Hm Hpre Hr Hne.
  rewrite (interpret_vertex e b prompt provider c p) by done. rewrite Hm.
  destruct (tryModels_skip
              (fun n m => Functions.generateContent b n (c :: p)
                            (Functions.location e) m prompt)
              0 pre (m :: rest) None Hpre) as [last ->].
  cbn [Functions.tryModels]. rewrite Nat.add_0_l, Hr.
  assert (truthy (Functions.vertex_output r) = true) as Ht
    by (by apply truthy_true).
  rewrite Ht. cbn [negb]. rewrite Ht. reflexivity.
Qed.

Lemma interpret_falls_back_witness :
  Functions.interpret Functions.sample_environment fallback_backends
    (prompt_request (str "three cards") (str "gemini")) =
    Functions.json_ok
      (Functions.TextBody
         (Functions.vertex_output
            [Some [Some (str "The Tower"); None; Some (str " falls ")]])).
Proof.
  apply (interpret_falls_back Functions.sample_environment fallback_backends
           (str "three cards") (str "gemini") 111 (str "gitarot")
           [str "gemini-1.5-flash-002"] (str "gemini-1.5-flash-001")
           [str "gemini-2.0-flash"]).
  - reflexivity.
  - vm_compute. discriminate.
  - vm_compute. discriminate.
  - reflexivity.
  - intros [|i] m' Hi; [|by destruct i]. vm_compute. reflexivity.
  - reflexivity.
  - vm_compute. discriminate.
Defined.

(** X20. An error that mentions neither [404] nor [NOT_FOUND] ends the
    loop at once: when the candidates before it were passed over, the
    endpoint returns 500 with the message of that error, whatever the
    candidates after it would have answered. *)
Theorem interpret_stops_on_error
    (e : Functions.environment) (b : Functions.backends)
    (prompt provider : js_string) (c : Z) (p : js_string)
    (pre : list js_string) (m : js_string) (rest : list js_string)
    (err : thrown) :
  Functions.project e = Some (c :: p) ->
  prompt <> [] ->
  provider <> str "openai" ->
  Functions.modelCandidates e = pre ++ m :: rest ->
  (forall i m', pre !! i = Some m' ->
     passed_over (Functions.generateContent b i (c :: p) (Functions.location e)
                    m' prompt) = true) ->
  Functions.generateContent b (length pre) (c :: p) (Functions.location e) m prompt
    = inl err ->
  passed_over (inl err) = false ->
  Functions.interpret e b (prompt_request prompt provider) =
    Functions.mkResponse 500 (Functions.ErrorBody (message_or_unknown err)).
Proof.
  intros Hp Hpr Hprov Hm Hpre Hr Hhard.
  rewrite (interpret_vertex e b prompt provider c p) by done. rewrite Hm.
  destruct (tryModels_skip
              (fun n m => Functions.generateContent b n (c :: p)
                            (Functions.location e) m prompt)
              0 pre (m :: rest) None Hpre) as [last ->].
  cbn [Functions.tryModels]. rewrite Nat.add_0_l, Hr.
  cbn [passed_over] in Hhard. apply orb_false_iff in Hhard as [-> ->].
  reflexivity.
Qed.

Lemma interpret_stops_on_error_witness :
  Functions.interpret Functions.sample_environment broken_backends
    (prompt_request (str "three cards") (str "gemini")) =
    Functions.mkResponse 500
      (Functions.ErrorBody (message_or_unknown (ErrorObj (str "PERMISSION_DENIED")))).
Proof.
  apply (interpret_stops_on_error Functions.sample_environment broken_backends
           (str "three cards") (str "gemini") 111 (str "gitarot")
           [] (str "gemini-1.5-flash-002")
           [str "gemini-1.5-flash-001"; str "gemini-2.0-flash"]).
  - reflexivity.
  - vm_compute. discriminate.
  - vm_compute. discriminate.
  - reflexivity.
  - intros i m' Hi. destruct i; discriminate Hi.
  - reflexivity.
  - vm_compute. reflexivity.
Defined.

(** X21. A text the endpoint returns on the Vertex path is never empty,
    has no white space at either end, and is the trimmed text of the
    result of one of the calls made for the candidate models. *)
Theorem interpret_vertex_text
    (e : Functions.environment) (b : Functions.backends)
    (prompt provider : js_string) (t : js_string) :
  provider <> str "openai" ->
  Functions.interpret e b (prompt_request prompt provider) =
    Functions.json_ok (Functions.TextBody t) ->
  t <> [] /\ starts_clean t /\ starts_clean (reverse t) /\
  exists proj k m r,
    Functions.project e = Some proj /\
    Functions.modelCandidates e !! k = Some m /\
    Functions.generateContent b k proj (Functions.location e) m prompt = inr r /\
    Functions.vertex_output r = t.
Proof.
  intros Hprov Hi.
  destruct (Functions.project e) as [[|c p]|] eqn:Hp.
  1,3: rewrite (interpret_no_project e b (prompt_request prompt provider)) in Hi
    by (reflexivity || auto); discriminate Hi.
  destruct prompt as [|c' s'].
  { unfold Functions.interpret, prompt_request, Functions.fields in Hi.
    cbn [Functions.method Functions.req_body Functions.prompt] in Hi.
    rewrite decide_False in Hi by (intros H; by apply H).
    rewrite Hp in Hi. discriminate Hi. }
  rewrite (interpret_vertex e b (c' :: s') provider c p) in Hi by done.
  destruct (Functions.tryModels _ 0 _ [] None) as [err|[out last]] eqn:Ht;
    [discriminate Hi|].
  destruct out as [|o out]; [discriminate Hi|]. cbn [truthy negb] in Hi.
  injection Hi as <-.
  destruct (tryModels_text _ _ _ _ _ _ Ht) as [?|(k & m & r & Hk & Hr & Hout)];
    [done|].
  split; [done|]. rewrite <- Hout. unfold Functions.vertex_output at 1 2.
  destruct (trim_clean (join [] (map (fun p0 => default [] p0)
                                   (flat_map (fun c0 => default [] c0) r))))
    as [H1 H2].
  split; [exact H1|]. split; [exact H2|].
  exists (c :: p), k, m, r. done.
Qed.

Lemma interpret_vertex_text_witness :
  Functions.vertex_output
    [Some [Some (str "The Tower"); None; Some (str " falls ")]] <> [] /\
  starts_clean (Functions.vertex_output
    [Some [Some (str "The Tower"); None; Some (str " falls ")]]) /\
  starts_clean (reverse (Functions.vertex_output
    [Some [Some (str "The Tower"); None; Some (str " falls ")]])) /\
  exists proj k m r,
    Functions.project Functions.sample_environment = Some proj /\
    Functions.modelCandidates Functions.sample_environment !! k = Some m /\
    Functions.generateContent fallback_backends k proj
      (Functions.location Functions.sample_environment) m (str "three cards")
      = inr r /\
    Functions.vertex_output r =
      Functions.vertex_output
        [Some [Some (str "The Tower"); None; Some (str " falls ")]].
Proof.
  apply (interpret_vertex_text Functions.sample_environment fallback_backends
           (str "three cards") (str "gemini")).
  - vm_compute. discriminate.
  - vm_compute. reflexivity.
Defined.

(** X22. On the OpenAI path an [output_text] that is present but empty
    is not replaced by the texts of the [output] array: an OK answer
    with [output_text: ""] gets 500 "No output_text in response" even
    when the array holds text. *)
Theorem interpret_openai_empty_output_text
    (e : Functions.environment) (b : Functions.backends)
    (prompt : js_string) (c : Z) (p : js_string) (k : Z) (key : js_string)
    (status : Z) (text : option js_string)
    (items : option (list (option (list Functions.openai_content)))) :
  Functions.project e = Some (c :: p) ->
  prompt <> [] ->
  Functions.OPENAI_API_KEY e = Some (k :: key) ->
  Functions.openai b (k :: key)
    (default [] (Functions.or_else (Functions.OPENAI_MODEL e)
                   (Some (str "gpt-4o-mini")))) prompt =
    Functions.OpenAIResponse true status text
      (inr (Functions.mkOpenAIData (Some []) items)) ->
  Functions.interpret e b (prompt_request prompt (str "openai")) =
    Functions.mkResponse 500
      (Functions.ErrorBody (str "No output_text in response")).
Proof.
  intros Hp Hpr Hkey Hres. unfold Functions.interpret, prompt_request, Functions.fields.
  cbn [Functions.method Functions.req_body Functions.prompt Functions.provider].
  rewrite decide_False by (intros H; by apply H).
  rewrite Hp. destruct prompt as [|c' s']; [done|].
  cbn [Functions.is_string]. rewrite bool_decide_eq_true_2 by done.
  rewrite Hkey, Hres. reflexivity.
Qed.

Lemma interpret_openai_empty_output_text_witness :
  Functions.interpret keyed_environment empty_text_backends
    (prompt_request (str "three cards") (str "openai")) =
    Functions.mkResponse 500
      (Functions.ErrorBody (str "No output_text in response")).
Proof.
  apply (interpret_openai_empty_output_text keyed_environment empty_text_backends
           (str "three cards") 111 (str "gitarot") 115 (str "k-test") 200 None
           (Some [Some [Functions.mkContent (Some (str "output_text"))
                          (Some (str "The Star"))]])).
  - reflexivity.
  - vm_compute. discriminate.
  - reflexivity.
  - reflexivity.
Defined.

(** ** The application shell *)

Section ShellFacts.
Import AppShell.
Implicit Types (fb : firebase) (st : state).

Lemma claim_found_next fb n k claim :
  getIdTokenResult fb n = inr claim -> Boolean claim = false ->
  claim_found fb (S n) k -> claim_found fb n (S k).
Proof.
  intros Hn Hc (i & Hi & Ha & Hb). exists (S i). split; [lia|]. split.
  - by replace (n + S i)%nat with (S n + i)%nat by lia.
  - intros [|j] Hj.
    + rewrite Nat.add_0_r. by exists claim.
    + replace (n + S j)%nat with (S n + j)%nat by lia. apply Hb. lia.
Qed.

Lemma claim_found_inv fb n k :
  claim_found fb n (S k) ->
  carries_admin fb n \/ (carries_none fb n /\ claim_found fb (S n) k).
Proof.
  intros ([|i] & Hi & Ha & Hb).
  - left. by rewrite Nat.add_0_r in Ha.
  - right. split.
    + specialize (Hb 0%nat ltac:(lia)). by rewrite Nat.add_0_r in Hb.
    + exists i. split; [lia|]. split.
      * by replace (S n + i)%nat with (n + S i)%nat by lia.
      * intros j Hj. replace (S n + j)%nat with (n + S j)%nat by lia.
        apply Hb. lia.
Qed.

Lemma retry_fields fb turns n st :
  userEmail (retry fb turns n st).1.1 = userEmail st /\
  isSyncingAdmin (retry fb turns n st).1.1 = isSyncingAdmin st /\
  (n <= (retry fb turns n st).1.2 <= n + length turns)%nat.
Proof.
  revert n st. induction turns as [|i turns IH]; intros n st; cbn [retry].
  - cbn. repeat split; (done || lia).
  - destruct (getIdTokenResult fb n) as [e|claim];
      [cbn; repeat split; (done || lia)|].
    cbv zeta. destruct (Boolean claim); [cbn; repeat split; (done || lia)|].
    destruct (IH (S n) (setIsAdmin false st)) as (-> & -> & H).
    cbn [length userEmail isSyncingAdmin setIsAdmin].
    repeat split; (done || lia).
Qed.

Lemma retry_found fb turns n st :
  claim_found fb n (length turns) ->
  (retry fb turns n st).2 = None /\ isAdmin (retry fb turns n st).1.1 = true.
Proof.
  revert n st. induction turns as [|i turns IH]; intros n st H.
  - destruct H as (i & Hi & _). cbn in Hi. lia.
  - cbn [retry]. apply claim_found_inv in H
      as [(claim & -> & Hc)|[(claim & -> & Hc) H]]; cbv zeta; rewrite Hc.
    + done.
    + by apply IH.
Qed.

Lemma retry_admin fb turns n st :
  (retry fb turns n st).2 = None -> isAdmin (retry fb turns n st).1.1 = true ->
  claim_found fb n (length turns) \/ (turns = [] /\ isAdmin st = true).
Proof.
  revert n st. induction turns as [|i turns IH]; intros n st; cbn [retry].
  - cbn. by right.
  - destruct (getIdTokenResult fb n) as [e|claim] eqn:Hn; [done|].
    cbv zeta. destruct (Boolean claim) eqn:Hc.
    + intros _ _. left. exists 0%nat. cbn [length]. split; [lia|]. split.
      * rewrite Nat.add_0_r. by exists claim.
      * intros j Hj. lia.
    + intros He Ha. destruct (IH _ _ He Ha) as [H|[_ H]]; [|done].
      left. by apply (claim_found_next fb n _ claim).
Qed.

(** What [syncAdminClaims] leaves for a signed-in user. *)
Lemma syncAdminClaims_flag fb n st :
  currentUser fb = true ->
  isAdmin (syncAdminClaims fb n st).1 = true <->
  exists token res,
    getIdToken fb = inr token /\
    fetch fb (str "Bearer " ++ token) = inr res /\
    claim_found fb n 3.
Proof.
  intros Hu. unfold syncAdminClaims. rewrite Hu. cbn [negb].
  destruct (getIdToken fb) as [e|token].
  { cbn. split; [done|]. by intros (? & ? & ? & _). }
  destruct (fetch fb (str "Bearer " ++ token)) as [e|res] eqn:Hf.
  { cbn [fst snd isAdmin setIsAdmin setIsSyncingAdmin]. split; [done|].
    intros (? & ? & [= <-] & H & _). rewrite Hf in H. discriminate H. }
  unfold refreshAdminClaimWithRetry. rewrite Hu. cbn [negb].
  match goal with |- context [retry fb (seq 0 3) n ?s] => set (st0 := s) end.
  pose proof (retry_found fb (seq 0 3) n st0) as Hfound.
  pose proof (retry_admin fb (seq 0 3) n st0) as Hadm.
  destruct (retry fb (seq 0 3) n st0) as [[st' n'] err].
  cbn [fst snd] in Hfound, Hadm. split.
  - intros H. exists token, res. split; [done|]. split; [done|].
    destruct err as [e|]; [done|]. cbn in H.
    destruct (Hadm eq_refl H) as [?|[? _]]; done.
  - intros (? & ? & _ & _ & H). destruct (Hfound H) as [-> Ha]. exact Ha.
Qed.

Lemma syncAdminClaims_fields fb n st :
  userEmail (syncAdminClaims fb n st).1 = userEmail st /\
  (n <= (syncAdminClaims fb n st).2 <= n + 3)%nat /\
  isSyncingAdmin (syncAdminClaims fb n st).1 =
    (if currentUser fb then false else isSyncingAdmin st) /\
  (currentUser fb = false -> syncAdminClaims fb n st = (st, n)).
Proof.
  unfold syncAdminClaims. destruct (currentUser fb) eqn:Hu; cbn [negb].
  2: { cbn. repeat split; try lia. }
  destruct (getIdToken fb) as [e|token]; [cbn; repeat split; (lia || done)|].
  destruct (fetch fb _) as [e|res]; [cbn; repeat split; (lia || done)|].
  unfold refreshAdminClaimWithRetry. rewrite Hu. cbn [negb].
  match goal with |- context [retry fb (seq 0 3) n ?s] => set (st0 := s) end.
  destruct (retry_fields fb (seq 0 3) n st0) as (He & _ & Hn).
  assert (userEmail st0 = userEmail st) as Hst0.
  { subst st0. destruct (ok res); [|done].
    destruct (json res) as [|[d|]]; [done| |done].
    by destruct (admin d). }
  destruct (retry fb (seq 0 3) n st0) as [[st' n'] err].
  cbn [fst snd length seq] in *. rewrite <- Hst0, <- He.
  destruct err; cbn; repeat split; (lia || done).
Qed.

End ShellFacts.

(** X23. A sync of the admin claims never leaves the shell busy: for a
    signed-in user the [isSyncingAdmin] flag is off when it ends,
    whatever failed on the way; it calls [getIdTokenResult] at most
    three times (beside its one call of [getIdToken]) and keeps the
    email; without a user it changes nothing and calls nothing. *)
Theorem shell_sync_settles (fb : AppShell.firebase) (n : nat)
    (st : AppShell.state) :
  AppShell.userEmail (AppShell.syncAdminClaims fb n st).1 = AppShell.userEmail st /\
  (n <= (AppShell.syncAdminClaims fb n st).2 <= n + 3)%nat /\
  AppShell.isSyncingAdmin (AppShell.syncAdminClaims fb n st).1 =
    (if AppShell.currentUser fb then false else AppShell.isSyncingAdmin st) /\
  (AppShell.currentUser fb = false ->
   AppShell.syncAdminClaims fb n st = (st, n)).
Proof. apply syncAdminClaims_fields. Qed.

(** X24. The admin flag after a sync is decided by the refreshed
    tokens, not by the answer of the endpoint: for a signed-in user it
    is on exactly when the token and the request did not fail and one
    of the next three refreshed tokens carries a truthy [admin] claim,
    those before it having been refreshed without one. *)
Theorem shell_admin_needs_claim (fb : AppShell.firebase) (n : nat)
    (st : AppShell.state) :
  AppShell.currentUser fb = true ->
  AppShell.isAdmin (AppShell.syncAdminClaims fb n st).1 = true <->
  exists token res,
    AppShell.getIdToken fb = inr token /\
    AppShell.fetch fb (str "Bearer " ++ token) = inr res /\
    exists i, (i < 3)%nat /\ AppShell.carries_admin fb (n + i) /\
              forall j, (j < i)%nat -> AppShell.carries_none fb (n + j).
Proof. apply syncAdminClaims_flag. Qed.

Lemma shell_admin_needs_claim_witness :
  AppShell.isAdmin
    (AppShell.syncAdminClaims AppShell.sample_firebase 0 AppShell.signed_out).1
    = true <->
  exists token res,
    AppShell.getIdToken AppShell.sample_firebase = inr token /\
    AppShell.fetch AppShell.sample_firebase (str "Bearer " ++ token) = inr res /\
    exists i, (i < 3)%nat /\ AppShell.carries_admin AppShell.sample_firebase (0 + i) /\
              forall j, (j < i)%nat ->
                AppShell.carries_none AppShell.sample_firebase (0 + j).
Proof.
  apply (shell_admin_needs_claim AppShell.sample_firebase 0 AppShell.signed_out).
  reflexivity.
Defined.

(** X25. The listener for the authentication state: it records the
    email of the user; signed out, the admin flag goes off at once and
    [getIdTokenResult] is not called; when the call of
    [getIdTokenResult] in [loadAdminClaim] fails the listener stops and
    the flag stays as it was; otherwise the flag is on at the end only
    if the token of one of the three calls of [getIdTokenResult] that
    follow it, those of the retry loop, carries a truthy [admin] claim.
    [getIdTokenResult] is called at most four times. *)
Theorem shell_listener (fb : AppShell.firebase)
    (user : option (option js_string)) (n : nat) (st : AppShell.state) :
  let r := AppShell.onAuthStateChanged fb user n st in
  AppShell.userEmail r.1.1 = mjoin user /\
  (n <= r.1.2 <= n + 4)%nat /\
  (user = None -> AppShell.isAdmin r.1.1 = false /\ r.1.2 = n) /\
  (forall e, r.2 = Some e ->
     AppShell.getIdTokenResult fb n = inl e /\
     AppShell.isAdmin r.1.1 = AppShell.isAdmin st) /\
  (r.2 = None -> AppShell.isAdmin r.1.1 = true ->
     exists i, (n < i <= n + 3)%nat /\ AppShell.carries_admin fb i).
Proof.
  cbv zeta. unfold AppShell.onAuthStateChanged.
  destruct user as [email|].
  2: { cbn. split; [done|]. split; [lia|]. split; [done|]. split; [|done].
       intros e He. discriminate He. }
  assert (match email with Some e => Some e | None => None end = mjoin (Some email))
    as -> by (by destruct email).
  set (st0 := AppShell.setUserEmail _ st).
  unfold AppShell.loadAdminClaim.
  destruct (AppShell.currentUser fb) eqn:Hu; cbn [negb].
  - destruct (AppShell.getIdTokenResult fb n) as [e|claim] eqn:Hn.
    + cbn. split; [done|]. split; [lia|]. split; [done|]. split; [|done].
      by intros ? [= <-].
    + set (st1 := AppShell.setIsAdmin _ st0).
      destruct (syncAdminClaims_fields fb (S n) st1) as (He & Hc & _).
      pose proof (proj1 (syncAdminClaims_flag fb (S n) st1 Hu)) as Hadm.
      destruct (AppShell.syncAdminClaims fb (S n) st1) as [st' n'].
      cbn [fst snd] in *. rewrite He.
      split; [done|]. split; [lia|]. split; [done|]. split; [done|].
      intros _ Ha. destruct (Hadm Ha) as (_ & _ & _ & _ & i & Hi & Hca & _).
      exists (S n + i)%nat. split; [lia|done].
  - destruct (syncAdminClaims_fields fb n (AppShell.setIsAdmin false st0))
      as (_ & _ & _ & Hsame).
    rewrite (Hsame Hu). cbn. split; [done|]. split; [lia|]. split; [done|]. split; done.
Qed.

(** ** Seed strings and card images *)

Section HexFacts.

Lemma hex_digit_value d : 0 <= d < 16 -> hex_value (hex_digit d) = d.
Proof.
  intros H. unfold hex_value, hex_digit.
  destruct (Z.ltb_spec d 10).
  - destruct (Z.ltb_spec (48 + d) 58); lia.
  - destruct (Z.ltb_spec (87 + d) 58); lia.
Qed.

Lemma hex_digit_is_hex d : 0 <= d < 16 -> is_hex (hex_digit d) = true.
Proof.
  intros H. unfold is_hex, hex_digit. destruct (Z.ltb_spec d 10).
  - apply orb_true_iff. left. apply andb_true_iff. split; apply Z.leb_le; lia.
  - apply orb_true_iff. right. apply andb_true_iff. split; apply Z.leb_le; lia.
Qed.

(** The digits [to_hex] puts in front of [acc]. *)
Lemma to_hex_spec fuel n acc :
  fuel <> 0%nat ->
  0 <= n < 16 ^ Z.of_nat fuel ->
  exists ds,
    to_hex fuel n acc = ds ++ acc /\
    (1 <= length ds)%nat /\
    (length ds = 1%nat \/ 16 ^ Z.of_nat (length ds - 1) <= n) /\
    forallb is_hex ds = true /\
    forall v, foldl (fun v c => v * 16 + hex_value c) v ds
              = v * 16 ^ Z.of_nat (length ds) + n.
Proof.
  revert n acc. induction fuel as [|k IH]; intros n acc Hk Hn; [done|].
  cbn [to_hex]. cbv zeta.
  assert (0 <= n mod 16 < 16) as Hd by (apply Z.mod_pos_bound; lia).
  pose proof (Z.div_mod n 16 ltac:(lia)) as Hdm.
  destruct (Z.eqb_spec (n / 16) 0) as [Hz|Hz].
  - exists [hex_digit (n mod 16)]. cbn [length app foldl].
    split; [done|]. split; [lia|]. split; [by left|]. split.
    + cbn [forallb]. by rewrite hex_digit_is_hex.
    + intros v. rewrite hex_digit_value by done.
      change (Z.of_nat 1) with 1. rewrite Z.pow_1_r. lia.
  - assert (0 <= n / 16 < 16 ^ Z.of_nat k) as Hq.
    { split; [apply Z.div_pos; lia|].
      apply Z.div_lt_upper_bound; [lia|].
      replace (16 * 16 ^ Z.of_nat k) with (16 ^ Z.of_nat (S k)); [lia|].
      rewrite Nat2Z.inj_succ, Z.pow_succ_r by lia. done. }
    assert (k <> 0%nat) as Hk'.
    { intros ->. change (16 ^ Z.of_nat 0) with 1 in Hq. lia. }
    destruct (IH (n / 16) (hex_digit (n mod 16) :: acc) Hk' Hq)
      as (ds & -> & Hlen & Hlow & Hhex & Hval).
    exists (ds ++ [hex_digit (n mod 16)]).
    rewrite length_app. cbn [length].
    split; [by rewrite <- app_assoc|]. split; [lia|]. split; [|split].
    + right. replace (length ds + 1 - 1)%nat with (length ds) by lia.
      destruct Hlow as [->|Hlow].
      * change (16 ^ Z.of_nat 1) with 16. lia.
      * replace (Z.of_nat (length ds)) with (Z.succ (Z.of_nat (length ds - 1)))
          by lia.
        rewrite Z.pow_succ_r by lia. lia.
    + rewrite forallb_app, Hhex. cbn. by rewrite hex_digit_is_hex.
    + intros v. rewrite foldl_app, Hval. cbn [foldl].
      rewrite hex_digit_value by done.
      replace (Z.of_nat (length ds + 1)) with (Z.succ (Z.of_nat (length ds)))
        by lia.
      rewrite Z.pow_succ_r by lia. lia.
Qed.

Lemma log2_fuel n : 0 <= n -> n < 16 ^ Z.of_nat (S (Z.to_nat (Z.log2 n))).
Proof.
  intros Hn. pose proof (Z.log2_nonneg n) as Hl.
  rewrite Nat2Z.inj_succ, Z2Nat.id by done.
  destruct (decide (n = 0)) as [->|Hne].
  { cbn. lia. }
  destruct (Z.log2_spec n ltac:(lia)) as [_ Hlt].
  eapply Z.lt_le_trans; [exact Hlt|].
  replace 16 with (2 ^ 4) by done. rewrite <- Z.pow_mul_r by lia.
  apply Z.pow_le_mono_r; lia.
Qed.

Lemma of_hex_zeros k ds :
  of_hex (replicate k 48 ++ ds) = of_hex ds.
Proof.
  unfold of_hex. rewrite foldl_app. f_equal.
  induction k as [|k IH]; [done|]. cbn [replicate foldl]. exact IH.
Qed.

(** The text of an element of the buffer: eight hexadecimal digits
    whose value is the element. *)
Lemma padded_spec n :
  0 <= n < 2 ^ 32 ->
  length (padStart 8 48 (toString16 n)) = 8%nat /\
  forallb is_hex (padStart 8 48 (toString16 n)) = true /\
  of_hex (padStart 8 48 (toString16 n)) = n.
Proof.
  intros Hn. unfold toString16.
  destruct (to_hex_spec (S (Z.to_nat (Z.log2 n))) n [])
    as (ds & -> & Hlen & Hlow & Hhex & Hval).
  { done. }
  { split; [lia|]. apply log2_fuel. lia. }
  rewrite app_nil_r.
  assert (length ds <= 8)%nat as Hle.
  { destruct Hlow as [->|Hlow]; [lia|].
    destruct (decide (length ds <= 8)%nat) as [?|Hgt]; [done|]. exfalso.
    assert (16 ^ 8 <= 16 ^ Z.of_nat (length ds - 1))
      by (apply Z.pow_le_mono_r; lia).
    change (16 ^ 8) with (2 ^ 32) in *. lia. }
  unfold padStart. split; [|split].
  - rewrite length_app, length_replicate. lia.
  - rewrite forallb_app, Hhex, andb_true_r.
    induction (8 - length ds)%nat as [|k IH]; [done|]. exact IH.
  - rewrite of_hex_zeros. unfold of_hex. rewrite Hval. lia.
Qed.

(** The seed string of a buffer of four elements. *)
Lemma randomSeedString_groups a b c d :
  randomSeedString [a; b; c; d] =
    padStart 8 48 (toString16 a) ++ str "-" ++
    padStart 8 48 (toString16 b) ++ str "-" ++
    padStart 8 48 (toString16 c) ++ str "-" ++
    padStart 8 48 (toString16 d).
Proof. reflexivity. Qed.

Lemma randomSeedString_inj_aux (buf buf' : list Z) :
  length buf = 4%nat -> length buf' = 4%nat ->
  Forall (fun n => 0 <= n < 2 ^ 32) buf ->
  Forall (fun n => 0 <= n < 2 ^ 32) buf' ->
  randomSeedString buf = randomSeedString buf' -> buf = buf'.
Proof.
  intros Hl Hl' Hr Hr' Heq.
  destruct buf as [|a [|b [|c [|d [|]]]]]; try discriminate Hl.
  destruct buf' as [|a' [|b' [|c' [|d' [|]]]]]; try discriminate Hl'.
  rewrite !randomSeedString_groups in Heq.
  repeat match goal with
         | H : Forall _ (_ :: _) |- _ => apply Forall_cons in H as [? H]
         end.
  destruct (padded_spec a) as (La & _ & Va); [done|].
  destruct (padded_spec b) as (Lb & _ & Vb); [done|].
  destruct (padded_spec c) as (Lc & _ & Vc); [done|].
  destruct (padded_spec d) as (Ld & _ & Vd); [done|].
  destruct (padded_spec a') as (La' & _ & Va'); [done|].
  destruct (padded_spec b') as (Lb' & _ & Vb'); [done|].
  destruct (padded_spec c') as (Lc' & _ & Vc'); [done|].
  destruct (padded_spec d') as (Ld' & _ & Vd'); [done|].
  apply app_inj_1 in Heq as [Ea Heq]; [|congruence].
  apply app_inj_1 in Heq as [_ Heq]; [|done].
  apply app_inj_1 in Heq as [Eb Heq]; [|congruence].
  apply app_inj_1 in Heq as [_ Heq]; [|done].
  apply app_inj_1 in Heq as [Ec Heq]; [|congruence].
  apply app_inj_1 in Heq as [_ Ed]; [|done].
  rewrite <- Va, <- Vb, <- Vc, <- Vd, Ea, Eb, Ec, Ed, Va', Vb', Vc', Vd'.
  reflexivity.
Qed.

End HexFacts.

(** X26. A seed string is four groups of eight lower-case hexadecimal
    digits joined by [-], 35 code units in all, and the value of each
    group is the element of the random buffer it was made from. *)
Theorem randomSeedString_shape (a b c d : Z) :
  Forall (fun n => 0 <= n < 2 ^ 32) [a; b; c; d] ->
  exists g1 g2 g3 g4,
    randomSeedString [a; b; c; d] =
      g1 ++ str "-" ++ g2 ++ str "-" ++ g3 ++ str "-" ++ g4 /\
    length (randomSeedString [a; b; c; d]) = 35%nat /\
    Forall (fun g => length g = 8%nat /\ forallb is_hex g = true)
      [g1; g2; g3; g4] /\
    map of_hex [g1; g2; g3; g4] = [a; b; c; d].
Proof.
  intros H.
  repeat match goal with
         | H : Forall _ (_ :: _) |- _ => apply Forall_cons in H as [? H]
         end.
  destruct (padded_spec a) as (La & Ha & Va); [done|].
  destruct (padded_spec b) as (Lb & Hb & Vb); [done|].
  destruct (padded_spec c) as (Lc & Hc & Vc); [done|].
  destruct (padded_spec d) as (Ld & Hd & Vd); [done|].
  exists (padStart 8 48 (toString16 a)), (padStart 8 48 (toString16 b)),
         (padStart 8 48 (toString16 c)), (padStart 8 48 (toString16 d)).
  split; [apply randomSeedString_groups|]. split; [|split].
  - rewrite randomSeedString_groups, !length_app, La, Lb, Lc, Ld. reflexivity.
  - repeat constructor; done.
  - cbn [map]. by rewrite Va, Vb, Vc, Vd.
Qed.

Lemma randomSeedString_shape_witness :
  exists g1 g2 g3 g4,
    randomSeedString [0; 255; 3735928559; 4294967295] =
      g1 ++ str "-" ++ g2 ++ str "-" ++ g3 ++ str "-" ++ g4 /\
    length (randomSeedString [0; 255; 3735928559; 4294967295]) = 35%nat /\
    Forall (fun g => length g = 8%nat /\ forallb is_hex g = true)
      [g1; g2; g3; g4] /\
    map of_hex [g1; g2; g3; g4] = [0; 255; 3735928559; 4294967295].
Proof.
  apply (randomSeedString_shape 0 255 3735928559 4294967295).
  repeat constructor; lia.
Defined.

(** X27. Two buffers of four 32-bit elements that give the same seed
    string are the same buffer: the seed string keeps all 128 random
    bits. *)
Theorem randomSeedString_injective (buf buf' : list Z) :
  length buf = 4%nat -> length buf' = 4%nat ->
  Forall (fun n => 0 <= n < 2 ^ 32) buf ->
  Forall (fun n => 0 <= n < 2 ^ 32) buf' ->
  randomSeedString buf = randomSeedString buf' -> buf = buf'.
Proof. apply randomSeedString_inj_aux. Qed.

Lemma randomSeedString_injective_witness :
  sample_buffer = sample_buffer.
Proof.
  apply (randomSeedString_injective sample_buffer sample_buffer).
  - reflexivity.
  - reflexivity.
  - unfold sample_buffer. repeat constructor; lia.
  - unfold sample_buffer. repeat constructor; lia.
  - reflexivity.
Defined.

(** X28. Every card of the deck of 78 has an image path of the form
    [/cards/….png], and no two cards share a path. *)
Theorem deck_image_paths :
  exists urls,
    mapM getCardImageUrl buildTarotDeck78 = Some urls /\
    length urls = 78%nat /\
    NoDup urls /\
    forallb is_image_path urls = true.
Proof.
  eexists. split; [vm_compute; reflexivity|].
  split; [reflexivity|]. split; [by_evaluation|].
  vm_compute. reflexivity.
Qed.
